(** * Control logic of the SI47XX RDS touch-shield receiver sketch

    A shallow embedding of the sketch
    [SI47XX_RDS_TOUCH_SHIELD_REF_CLOCK.ino]: its global variables become one
    record, its functions become computations in a small monad that threads
    the globals, logs every call made on the [si4735] and [tft] objects and
    stops on undefined behaviour (a write through a null pointer, an index
    outside the band table).  The radio library, the display and the encoder
    decoder are collaborators: what they answer is an input of each pass of
    [loop]. *)

From Stdlib Require Import ZArith Ascii String List Bool Lia.
From stdpp Require Import base option list strings.

Local Open Scope string_scope.
Local Open Scope list_scope.
Local Open Scope Z_scope.

(** ** Data model *)

(** [#define FM_BAND_TYPE 0] and the three that follow it. *)
Definition FM_BAND_TYPE : Z := 0.
Definition MW_BAND_TYPE : Z := 1.
Definition SW_BAND_TYPE : Z := 2.
Definition LW_BAND_TYPE : Z := 3.

(** [#define MIN_ELAPSED_TIME 100] is only a delay and has no counterpart
    here; the modes [FM 0], [LSB 1], [USB 2], [AM 3] are the only values ever
    stored in [currentMode]. *)
Inductive Mode : Set := FM | LSB | USB | AM.

Definition mode_code (m : Mode) : Z :=
  match m with FM => 0 | LSB => 1 | USB => 2 | AM => 3 end.

Definition Mode_eqb (a b : Mode) : bool := mode_code a =? mode_code b.

#[global] Instance Mode_eq_dec : EqDecision Mode.
Proof. solve_decision. Defined.

(** [typedef struct { ... } Band;]  The fields are [uint8_t]/[uint16_t]. *)
Module Band.
Record t : Set := mk {
  bandName : string;
  bandType : Z;
  minimumFreq : Z;
  maximumFreq : Z;
  currentFreq : Z;
  currentStep : Z
}.
End Band.

(** The band table as the sketch initialises it. *)
Definition band_init : list Band.t :=
  [ Band.mk "FM  " FM_BAND_TYPE 8400 10800 10390 10;
    Band.mk "LW  " LW_BAND_TYPE 100 510 300 1;
    Band.mk "AM  " MW_BAND_TYPE 520 1720 810 10;
    Band.mk "160m" SW_BAND_TYPE 1800 3500 1900 1;
    Band.mk "80m " SW_BAND_TYPE 3500 4500 3700 1;
    Band.mk "60m " SW_BAND_TYPE 4500 5500 4850 5;
    Band.mk "49m " SW_BAND_TYPE 5600 6300 6000 5;
    Band.mk "41m " SW_BAND_TYPE 6800 7800 7100 5;
    Band.mk "31m " SW_BAND_TYPE 9200 10000 9600 5;
    Band.mk "30m " SW_BAND_TYPE 10000 11000 10100 1;
    Band.mk "25m " SW_BAND_TYPE 11200 12500 11940 5;
    Band.mk "22m " SW_BAND_TYPE 13400 13900 13600 5;
    Band.mk "20m " SW_BAND_TYPE 14000 14500 14200 1;
    Band.mk "19m " SW_BAND_TYPE 15000 15900 15300 5;
    Band.mk "18m " SW_BAND_TYPE 17200 17900 17600 5;
    Band.mk "17m " SW_BAND_TYPE 18000 18300 18100 1;
    Band.mk "15m " SW_BAND_TYPE 21000 21900 21200 1;
    Band.mk "12m " SW_BAND_TYPE 24890 26200 24940 1;
    Band.mk "CB  " SW_BAND_TYPE 26200 27900 27500 1;
    Band.mk "10m " SW_BAND_TYPE 28000 30000 28400 1;
    Band.mk "All HF" SW_BAND_TYPE 100 30000 15000 1 ].

(** [const int lastBand = (sizeof band / sizeof(Band)) - 1;] *)
Definition lastBand : Z := Z.of_nat (length band_init) - 1.

(** Calls on the radio object, in the order of their first use. *)
Module si4735.
Inductive call : Set :=
| setAudioMuteMcuPin (pin : Z)
| getDeviceI2CAddress (resetPin : Z)
| setRefClock (refclk : Z)
| setRefClockPrescaler (prescale : Z)
| setup (resetPin defaultFunction : Z)
| setVolume (volume : Z)
| setTuneFrequencyAntennaCapacitor (capacitor : Z)
| setFM (fromFreq toFreq initialFreq step : Z)
| setFMDeEmphasis (parameter : Z)
| setSeekFmLimits (bottom top : Z)
| setRdsConfig (RDSEN BLETHA BLETHB BLETHC BLETHD : Z)
| setSSB (fromFreq toFreq initialFreq step usblsb : Z)
| setSSBAutomaticVolumeControl (AVCEN : Z)
| setSsbSoftMuteMaxAttenuation (smattn : Z)
| setAM (fromFreq toFreq initialFreq step : Z)
| setAmSoftMuteMaxAttenuation (smattn : Z)
| setSeekAmLimits (bottom top : Z)
| setSeekAmSpacing (spacing : Z)
| setAutomaticGainControl (AGCDIS AGCIDX : Z)
| reset
| queryLibraryId
| patchPowerUp
| setI2CFastMode
| downloadPatch
| setI2CStandardMode
| setSSBConfig (AUDIOBW SBCUTFLT AVC_DIVIDER AVCEN SMUTESEL DSP_AFCDIS : Z)
| setSSBBfo (offset : Z)
| frequencyUp
| frequencyDown
| getFrequency
| volumeUp
| volumeDown
| seekStationProgress (up_down : bool)
| setAudioMute (off : bool)
| setSSBAudioBandwidth (AUDIOBW : Z)
| setSBBSidebandCutoffFilter (SBCUTFLT : Z)
| setBandwidth (AMCHFLT AMPLFLT : Z)
| setFmStereoOn
| setFmStereoOff
| setFrequencyStep (step : Z)
| getStatus
| getCurrentReceivedSignalQuality
| getAutomaticGainControl
| getCurrentRSSI
| getRdsStatus.
End si4735.

(** What reaches the screen.  Drawing is abstracted to one event per drawing
    function of the sketch; [printText] keeps its position and the text it
    writes, [fillRect] its rectangle. *)
Module tft.
Inductive call : Set :=
| showTemplate
| showFrequency
| showStatus
| showBFO
| showRSSI
| fillRect (x y w h : Z)
| printText (col line : Z) (newValue : string).
End tft.

Inductive Event : Set :=
| Radio (c : si4735.call)
| Screen (c : tft.call).

(** The globals of the sketch.  A [char *] is [None] when it is the null
    pointer and [Some txt] when it points to a buffer of the radio library
    that holds [txt]; the [char] arrays hold their text up to the first NUL. *)
Record State : Type := mkState {
  bfoOn : bool;
  audioMute : bool;
  ssbLoaded : bool;
  fmStereo : bool;
  agcIdx : Z;
  disableAgc : Z;
  agcNdx : Z;
  currentBFO : Z;
  rssi : Z;
  encoderCount : Z;
  band : list Band.t;
  bandIdx : Z;
  lastSwBand : Z;
  currentFrequency : Z;
  previousFrequency : Z;
  currentStep : Z;
  currentBFOStep : Z;
  bwIdxSSB : Z;
  bwIdxAM : Z;
  currentMode : Mode;
  rdsMsg : option string;
  stationName : option string;
  rdsTime : option string;
  bufferStatioName : string;
  bufferRdsMsg : string;
  bufferRdsTime : string
}.

(** The globals as their initialisers leave them (static storage is zeroed:
    the three RDS pointers start null, the three RDS buffers empty). *)
Definition power_on : State :=
  {| bfoOn := false; audioMute := false; ssbLoaded := false; fmStereo := true;
     agcIdx := 0; disableAgc := 0; agcNdx := 0;
     currentBFO := 0; rssi := 0; encoderCount := 0;
     band := band_init; bandIdx := 0; lastSwBand := 7;
     currentFrequency := 0; previousFrequency := 0; currentStep := 1;
     currentBFOStep := 25; bwIdxSSB := 2; bwIdxAM := 1; currentMode := FM;
     rdsMsg := None; stationName := None; rdsTime := None;
     bufferStatioName := ""; bufferRdsMsg := ""; bufferRdsTime := "" |}.

(** Assignment to one global. *)
Definition set_bfoOn (v : bool) (s : State) : State :=
  {| bfoOn := v; audioMute := audioMute s; ssbLoaded := ssbLoaded s; fmStereo := fmStereo s;
     agcIdx := agcIdx s; disableAgc := disableAgc s; agcNdx := agcNdx s;
     currentBFO := currentBFO s; rssi := rssi s; encoderCount := encoderCount s;
     band := band s; bandIdx := bandIdx s; lastSwBand := lastSwBand s;
     currentFrequency := currentFrequency s; previousFrequency := previousFrequency s;
     currentStep := currentStep s; currentBFOStep := currentBFOStep s; bwIdxSSB := bwIdxSSB s;
     bwIdxAM := bwIdxAM s; currentMode := currentMode s; rdsMsg := rdsMsg s;
     stationName := stationName s; rdsTime := rdsTime s;
     bufferStatioName := bufferStatioName s; bufferRdsMsg := bufferRdsMsg s;
     bufferRdsTime := bufferRdsTime s |}.

Definition set_audioMute (v : bool) (s : State) : State :=
  {| bfoOn := bfoOn s; audioMute := v; ssbLoaded := ssbLoaded s; fmStereo := fmStereo s;
     agcIdx := agcIdx s; disableAgc := disableAgc s; agcNdx := agcNdx s;
     currentBFO := currentBFO s; rssi := rssi s; encoderCount := encoderCount s;
     band := band s; bandIdx := bandIdx s; lastSwBand := lastSwBand s;
     currentFrequency := currentFrequency s; previousFrequency := previousFrequency s;
     currentStep := currentStep s; currentBFOStep := currentBFOStep s; bwIdxSSB := bwIdxSSB s;
     bwIdxAM := bwIdxAM s; currentMode := currentMode s; rdsMsg := rdsMsg s;
     stationName := stationName s; rdsTime := rdsTime s;
     bufferStatioName := bufferStatioName s; bufferRdsMsg := bufferRdsMsg s;
     bufferRdsTime := bufferRdsTime s |}.

Definition set_ssbLoaded (v : bool) (s : State) : State :=
  {| bfoOn := bfoOn s; audioMute := audioMute s; ssbLoaded := v; fmStereo := fmStereo s;
     agcIdx := agcIdx s; disableAgc := disableAgc s; agcNdx := agcNdx s;
     currentBFO := currentBFO s; rssi := rssi s; encoderCount := encoderCount s;
     band := band s; bandIdx := bandIdx s; lastSwBand := lastSwBand s;
     currentFrequency := currentFrequency s; previousFrequency := previousFrequency s;
     currentStep := currentStep s; currentBFOStep := currentBFOStep s; bwIdxSSB := bwIdxSSB s;
     bwIdxAM := bwIdxAM s; currentMode := currentMode s; rdsMsg := rdsMsg s;
     stationName := stationName s; rdsTime := rdsTime s;
     bufferStatioName := bufferStatioName s; bufferRdsMsg := bufferRdsMsg s;
     bufferRdsTime := bufferRdsTime s |}.

Definition set_fmStereo (v : bool) (s : State) : State :=
  {| bfoOn := bfoOn s; audioMute := audioMute s; ssbLoaded := ssbLoaded s; fmStereo := v;
     agcIdx := agcIdx s; disableAgc := disableAgc s; agcNdx := agcNdx s;
     currentBFO := currentBFO s; rssi := rssi s; encoderCount := encoderCount s;
     band := band s; bandIdx := bandIdx s; lastSwBand := lastSwBand s;
     currentFrequency := currentFrequency s; previousFrequency := previousFrequency s;
     currentStep := currentStep s; currentBFOStep := currentBFOStep s; bwIdxSSB := bwIdxSSB s;
     bwIdxAM := bwIdxAM s; currentMode := currentMode s; rdsMsg := rdsMsg s;
     stationName := stationName s; rdsTime := rdsTime s;
     bufferStatioName := bufferStatioName s; bufferRdsMsg := bufferRdsMsg s;
     bufferRdsTime := bufferRdsTime s |}.

Definition set_agcIdx (v : Z) (s : State) : State :=
  {| bfoOn := bfoOn s; audioMute := audioMute s; ssbLoaded := ssbLoaded s;
     fmStereo := fmStereo s; agcIdx := v; disableAgc := disableAgc s; agcNdx := agcNdx s;
     currentBFO := currentBFO s; rssi := rssi s; encoderCount := encoderCount s;
     band := band s; bandIdx := bandIdx s; lastSwBand := lastSwBand s;
     currentFrequency := currentFrequency s; previousFrequency := previousFrequency s;
     currentStep := currentStep s; currentBFOStep := currentBFOStep s; bwIdxSSB := bwIdxSSB s;
     bwIdxAM := bwIdxAM s; currentMode := currentMode s; rdsMsg := rdsMsg s;
     stationName := stationName s; rdsTime := rdsTime s;
     bufferStatioName := bufferStatioName s; bufferRdsMsg := bufferRdsMsg s;
     bufferRdsTime := bufferRdsTime s |}.

Definition set_disableAgc (v : Z) (s : State) : State :=
  {| bfoOn := bfoOn s; audioMute := audioMute s; ssbLoaded := ssbLoaded s;
     fmStereo := fmStereo s; agcIdx := agcIdx s; disableAgc := v; agcNdx := agcNdx s;
     currentBFO := currentBFO s; rssi := rssi s; encoderCount := encoderCount s;
     band := band s; bandIdx := bandIdx s; lastSwBand := lastSwBand s;
     currentFrequency := currentFrequency s; previousFrequency := previousFrequency s;
     currentStep := currentStep s; currentBFOStep := currentBFOStep s; bwIdxSSB := bwIdxSSB s;
     bwIdxAM := bwIdxAM s; currentMode := currentMode s; rdsMsg := rdsMsg s;
     stationName := stationName s; rdsTime := rdsTime s;
     bufferStatioName := bufferStatioName s; bufferRdsMsg := bufferRdsMsg s;
     bufferRdsTime := bufferRdsTime s |}.

Definition set_agcNdx (v : Z) (s : State) : State :=
  {| bfoOn := bfoOn s; audioMute := audioMute s; ssbLoaded := ssbLoaded s;
     fmStereo := fmStereo s; agcIdx := agcIdx s; disableAgc := disableAgc s; agcNdx := v;
     currentBFO := currentBFO s; rssi := rssi s; encoderCount := encoderCount s;
     band := band s; bandIdx := bandIdx s; lastSwBand := lastSwBand s;
     currentFrequency := currentFrequency s; previousFrequency := previousFrequency s;
     currentStep := currentStep s; currentBFOStep := currentBFOStep s; bwIdxSSB := bwIdxSSB s;
     bwIdxAM := bwIdxAM s; currentMode := currentMode s; rdsMsg := rdsMsg s;
     stationName := stationName s; rdsTime := rdsTime s;
     bufferStatioName := bufferStatioName s; bufferRdsMsg := bufferRdsMsg s;
     bufferRdsTime := bufferRdsTime s |}.

Definition set_currentBFO (v : Z) (s : State) : State :=
  {| bfoOn := bfoOn s; audioMute := audioMute s; ssbLoaded := ssbLoaded s;
     fmStereo := fmStereo s; agcIdx := agcIdx s; disableAgc := disableAgc s;
     agcNdx := agcNdx s; currentBFO := v; rssi := rssi s; encoderCount := encoderCount s;
     band := band s; bandIdx := bandIdx s; lastSwBand := lastSwBand s;
     currentFrequency := currentFrequency s; previousFrequency := previousFrequency s;
     currentStep := currentStep s; currentBFOStep := currentBFOStep s; bwIdxSSB := bwIdxSSB s;
     bwIdxAM := bwIdxAM s; currentMode := currentMode s; rdsMsg := rdsMsg s;
     stationName := stationName s; rdsTime := rdsTime s;
     bufferStatioName := bufferStatioName s; bufferRdsMsg := bufferRdsMsg s;
     bufferRdsTime := bufferRdsTime s |}.

Definition set_rssi (v : Z) (s : State) : State :=
  {| bfoOn := bfoOn s; audioMute := audioMute s; ssbLoaded := ssbLoaded s;
     fmStereo := fmStereo s; agcIdx := agcIdx s; disableAgc := disableAgc s;
     agcNdx := agcNdx s; currentBFO := currentBFO s; rssi := v; encoderCount := encoderCount s;
     band := band s; bandIdx := bandIdx s; lastSwBand := lastSwBand s;
     currentFrequency := currentFrequency s; previousFrequency := previousFrequency s;
     currentStep := currentStep s; currentBFOStep := currentBFOStep s; bwIdxSSB := bwIdxSSB s;
     bwIdxAM := bwIdxAM s; currentMode := currentMode s; rdsMsg := rdsMsg s;
     stationName := stationName s; rdsTime := rdsTime s;
     bufferStatioName := bufferStatioName s; bufferRdsMsg := bufferRdsMsg s;
     bufferRdsTime := bufferRdsTime s |}.

Definition set_encoderCount (v : Z) (s : State) : State :=
  {| bfoOn := bfoOn s; audioMute := audioMute s; ssbLoaded := ssbLoaded s;
     fmStereo := fmStereo s; agcIdx := agcIdx s; disableAgc := disableAgc s;
     agcNdx := agcNdx s; currentBFO := currentBFO s; rssi := rssi s; encoderCount := v;
     band := band s; bandIdx := bandIdx s; lastSwBand := lastSwBand s;
     currentFrequency := currentFrequency s; previousFrequency := previousFrequency s;
     currentStep := currentStep s; currentBFOStep := currentBFOStep s; bwIdxSSB := bwIdxSSB s;
     bwIdxAM := bwIdxAM s; currentMode := currentMode s; rdsMsg := rdsMsg s;
     stationName := stationName s; rdsTime := rdsTime s;
     bufferStatioName := bufferStatioName s; bufferRdsMsg := bufferRdsMsg s;
     bufferRdsTime := bufferRdsTime s |}.

Definition set_band (v : list Band.t) (s : State) : State :=
  {| bfoOn := bfoOn s; audioMute := audioMute s; ssbLoaded := ssbLoaded s;
     fmStereo := fmStereo s; agcIdx := agcIdx s; disableAgc := disableAgc s;
     agcNdx := agcNdx s; currentBFO := currentBFO s; rssi := rssi s;
     encoderCount := encoderCount s; band := v; bandIdx := bandIdx s;
     lastSwBand := lastSwBand s; currentFrequency := currentFrequency s;
     previousFrequency := previousFrequency s; currentStep := currentStep s;
     currentBFOStep := currentBFOStep s; bwIdxSSB := bwIdxSSB s; bwIdxAM := bwIdxAM s;
     currentMode := currentMode s; rdsMsg := rdsMsg s; stationName := stationName s;
     rdsTime := rdsTime s; bufferStatioName := bufferStatioName s;
     bufferRdsMsg := bufferRdsMsg s; bufferRdsTime := bufferRdsTime s |}.

Definition set_bandIdx (v : Z) (s : State) : State :=
  {| bfoOn := bfoOn s; audioMute := audioMute s; ssbLoaded := ssbLoaded s;
     fmStereo := fmStereo s; agcIdx := agcIdx s; disableAgc := disableAgc s;
     agcNdx := agcNdx s; currentBFO := currentBFO s; rssi := rssi s;
     encoderCount := encoderCount s; band := band s; bandIdx := v; lastSwBand := lastSwBand s;
     currentFrequency := currentFrequency s; previousFrequency := previousFrequency s;
     currentStep := currentStep s; currentBFOStep := currentBFOStep s; bwIdxSSB := bwIdxSSB s;
     bwIdxAM := bwIdxAM s; currentMode := currentMode s; rdsMsg := rdsMsg s;
     stationName := stationName s; rdsTime := rdsTime s;
     bufferStatioName := bufferStatioName s; bufferRdsMsg := bufferRdsMsg s;
     bufferRdsTime := bufferRdsTime s |}.

Definition set_lastSwBand (v : Z) (s : State) : State :=
  {| bfoOn := bfoOn s; audioMute := audioMute s; ssbLoaded := ssbLoaded s;
     fmStereo := fmStereo s; agcIdx := agcIdx s; disableAgc := disableAgc s;
     agcNdx := agcNdx s; currentBFO := currentBFO s; rssi := rssi s;
     encoderCount := encoderCount s; band := band s; bandIdx := bandIdx s; lastSwBand := v;
     currentFrequency := currentFrequency s; previousFrequency := previousFrequency s;
     currentStep := currentStep s; currentBFOStep := currentBFOStep s; bwIdxSSB := bwIdxSSB s;
     bwIdxAM := bwIdxAM s; currentMode := currentMode s; rdsMsg := rdsMsg s;
     stationName := stationName s; rdsTime := rdsTime s;
     bufferStatioName := bufferStatioName s; bufferRdsMsg := bufferRdsMsg s;
     bufferRdsTime := bufferRdsTime s |}.

Definition set_currentFrequency (v : Z) (s : State) : State :=
  {| bfoOn := bfoOn s; audioMute := audioMute s; ssbLoaded := ssbLoaded s;
     fmStereo := fmStereo s; agcIdx := agcIdx s; disableAgc := disableAgc s;
     agcNdx := agcNdx s; currentBFO := currentBFO s; rssi := rssi s;
     encoderCount := encoderCount s; band := band s; bandIdx := bandIdx s;
     lastSwBand := lastSwBand s; currentFrequency := v;
     previousFrequency := previousFrequency s; currentStep := currentStep s;
     currentBFOStep := currentBFOStep s; bwIdxSSB := bwIdxSSB s; bwIdxAM := bwIdxAM s;
     currentMode := currentMode s; rdsMsg := rdsMsg s; stationName := stationName s;
     rdsTime := rdsTime s; bufferStatioName := bufferStatioName s;
     bufferRdsMsg := bufferRdsMsg s; bufferRdsTime := bufferRdsTime s |}.

Definition set_previousFrequency (v : Z) (s : State) : State :=
  {| bfoOn := bfoOn s; audioMute := audioMute s; ssbLoaded := ssbLoaded s;
     fmStereo := fmStereo s; agcIdx := agcIdx s; disableAgc := disableAgc s;
     agcNdx := agcNdx s; currentBFO := currentBFO s; rssi := rssi s;
     encoderCount := encoderCount s; band := band s; bandIdx := bandIdx s;
     lastSwBand := lastSwBand s; currentFrequency := currentFrequency s;
     previousFrequency := v; currentStep := currentStep s; currentBFOStep := currentBFOStep s;
     bwIdxSSB := bwIdxSSB s; bwIdxAM := bwIdxAM s; currentMode := currentMode s;
     rdsMsg := rdsMsg s; stationName := stationName s; rdsTime := rdsTime s;
     bufferStatioName := bufferStatioName s; bufferRdsMsg := bufferRdsMsg s;
     bufferRdsTime := bufferRdsTime s |}.

Definition set_currentStep (v : Z) (s : State) : State :=
  {| bfoOn := bfoOn s; audioMute := audioMute s; ssbLoaded := ssbLoaded s;
     fmStereo := fmStereo s; agcIdx := agcIdx s; disableAgc := disableAgc s;
     agcNdx := agcNdx s; currentBFO := currentBFO s; rssi := rssi s;
     encoderCount := encoderCount s; band := band s; bandIdx := bandIdx s;
     lastSwBand := lastSwBand s; currentFrequency := currentFrequency s;
     previousFrequency := previousFrequency s; currentStep := v;
     currentBFOStep := currentBFOStep s; bwIdxSSB := bwIdxSSB s; bwIdxAM := bwIdxAM s;
     currentMode := currentMode s; rdsMsg := rdsMsg s; stationName := stationName s;
     rdsTime := rdsTime s; bufferStatioName := bufferStatioName s;
     bufferRdsMsg := bufferRdsMsg s; bufferRdsTime := bufferRdsTime s |}.

Definition set_currentBFOStep (v : Z) (s : State) : State :=
  {| bfoOn := bfoOn s; audioMute := audioMute s; ssbLoaded := ssbLoaded s;
     fmStereo := fmStereo s; agcIdx := agcIdx s; disableAgc := disableAgc s;
     agcNdx := agcNdx s; currentBFO := currentBFO s; rssi := rssi s;
     encoderCount := encoderCount s; band := band s; bandIdx := bandIdx s;
     lastSwBand := lastSwBand s; currentFrequency := currentFrequency s;
     previousFrequency := previousFrequency s; currentStep := currentStep s;
     currentBFOStep := v; bwIdxSSB := bwIdxSSB s; bwIdxAM := bwIdxAM s;
     currentMode := currentMode s; rdsMsg := rdsMsg s; stationName := stationName s;
     rdsTime := rdsTime s; bufferStatioName := bufferStatioName s;
     bufferRdsMsg := bufferRdsMsg s; bufferRdsTime := bufferRdsTime s |}.

Definition set_bwIdxSSB (v : Z) (s : State) : State :=
  {| bfoOn := bfoOn s; audioMute := audioMute s; ssbLoaded := ssbLoaded s;
     fmStereo := fmStereo s; agcIdx := agcIdx s; disableAgc := disableAgc s;
     agcNdx := agcNdx s; currentBFO := currentBFO s; rssi := rssi s;
     encoderCount := encoderCount s; band := band s; bandIdx := bandIdx s;
     lastSwBand := lastSwBand s; currentFrequency := currentFrequency s;
     previousFrequency := previousFrequency s; currentStep := currentStep s;
     currentBFOStep := currentBFOStep s; bwIdxSSB := v; bwIdxAM := bwIdxAM s;
     currentMode := currentMode s; rdsMsg := rdsMsg s; stationName := stationName s;
     rdsTime := rdsTime s; bufferStatioName := bufferStatioName s;
     bufferRdsMsg := bufferRdsMsg s; bufferRdsTime := bufferRdsTime s |}.

Definition set_bwIdxAM (v : Z) (s : State) : State :=
  {| bfoOn := bfoOn s; audioMute := audioMute s; ssbLoaded := ssbLoaded s;
     fmStereo := fmStereo s; agcIdx := agcIdx s; disableAgc := disableAgc s;
     agcNdx := agcNdx s; currentBFO := currentBFO s; rssi := rssi s;
     encoderCount := encoderCount s; band := band s; bandIdx := bandIdx s;
     lastSwBand := lastSwBand s; currentFrequency := currentFrequency s;
     previousFrequency := previousFrequency s; currentStep := currentStep s;
     currentBFOStep := currentBFOStep s; bwIdxSSB := bwIdxSSB s; bwIdxAM := v;
     currentMode := currentMode s; rdsMsg := rdsMsg s; stationName := stationName s;
     rdsTime := rdsTime s; bufferStatioName := bufferStatioName s;
     bufferRdsMsg := bufferRdsMsg s; bufferRdsTime := bufferRdsTime s |}.

Definition set_currentMode (v : Mode) (s : State) : State :=
  {| bfoOn := bfoOn s; audioMute := audioMute s; ssbLoaded := ssbLoaded s;
     fmStereo := fmStereo s; agcIdx := agcIdx s; disableAgc := disableAgc s;
     agcNdx := agcNdx s; currentBFO := currentBFO s; rssi := rssi s;
     encoderCount := encoderCount s; band := band s; bandIdx := bandIdx s;
     lastSwBand := lastSwBand s; currentFrequency := currentFrequency s;
     previousFrequency := previousFrequency s; currentStep := currentStep s;
     currentBFOStep := currentBFOStep s; bwIdxSSB := bwIdxSSB s; bwIdxAM := bwIdxAM s;
     currentMode := v; rdsMsg := rdsMsg s; stationName := stationName s; rdsTime := rdsTime s;
     bufferStatioName := bufferStatioName s; bufferRdsMsg := bufferRdsMsg s;
     bufferRdsTime := bufferRdsTime s |}.

Definition set_rdsMsg (v : option string) (s : State) : State :=
  {| bfoOn := bfoOn s; audioMute := audioMute s; ssbLoaded := ssbLoaded s;
     fmStereo := fmStereo s; agcIdx := agcIdx s; disableAgc := disableAgc s;
     agcNdx := agcNdx s; currentBFO := currentBFO s; rssi := rssi s;
     encoderCount := encoderCount s; band := band s; bandIdx := bandIdx s;
     lastSwBand := lastSwBand s; currentFrequency := currentFrequency s;
     previousFrequency := previousFrequency s; currentStep := currentStep s;
     currentBFOStep := currentBFOStep s; bwIdxSSB := bwIdxSSB s; bwIdxAM := bwIdxAM s;
     currentMode := currentMode s; rdsMsg := v; stationName := stationName s;
     rdsTime := rdsTime s; bufferStatioName := bufferStatioName s;
     bufferRdsMsg := bufferRdsMsg s; bufferRdsTime := bufferRdsTime s |}.

Definition set_stationName (v : option string) (s : State) : State :=
  {| bfoOn := bfoOn s; audioMute := audioMute s; ssbLoaded := ssbLoaded s;
     fmStereo := fmStereo s; agcIdx := agcIdx s; disableAgc := disableAgc s;
     agcNdx := agcNdx s; currentBFO := currentBFO s; rssi := rssi s;
     encoderCount := encoderCount s; band := band s; bandIdx := bandIdx s;
     lastSwBand := lastSwBand s; currentFrequency := currentFrequency s;
     previousFrequency := previousFrequency s; currentStep := currentStep s;
     currentBFOStep := currentBFOStep s; bwIdxSSB := bwIdxSSB s; bwIdxAM := bwIdxAM s;
     currentMode := currentMode s; rdsMsg := rdsMsg s; stationName := v; rdsTime := rdsTime s;
     bufferStatioName := bufferStatioName s; bufferRdsMsg := bufferRdsMsg s;
     bufferRdsTime := bufferRdsTime s |}.

Definition set_rdsTime (v : option string) (s : State) : State :=
  {| bfoOn := bfoOn s; audioMute := audioMute s; ssbLoaded := ssbLoaded s;
     fmStereo := fmStereo s; agcIdx := agcIdx s; disableAgc := disableAgc s;
     agcNdx := agcNdx s; currentBFO := currentBFO s; rssi := rssi s;
     encoderCount := encoderCount s; band := band s; bandIdx := bandIdx s;
     lastSwBand := lastSwBand s; currentFrequency := currentFrequency s;
     previousFrequency := previousFrequency s; currentStep := currentStep s;
     currentBFOStep := currentBFOStep s; bwIdxSSB := bwIdxSSB s; bwIdxAM := bwIdxAM s;
     currentMode := currentMode s; rdsMsg := rdsMsg s; stationName := stationName s;
     rdsTime := v; bufferStatioName := bufferStatioName s; bufferRdsMsg := bufferRdsMsg s;
     bufferRdsTime := bufferRdsTime s |}.

Definition set_bufferStatioName (v : string) (s : State) : State :=
  {| bfoOn := bfoOn s; audioMute := audioMute s; ssbLoaded := ssbLoaded s;
     fmStereo := fmStereo s; agcIdx := agcIdx s; disableAgc := disableAgc s;
     agcNdx := agcNdx s; currentBFO := currentBFO s; rssi := rssi s;
     encoderCount := encoderCount s; band := band s; bandIdx := bandIdx s;
     lastSwBand := lastSwBand s; currentFrequency := currentFrequency s;
     previousFrequency := previousFrequency s; currentStep := currentStep s;
     currentBFOStep := currentBFOStep s; bwIdxSSB := bwIdxSSB s; bwIdxAM := bwIdxAM s;
     currentMode := currentMode s; rdsMsg := rdsMsg s; stationName := stationName s;
     rdsTime := rdsTime s; bufferStatioName := v; bufferRdsMsg := bufferRdsMsg s;
     bufferRdsTime := bufferRdsTime s |}.

Definition set_bufferRdsMsg (v : string) (s : State) : State :=
  {| bfoOn := bfoOn s; audioMute := audioMute s; ssbLoaded := ssbLoaded s;
     fmStereo := fmStereo s; agcIdx := agcIdx s; disableAgc := disableAgc s;
     agcNdx := agcNdx s; currentBFO := currentBFO s; rssi := rssi s;
     encoderCount := encoderCount s; band := band s; bandIdx := bandIdx s;
     lastSwBand := lastSwBand s; currentFrequency := currentFrequency s;
     previousFrequency := previousFrequency s; currentStep := currentStep s;
     currentBFOStep := currentBFOStep s; bwIdxSSB := bwIdxSSB s; bwIdxAM := bwIdxAM s;
     currentMode := currentMode s; rdsMsg := rdsMsg s; stationName := stationName s;
     rdsTime := rdsTime s; bufferStatioName := bufferStatioName s; bufferRdsMsg := v;
     bufferRdsTime := bufferRdsTime s |}.

Definition set_bufferRdsTime (v : string) (s : State) : State :=
  {| bfoOn := bfoOn s; audioMute := audioMute s; ssbLoaded := ssbLoaded s;
     fmStereo := fmStereo s; agcIdx := agcIdx s; disableAgc := disableAgc s;
     agcNdx := agcNdx s; currentBFO := currentBFO s; rssi := rssi s;
     encoderCount := encoderCount s; band := band s; bandIdx := bandIdx s;
     lastSwBand := lastSwBand s; currentFrequency := currentFrequency s;
     previousFrequency := previousFrequency s; currentStep := currentStep s;
     currentBFOStep := currentBFOStep s; bwIdxSSB := bwIdxSSB s; bwIdxAM := bwIdxAM s;
     currentMode := currentMode s; rdsMsg := rdsMsg s; stationName := stationName s;
     rdsTime := rdsTime s; bufferStatioName := bufferStatioName s;
     bufferRdsMsg := bufferRdsMsg s; bufferRdsTime := v |}.


(** ** The monad of the sketch

    A computation reads and writes the globals, appends to the log of calls,
    and may stop: on a read or write through a null pointer, on an index
    outside the band table, on a [strcpy] longer than its destination, or in
    the endless loop of [setup] when no radio answers. *)

Inductive fault : Set := NullPointer | OutOfBounds | BufferOverflow | NotDetected.

Inductive outcome (A : Type) : Type :=
| Ok (a : A) (s : State) (t : list Event)
| Fault (f : fault).
Arguments Ok {A} a s t.
Arguments Fault {A} f.

Definition M (A : Type) : Type := State → outcome A.

(** The calls [t] were logged before [o] was computed. *)
Definition prepend {A : Type} (t : list Event) (o : outcome A) : outcome A :=
  match o with
  | Ok a s t' => Ok a s (t ++ t')
  | Fault e => Fault e
  end.

#[global] Instance M_ret : MRet M := λ A a s, Ok a s [].

#[global] Instance M_bind : MBind M := λ A B f m s,
  match m s with
  | Ok a s1 t1 => prepend t1 (f a s1)
  | Fault e => Fault e
  end.

Definition gets {A : Type} (f : State → A) : M A := λ s, Ok (f s) s [].
Definition modify (f : State → State) : M unit := λ s, Ok tt (f s) [].
Definition emit (e : Event) : M unit := λ s, Ok tt s [e].
Definition abort {A : Type} (f : fault) : M A := λ _, Fault f.

Definition radio (c : si4735.call) : M unit := emit (Radio c).
Definition screen (c : tft.call) : M unit := emit (Screen c).

(** [if (c) { m }] *)
Definition when (c : bool) (m : M unit) : M unit := if c then m else mret tt.

(** A callback invoked once per element, in order. *)
Fixpoint each {A : Type} (f : A → M unit) (l : list A) : M unit :=
  match l with
  | [] => mret tt
  | x :: l' => f x;; each f l'
  end.

Definition uint8 (z : Z) : Z := z mod 256.
Definition uint16 (z : Z) : Z := z mod 65536.

(** [band[i]]: reading outside the array is undefined behaviour. *)
Definition band_get (l : list Band.t) (i : Z) : option Band.t :=
  if i <? 0 then None else l !! Z.to_nat i.

Definition band_at (i : Z) : M Band.t := λ s,
  match band_get (band s) i with
  | Some b => Ok b s []
  | None => Fault OutOfBounds
  end.

(** [*p] for one of the RDS pointers. *)
Definition deref (p : option string) : M string :=
  match p with
  | Some txt => mret txt
  | None => abort NullPointer
  end.

(** [p[0] = '\0'] *)
Definition truncate (p : option string) : M (option string) :=
  match p with
  | Some _ => mret (Some "")
  | None => abort NullPointer
  end.

(** ** The functions of the sketch *)

(** [void rotaryEncoder()], the interrupt routine: [status] is what
    [encoder.process()] returned, [DIR_CW] the constant of [Rotary.h]. *)
Definition rotaryEncoder (DIR_CW status : Z) (s : State) : State :=
  if status =? 0 then s
  else if status =? DIR_CW then set_encoderCount 1 s
  else set_encoderCount (-1) s.

Definition is_ssb (m : Mode) : bool :=
  match m with LSB | USB => true | _ => false end.

Definition showFrequency : M unit := screen tft.showFrequency.

(** [void showFrequencySeek(uint16_t freq)] *)
Definition showFrequencySeek (freq : Z) : M unit :=
  modify (set_currentFrequency freq);;
  modify (set_previousFrequency freq);;
  showFrequency.

Definition showBFO : M unit := screen tft.showBFO.

(** [void showStatus()]: three queries, the frequency, the rectangle that
    blanks the unit and step texts, the rectangle that blanks the band line
    and the line below it, the band line (which reads [band[bandIdx]]), the
    AGC query, the texts of the status, and the BFO line in LSB and USB. *)
Definition showStatus : M unit :=
  radio si4735.getStatus;;
  radio si4735.getCurrentReceivedSignalQuality;;
  radio si4735.getFrequency;;
  showFrequency;;
  screen (tft.fillRect 155 2 83 36);;
  screen (tft.fillRect 0 60 250 36);;
  i ← gets bandIdx;
  _ ← band_at i;
  radio si4735.getAutomaticGainControl;;
  screen tft.showStatus;;
  m ← gets currentMode;
  when (is_ssb m) showBFO.

Definition showRSSI : M unit := screen tft.showRSSI.

(** [printText(col, line, 1, oldValue, newValue, GREEN, 6)] draws the new
    text and ends with [strcpy(oldValue, newValue)]; [size] is the size of
    the array behind [oldValue]. *)
Definition printText (col line : Z) (size : nat) (store : string → State → State)
    (newValue : string) : M unit :=
  screen (tft.printText col line newValue);;
  if (String.length newValue <? size)%nat then modify (store newValue)
  else abort BufferOverflow.

(** [void showRDSMsg()] *)
Definition showRDSMsg : M unit :=
  p ← gets rdsMsg;
  new ← deref p;
  old ← gets bufferRdsMsg;
  if String.eqb old new then mret tt
  else printText 55 85 255 set_bufferRdsMsg new.

(** [void showRDSStation()] *)
Definition showRDSStation : M unit :=
  p ← gets stationName;
  new ← deref p;
  old ← gets bufferStatioName;
  if String.eqb old new then mret tt
  else printText 55 60 255 set_bufferStatioName new.

(** [void showRDSTime()] *)
Definition showRDSTime : M unit :=
  p ← gets rdsTime;
  new ← deref p;
  old ← gets bufferRdsTime;
  if String.eqb old new then mret tt
  else printText 150 60 32 set_bufferRdsTime new.

(** What the radio answers to the RDS getters of one [checkRDS]. *)
Record RdsReply : Type := {
  getRdsReceived : bool;
  getRdsSync : bool;
  getRdsSyncFound : bool;
  getRdsText2A : option string;
  getRdsText0A : option string;
  getRdsTime : option string
}.

(** [void checkRDS()] *)
Definition checkRDS (r : RdsReply) : M unit :=
  radio si4735.getRdsStatus;;
  when (getRdsReceived r)
    (when (getRdsSync r && getRdsSyncFound r)
       (modify (set_rdsMsg (getRdsText2A r));;
        modify (set_stationName (getRdsText0A r));;
        modify (set_rdsTime (getRdsTime r));;
        p ← gets rdsMsg;
        when (bool_decide (p ≠ None)) showRDSMsg;;
        p ← gets stationName;
        when (bool_decide (p ≠ None)) showRDSStation;;
        p ← gets rdsTime;
        when (bool_decide (p ≠ None)) showRDSTime)).

(** The two assignments [band[bandIdx].currentFreq = currentFrequency;
    band[bandIdx].currentStep = currentStep;] that open every band change. *)
Definition saveBand : M unit :=
  i ← gets bandIdx;
  b ← band_at i;
  f ← gets currentFrequency;
  st ← gets currentStep;
  modify (λ s, set_band (<[Z.to_nat i :=
    Band.mk (Band.bandName b) (Band.bandType b) (Band.minimumFreq b) (Band.maximumFreq b)
            f st]> (band s)) s).

(** [void loadSSB()] *)
Definition loadSSB : M unit :=
  radio si4735.reset;;
  radio si4735.queryLibraryId;;
  radio si4735.patchPowerUp;;
  radio si4735.setI2CFastMode;;
  radio si4735.downloadPatch;;
  radio si4735.setI2CStandardMode;;
  bw ← gets bwIdxSSB;
  radio (si4735.setSSBConfig bw 1 0 0 0 1);;
  modify (set_ssbLoaded true).

(** [void useBand()] *)
Definition useBand : M unit :=
  i ← gets bandIdx;
  b ← band_at i;
  (if Band.bandType b =? FM_BAND_TYPE then
     modify (set_currentMode FM);;
     radio (si4735.setTuneFrequencyAntennaCapacitor 0);;
     radio (si4735.setFM (Band.minimumFreq b) (Band.maximumFreq b)
                         (Band.currentFreq b) (Band.currentStep b));;
     radio (si4735.setFMDeEmphasis 1);;
     radio (si4735.setSeekFmLimits (Band.minimumFreq b) (Band.maximumFreq b));;
     modify (set_ssbLoaded false);;
     modify (set_bfoOn false);;
     radio (si4735.setRdsConfig 1 2 2 2 2)
   else
     (if (Band.bandType b =? MW_BAND_TYPE) || (Band.bandType b =? LW_BAND_TYPE) then
        radio (si4735.setTuneFrequencyAntennaCapacitor 0)
      else
        modify (set_lastSwBand i);;
        radio (si4735.setTuneFrequencyAntennaCapacitor 1));;
     loaded ← gets ssbLoaded;
     (if (loaded : bool) then
        m ← gets currentMode;
        radio (si4735.setSSB (Band.minimumFreq b) (Band.maximumFreq b)
                             (Band.currentFreq b) (Band.currentStep b) (mode_code m));;
        radio (si4735.setSSBAutomaticVolumeControl 1);;
        radio (si4735.setSsbSoftMuteMaxAttenuation 0)
      else
        modify (set_currentMode AM);;
        radio (si4735.setAM (Band.minimumFreq b) (Band.maximumFreq b)
                            (Band.currentFreq b) (Band.currentStep b));;
        radio (si4735.setAmSoftMuteMaxAttenuation 0);;
        modify (set_bfoOn false));;
     radio (si4735.setSeekAmLimits (Band.minimumFreq b) (Band.maximumFreq b));;
     radio (si4735.setSeekAmSpacing
              (if Band.currentStep b >? 10 then 10 else Band.currentStep b)));;
  d ← gets disableAgc;
  n ← gets agcNdx;
  radio (si4735.setAutomaticGainControl d n);;
  modify (set_currentFrequency (Band.currentFreq b));;
  modify (set_currentStep (Band.currentStep b));;
  showStatus.

(** [void bandUp()] *)
Definition bandUp : M unit :=
  saveBand;;
  i ← gets bandIdx;
  (if i <? lastBand then modify (set_bandIdx (i + 1)) else modify (set_bandIdx 0));;
  useBand.

(** [void bandDown()] *)
Definition bandDown : M unit :=
  saveBand;;
  i ← gets bandIdx;
  (if i >? 0 then modify (set_bandIdx (i - 1)) else modify (set_bandIdx lastBand));;
  useBand.

(** [void setup()]: [addr] is the address [getDeviceI2CAddress] found (0 when
    no radio answers, and the sketch then loops for ever), [freq] what
    [getFrequency] answers after the first [useBand]. *)
Definition setup (addr freq : Z) : M unit :=
  radio (si4735.setAudioMuteMcuPin 24);;
  radio (si4735.getDeviceI2CAddress 22);;
  (if addr =? 0 then abort NotDetected else mret tt);;
  screen tft.showTemplate;;
  radio (si4735.setRefClock 32500);;
  radio (si4735.setRefClockPrescaler 400);;
  radio (si4735.setup 22 0);;
  useBand;;
  radio si4735.getFrequency;;
  modify (set_previousFrequency (uint16 freq));;
  modify (set_currentFrequency (uint16 freq));;
  radio (si4735.setVolume 45).

(** ** One pass of [loop]

    What one pass reads from outside: which buttons answer [justPressed()],
    the level of the encoder push button, whether the RSSI period has
    elapsed, and what the radio answers to each query of the pass. *)
Record Input : Type := {
  bNextBand : bool;
  bPreviousBand : bool;
  bVolumeUp : bool;
  bVolumeDown : bool;
  bSeekUp : bool;
  bSeekDown : bool;
  bStep : bool;
  bAudioMute : bool;
  bAM : bool;
  bLSB : bool;
  bUSB : bool;
  bFM : bool;
  bMW : bool;
  bSW : bool;
  bFilter : bool;
  bAGC : bool;
  (** [digitalRead(ENCODER_PUSH_BUTTON) == LOW] *)
  pushButton : bool;
  (** [(millis() - elapsedRSSI) > MIN_ELAPSED_RSSI_TIME * 12] *)
  rssiElapsed : bool;
  (** [getFrequency()] after [frequencyUp()] or [frequencyDown()] *)
  steppedFrequency : Z;
  (** the frequencies [seekStationProgress] hands to its callback, and
      [getFrequency()] after it, for each direction *)
  seekUpProgress : list Z;
  seekUpFrequency : Z;
  seekDownProgress : list Z;
  seekDownFrequency : Z;
  (** [getCurrentRSSI()] *)
  currentRSSI : Z;
  rds : RdsReply
}.

(** [if (encoderCount != 0) { ... }].  [currentBFO] is an [int]; its width
    depends on the board and its arithmetic is left unbounded. *)
Definition on_encoder (i : Input) : M unit :=
  n ← gets encoderCount;
  when (negb (n =? 0))
    (on ← gets bfoOn;
     (if (on : bool) then
        bfo ← gets currentBFO;
        st ← gets currentBFOStep;
        modify (set_currentBFO (if n =? 1 then bfo + st else bfo - st));;
        bfo' ← gets currentBFO;
        radio (si4735.setSSBBfo bfo');;
        showBFO
      else
        (if n =? 1 then radio si4735.frequencyUp else radio si4735.frequencyDown);;
        radio si4735.getFrequency;;
        modify (set_currentFrequency (uint16 (steppedFrequency i)));;
        showFrequency);;
     modify (set_encoderCount 0)).

(** [if (bSeekUp.justPressed()) { ... }] and its twin. *)
Definition on_seek (up : bool) (progress : list Z) (final : Z) : M unit :=
  radio (si4735.seekStationProgress up);;
  each (λ f, showFrequencySeek (uint16 f)) progress;;
  radio si4735.getFrequency;;
  modify (set_currentFrequency (uint16 final));;
  showStatus.

Definition on_bAudioMute : M unit :=
  modify (λ s, set_audioMute (negb (audioMute s)) s);;
  m ← gets audioMute;
  radio (si4735.setAudioMute m).

Definition on_bAM : M unit :=
  m ← gets currentMode;
  when (negb (Mode_eqb m FM))
    (modify (set_currentMode AM);;
     modify (set_ssbLoaded false);;
     modify (set_bfoOn false);;
     saveBand;;
     useBand).

Definition on_bFM : M unit :=
  m ← gets currentMode;
  when (negb (Mode_eqb m FM))
    (saveBand;;
     modify (set_ssbLoaded false);;
     modify (set_bfoOn false);;
     modify (set_currentMode FM);;
     modify (set_bandIdx 0);;
     useBand).

Definition on_bMW : M unit :=
  saveBand;;
  modify (set_ssbLoaded false);;
  modify (set_bfoOn false);;
  modify (set_currentMode AM);;
  modify (set_bandIdx 2);;
  useBand.

Definition on_bSW : M unit :=
  saveBand;;
  modify (set_ssbLoaded false);;
  modify (set_bfoOn false);;
  modify (set_currentMode AM);;
  l ← gets lastSwBand;
  modify (set_bandIdx l);;
  useBand.

(** [if (bLSB.justPressed()) { ... }] and its twin, [side] being [LSB] or
    [USB]. *)
Definition on_bSSB (side : Mode) : M unit :=
  m ← gets currentMode;
  when (negb (Mode_eqb m FM))
    (loaded ← gets ssbLoaded;
     when (negb loaded) loadSSB;;
     modify (set_currentMode side);;
     saveBand;;
     useBand).

(** The chain of [if (agcIdx == k)] of the AGC button. *)
Definition agcLadder : M unit :=
  k ← gets agcIdx;
  if k =? 0 then
    modify (set_disableAgc 0);; modify (set_agcNdx 0);; modify (set_agcIdx 1)
  else if k =? 1 then
    modify (set_disableAgc 1);; modify (set_agcNdx 0);; modify (set_agcIdx 2)
  else if k =? 2 then
    modify (set_disableAgc 1);; modify (set_agcNdx 5);; modify (set_agcIdx 3)
  else if k =? 3 then
    modify (set_disableAgc 1);; modify (set_agcNdx 10);; modify (set_agcIdx 4)
  else if k =? 4 then
    modify (set_disableAgc 1);; modify (set_agcNdx 15);; modify (set_agcIdx 5)
  else if k =? 5 then
    modify (set_disableAgc 1);; modify (set_agcNdx 20);; modify (set_agcIdx 6)
  else if k =? 6 then
    modify (set_disableAgc 1);; modify (set_agcNdx 25);; modify (set_agcIdx 7)
  else if k =? 7 then
    modify (set_disableAgc 1);; modify (set_agcNdx 30);; modify (set_agcIdx 8)
  else if k =? 8 then
    modify (set_disableAgc 1);; modify (set_agcNdx 35);; modify (set_agcIdx 9)
  else if k =? 9 then
    modify (set_disableAgc 1);; modify (set_agcNdx 0);; modify (set_agcIdx 0)
  else mret tt.

Definition on_bAGC : M unit :=
  agcLadder;;
  d ← gets disableAgc;
  n ← gets agcNdx;
  radio (si4735.setAutomaticGainControl d n);;
  showStatus.

Definition on_bFilter : M unit :=
  m ← gets currentMode;
  (if is_ssb m then
     modify (λ s, set_bwIdxSSB (uint8 (bwIdxSSB s + 1)) s);;
     bw ← gets bwIdxSSB;
     when (bw >? 5) (modify (set_bwIdxSSB 0));;
     bw ← gets bwIdxSSB;
     radio (si4735.setSSBAudioBandwidth bw);;
     (if (bw =? 0) || (bw =? 4) || (bw =? 5) then radio (si4735.setSBBSidebandCutoffFilter 0)
      else radio (si4735.setSBBSidebandCutoffFilter 1))
   else
     when (Mode_eqb m AM)
       (modify (λ s, set_bwIdxAM (uint8 (bwIdxAM s + 1)) s);;
        bw ← gets bwIdxAM;
        when (bw >? 6) (modify (set_bwIdxAM 0));;
        bw ← gets bwIdxAM;
        radio (si4735.setBandwidth bw 1)));;
  showStatus.

Definition on_bStep : M unit :=
  m ← gets currentMode;
  if Mode_eqb m FM then
    modify (λ s, set_fmStereo (negb (fmStereo s)) s);;
    st ← gets fmStereo;
    (if (st : bool) then radio si4735.setFmStereoOn else radio si4735.setFmStereoOff)
  else
    on ← gets bfoOn;
    if on && is_ssb m then
      modify (λ s, set_currentBFOStep (if currentBFOStep s =? 25 then 10 else 25) s);;
      showBFO
    else
      step ← gets currentStep;
      i ← gets bandIdx;
      (if step =? 1 then modify (set_currentStep 5)
       else if step =? 5 then modify (set_currentStep 10)
       else if step =? 10 then modify (set_currentStep 100)
       else if (step =? 100) && (i =? lastBand) then modify (set_currentStep 500)
       else modify (set_currentStep 1));;
      step ← gets currentStep;
      radio (si4735.setFrequencyStep step);;
      b ← band_at i;
      modify (λ s, set_band (<[Z.to_nat i :=
        Band.mk (Band.bandName b) (Band.bandType b) (Band.minimumFreq b) (Band.maximumFreq b)
                (Band.currentFreq b) step]> (band s)) s);;
      radio (si4735.setSeekAmSpacing (if step >? 10 then 10 else step));;
      showStatus.

(** [if (digitalRead(ENCODER_PUSH_BUTTON) == LOW) { ... }] *)
Definition on_pushButton : M unit :=
  m ← gets currentMode;
  when (is_ssb m)
    (modify (λ s, set_bfoOn (negb (bfoOn s)) s);;
     on ← gets bfoOn;
     when on showBFO;;
     showStatus).

(** [if ((millis() - elapsedRSSI) > MIN_ELAPSED_RSSI_TIME * 12) { ... }] *)
Definition on_rssi (i : Input) : M unit :=
  radio si4735.getCurrentReceivedSignalQuality;;
  radio si4735.getCurrentRSSI;;
  old ← gets rssi;
  when (negb (old =? uint8 (currentRSSI i)))
    (modify (set_rssi (uint8 (currentRSSI i)));;
     showRSSI).

(** The first two statements of the block [if (currentFrequency !=
    previousFrequency)]: the rectangle, and the chain
    [bufferStatioName[0] = bufferRdsMsg[0] = rdsTime[0] = bufferRdsTime[0] =
    rdsMsg[0] = stationName[0] = '\0'], which stores from right to left. *)
Definition clearRDS : M unit :=
  screen (tft.fillRect 54 59 250 36);;
  p ← gets stationName; p' ← truncate p; modify (set_stationName p');;
  p ← gets rdsMsg; p' ← truncate p; modify (set_rdsMsg p');;
  modify (set_bufferRdsTime "");;
  p ← gets rdsTime; p' ← truncate p; modify (set_rdsTime p');;
  modify (set_bufferRdsMsg "");;
  modify (set_bufferStatioName "").

(** [if (currentMode == FM) { ... }], the last block of [loop]. *)
Definition on_rds (r : RdsReply) : M unit :=
  m ← gets currentMode;
  when (Mode_eqb m FM)
    (cf ← gets currentFrequency;
     pf ← gets previousFrequency;
     when (negb (cf =? pf))
       (clearRDS;;
        showRDSMsg;;
        showRDSStation;;
        cf ← gets currentFrequency;
        modify (set_previousFrequency cf));;
     checkRDS r).

(** [void loop(void)] *)
Definition loop (i : Input) : M unit :=
  on_encoder i;;
  when (bNextBand i) bandUp;;
  when (bPreviousBand i) bandDown;;
  when (bVolumeUp i) (radio si4735.volumeUp);;
  when (bVolumeDown i) (radio si4735.volumeDown);;
  when (bSeekUp i) (on_seek true (seekUpProgress i) (seekUpFrequency i));;
  when (bSeekDown i) (on_seek false (seekDownProgress i) (seekDownFrequency i));;
  when (bAudioMute i) on_bAudioMute;;
  when (bAM i) on_bAM;;
  when (bFM i) on_bFM;;
  when (bMW i) on_bMW;;
  when (bSW i) on_bSW;;
  when (bLSB i) (on_bSSB LSB);;
  when (bUSB i) (on_bSSB USB);;
  when (bAGC i) on_bAGC;;
  when (bFilter i) on_bFilter;;
  when (bStep i) on_bStep;;
  when (pushButton i) on_pushButton;;
  when (rssiElapsed i) (on_rssi i);;
  on_rds (rds i).

(** A pass in which nothing is touched and the radio has no RDS data. *)
Definition no_rds : RdsReply :=
  {| getRdsReceived := false; getRdsSync := false; getRdsSyncFound := false;
     getRdsText2A := None; getRdsText0A := None; getRdsTime := None |}.

Definition idle : Input :=
  {| bNextBand := false; bPreviousBand := false; bVolumeUp := false; bVolumeDown := false;
     bSeekUp := false; bSeekDown := false; bStep := false; bAudioMute := false;
     bAM := false; bLSB := false; bUSB := false; bFM := false; bMW := false; bSW := false;
     bFilter := false; bAGC := false; pushButton := false; rssiElapsed := false;
     steppedFrequency := 0; seekUpProgress := []; seekUpFrequency := 0;
     seekDownProgress := []; seekDownFrequency := 0; currentRSSI := 0; rds := no_rds |}.

(** The touch buttons, and the pass in which exactly one of them answers
    [justPressed()] while everything else is quiet. *)
Inductive Button : Set :=
| BNextBand | BPreviousBand | BVolumeUp | BVolumeDown | BSeekUp | BSeekDown | BStep
| BAudioMute | BAM | BLSB | BUSB | BFM | BMW | BSW | BFilter | BAGC.

#[global] Instance Button_eq_dec : EqDecision Button.
Proof. solve_decision. Defined.

Definition press (b : Button) : Input :=
  {| bNextBand := bool_decide (b = BNextBand);
     bPreviousBand := bool_decide (b = BPreviousBand);
     bVolumeUp := bool_decide (b = BVolumeUp);
     bVolumeDown := bool_decide (b = BVolumeDown);
     bSeekUp := bool_decide (b = BSeekUp);
     bSeekDown := bool_decide (b = BSeekDown);
     bStep := bool_decide (b = BStep);
     bAudioMute := bool_decide (b = BAudioMute);
     bAM := bool_decide (b = BAM);
     bLSB := bool_decide (b = BLSB);
     bUSB := bool_decide (b = BUSB);
     bFM := bool_decide (b = BFM);
     bMW := bool_decide (b = BMW);
     bSW := bool_decide (b = BSW);
     bFilter := bool_decide (b = BFilter);
     bAGC := bool_decide (b = BAGC);
     pushButton := false; rssiElapsed := false;
     steppedFrequency := 0; seekUpProgress := []; seekUpFrequency := 0;
     seekDownProgress := []; seekDownFrequency := 0; currentRSSI := 0; rds := no_rds |}.

(** The block of [loop] a button runs. *)
Definition handler (i : Input) (b : Button) : M unit :=
  match b with
  | BNextBand => bandUp
  | BPreviousBand => bandDown
  | BVolumeUp => radio si4735.volumeUp
  | BVolumeDown => radio si4735.volumeDown
  | BSeekUp => on_seek true (seekUpProgress i) (seekUpFrequency i)
  | BSeekDown => on_seek false (seekDownProgress i) (seekDownFrequency i)
  | BStep => on_bStep
  | BAudioMute => on_bAudioMute
  | BAM => on_bAM
  | BLSB => on_bSSB LSB
  | BUSB => on_bSSB USB
  | BFM => on_bFM
  | BMW => on_bMW
  | BSW => on_bSW
  | BFilter => on_bFilter
  | BAGC => on_bAGC
  end.

(** The encoder turned by one notch between two passes: the interrupt has
    stored [1] or [-1], and the radio will answer [f] to [getFrequency]. *)
Definition turned (f : Z) : Input :=
  {| bNextBand := false; bPreviousBand := false; bVolumeUp := false; bVolumeDown := false;
     bSeekUp := false; bSeekDown := false; bStep := false; bAudioMute := false;
     bAM := false; bLSB := false; bUSB := false; bFM := false; bMW := false; bSW := false;
     bFilter := false; bAGC := false; pushButton := false; rssiElapsed := false;
     steppedFrequency := f; seekUpProgress := []; seekUpFrequency := 0;
     seekDownProgress := []; seekDownFrequency := 0; currentRSSI := 0; rds := no_rds |}.

(** The encoder push button held down during one pass. *)
Definition pushed : Input :=
  {| bNextBand := false; bPreviousBand := false; bVolumeUp := false; bVolumeDown := false;
     bSeekUp := false; bSeekDown := false; bStep := false; bAudioMute := false;
     bAM := false; bLSB := false; bUSB := false; bFM := false; bMW := false; bSW := false;
     bFilter := false; bAGC := false; pushButton := true; rssiElapsed := false;
     steppedFrequency := 0; seekUpProgress := []; seekUpFrequency := 0;
     seekDownProgress := []; seekDownFrequency := 0; currentRSSI := 0; rds := no_rds |}.

(** What happens between power-on and now: [setup], then passes of [loop]
    with the encoder interrupt in between. *)
Inductive Step : Type :=
| Pass (i : Input)
| Interrupt (DIR_CW status : Z).

Definition step (x : Step) : M unit :=
  match x with
  | Pass i => loop i
  | Interrupt d status => modify (rotaryEncoder d status)
  end.

Definition play (l : list Step) : M unit := each step l.

(** [m] run [n] times. *)
Definition times (n : nat) (m : M unit) : M unit := each (λ _ : unit, m) (replicate n tt).

(** From power-on to LSB on the last short-wave band, BFO adjustment on. *)
Definition ssb_session : list Step := [Pass (press BSW); Pass (press BLSB); Pass pushed].

Inductive history : list Event → State → Prop :=
| history_setup addr freq s t :
    setup addr freq power_on = Ok tt s t → history t s
| history_step x s t s' t' :
    history t s → step x s = Ok tt s' t' → history (t ++ t') s'.

Definition reachable (s : State) : Prop := ∃ t, history t s.

(** ** Vocabulary of the properties *)

(** The band entry once the current tuning is written back to it. *)
Definition persisted (b : Band.t) (s : State) : Band.t :=
  Band.mk (Band.bandName b) (Band.bandType b) (Band.minimumFreq b) (Band.maximumFreq b)
          (currentFrequency s) (currentStep s).

(** The globals after [saveBand] when [b] is the entry [band[bandIdx]]. *)
Definition saved (b : Band.t) (s : State) : State :=
  set_band (<[Z.to_nat (bandIdx s) := persisted b s]> (band s)) s.

(** The globals after [useBand] when [b] is the entry [band[bandIdx]]. *)
Definition tuned (b : Band.t) (s : State) : State :=
  set_currentStep (Band.currentStep b) (set_currentFrequency (Band.currentFreq b)
    (if Band.bandType b =? FM_BAND_TYPE then
       set_bfoOn false (set_ssbLoaded false (set_currentMode FM s))
     else
       let s1 := if (Band.bandType b =? MW_BAND_TYPE) || (Band.bandType b =? LW_BAND_TYPE)
                 then s else set_lastSwBand (bandIdx s) s in
       if ssbLoaded s then s1 else set_bfoOn false (set_currentMode AM s1))).

(** What [showStatus] and [useBand] log. *)
Definition showStatus_log (s : State) : list Event :=
  [Radio si4735.getStatus; Radio si4735.getCurrentReceivedSignalQuality;
   Radio si4735.getFrequency; Screen tft.showFrequency;
   Screen (tft.fillRect 155 2 83 36); Screen (tft.fillRect 0 60 250 36);
   Radio si4735.getAutomaticGainControl; Screen tft.showStatus]
  ++ (if is_ssb (currentMode s) then [Screen tft.showBFO] else []).

Definition useBand_log (b : Band.t) (s : State) : list Event :=
  (if Band.bandType b =? FM_BAND_TYPE then
     [Radio (si4735.setTuneFrequencyAntennaCapacitor 0);
      Radio (si4735.setFM (Band.minimumFreq b) (Band.maximumFreq b)
                          (Band.currentFreq b) (Band.currentStep b));
      Radio (si4735.setFMDeEmphasis 1);
      Radio (si4735.setSeekFmLimits (Band.minimumFreq b) (Band.maximumFreq b));
      Radio (si4735.setRdsConfig 1 2 2 2 2)]
   else
     [Radio (si4735.setTuneFrequencyAntennaCapacitor
        (if (Band.bandType b =? MW_BAND_TYPE) || (Band.bandType b =? LW_BAND_TYPE)
         then 0 else 1))]
     ++ (if ssbLoaded s then
           [Radio (si4735.setSSB (Band.minimumFreq b) (Band.maximumFreq b)
                     (Band.currentFreq b) (Band.currentStep b) (mode_code (currentMode s)));
            Radio (si4735.setSSBAutomaticVolumeControl 1);
            Radio (si4735.setSsbSoftMuteMaxAttenuation 0)]
         else
           [Radio (si4735.setAM (Band.minimumFreq b) (Band.maximumFreq b)
                     (Band.currentFreq b) (Band.currentStep b));
            Radio (si4735.setAmSoftMuteMaxAttenuation 0)])
     ++ [Radio (si4735.setSeekAmLimits (Band.minimumFreq b) (Band.maximumFreq b));
         Radio (si4735.setSeekAmSpacing
                  (if Band.currentStep b >? 10 then 10 else Band.currentStep b))])
  ++ [Radio (si4735.setAutomaticGainControl (disableAgc s) (agcNdx s))]
  ++ showStatus_log (tuned b s).

(** What [loadSSB] logs: the seven steps of the patch loader. *)
Definition patch_log (bw : Z) : list Event :=
  [Radio si4735.reset; Radio si4735.queryLibraryId; Radio si4735.patchPowerUp;
   Radio si4735.setI2CFastMode; Radio si4735.downloadPatch; Radio si4735.setI2CStandardMode;
   Radio (si4735.setSSBConfig bw 1 0 0 0 1)].

(** The index [bandUp] and [bandDown] move to. *)
Definition next_band (i : Z) : Z := if i <? lastBand then i + 1 else 0.
Definition previous_band (i : Z) : Z := if i >? 0 then i - 1 else lastBand.

(** The columns of the band table that no assignment of the sketch touches. *)
Definition layout (b : Band.t) : string * Z * Z * Z :=
  (Band.bandName b, Band.bandType b, Band.minimumFreq b, Band.maximumFreq b).

Definition layout_ok (l : list Band.t) : Prop := layout <$> l = layout <$> band_init.

(** The band type found at each index of the table. *)
Definition type_at (i : Z) : Z :=
  if i =? 0 then FM_BAND_TYPE
  else if i =? 1 then LW_BAND_TYPE
  else if i =? 2 then MW_BAND_TYPE
  else SW_BAND_TYPE.

(** The invariant of the globals between two blocks of [loop]. *)
Record Inv (s : State) : Prop := {
  inv_layout : layout_ok (band s);
  inv_bandIdx : 0 ≤ bandIdx s ≤ lastBand;
  inv_lastSw : 3 ≤ lastSwBand s ≤ lastBand;
  inv_fm : currentMode s = FM ↔ bandIdx s = 0;
  inv_ssb : ssbLoaded s = is_ssb (currentMode s);
  inv_bfo : bfoOn s = true → is_ssb (currentMode s) = true;
  inv_sw : 3 ≤ bandIdx s → lastSwBand s = bandIdx s
}.

(** The part of the globals the invariant reads. *)
Definition core (s : State) :=
  (layout <$> band s, bandIdx s, lastSwBand s, currentMode s, ssbLoaded s, bfoOn s).

(** *** Relations a computation obeys

    [obeys R m]: whenever [m] returns, [R] relates the globals before, the
    calls logged and the globals after.  The relations used below hold of
    doing nothing and compose along a sequence. *)
Definition obeys {A : Type} (R : State → list Event → State → Prop) (m : M A) : Prop :=
  ∀ s a s' t, m s = Ok a s' t → R s t s'.

Class Closed (R : State → list Event → State → Prop) : Prop := {
  closed_nil : ∀ s, R s [] s;
  closed_app : ∀ s t1 s1 t2 s2, R s t1 s1 → R s1 t2 s2 → R s (t1 ++ t2) s2
}.

(** The view [π] of the globals is left alone and every call satisfies [E]. *)
Definition frames {X : Type} (π : State → X) (E : Event → Prop) : State → list Event → State → Prop :=
  λ s t s', π s' = π s ∧ Forall E t.

Definition any_event (e : Event) : Prop := True.

(** The invariant is kept. *)
Definition keeps_Inv : State → list Event → State → Prop :=
  λ s _ s', Inv s → Inv s'.

(** [t] contains a complete run of the patch loader. *)
Definition has_patch (t : list Event) : Prop := ∃ t1 bw t2, t = t1 ++ patch_log bw ++ t2.

(** [ssbLoaded] is not set unless the patch loader ran. *)
Definition loads_by_patch : State → list Event → State → Prop :=
  λ s t s', ssbLoaded s' = true → ssbLoaded s = true ∨ has_patch t.

(** The globals just before [useBand] in each band change. *)
Definition moved (i : Z) (b : Band.t) (s : State) : State := set_bandIdx i (saved b s).

Definition moved_AM (i : Z) (b : Band.t) (s : State) : State :=
  set_bandIdx i (set_currentMode AM (set_bfoOn false (set_ssbLoaded false (saved b s)))).

Definition moved_FM (b : Band.t) (s : State) : State :=
  set_bandIdx 0 (set_currentMode FM (set_bfoOn false (set_ssbLoaded false (saved b s)))).

(** The step button outside FM and outside BFO adjustment. *)
Definition step_after (s : State) : Z :=
  if currentStep s =? 1 then 5
  else if currentStep s =? 5 then 10
  else if currentStep s =? 10 then 100
  else if (currentStep s =? 100) && (bandIdx s =? lastBand) then 500
  else 1.

Definition stepped (b : Band.t) (s : State) : State :=
  set_band (<[Z.to_nat (bandIdx s) :=
      Band.mk (Band.bandName b) (Band.bandType b) (Band.minimumFreq b) (Band.maximumFreq b)
              (Band.currentFreq b) (step_after s)]> (band s))
    (set_currentStep (step_after s) s).

(** *** Band selection *)

Inductive Selection : Set := BandUp | BandDown | ToFM | ToMW | ToSW.

Definition select (c : Selection) : M unit :=
  match c with
  | BandUp => bandUp
  | BandDown => bandDown
  | ToFM => on_bFM
  | ToMW => on_bMW
  | ToSW => on_bSW
  end.

(** The band a selection lands on. *)
Definition target (c : Selection) (s : State) : Z :=
  match c with
  | BandUp => next_band (bandIdx s)
  | BandDown => previous_band (bandIdx s)
  | ToFM => 0
  | ToMW => 2
  | ToSW => lastSwBand s
  end.

(** The frequency and step each band would resume with: the persisted pair,
    except for the active band, whose pair is the current tuning. *)
Definition tuning_table (s : State) : list (Z * Z) :=
  <[Z.to_nat (bandIdx s) := (currentFrequency s, currentStep s)]>
    ((λ b, (Band.currentFreq b, Band.currentStep b)) <$> band s).

(** [s'] is [s] after its tuning was written back and the tuning of the
    band now active was loaded. *)
Definition reselected (s s' : State) : Prop :=
  ∃ b b', band_get (band s) (bandIdx s) = Some b
    ∧ band s' = <[Z.to_nat (bandIdx s) := persisted b s]> (band s)
    ∧ band_get (band s') (bandIdx s') = Some b'
    ∧ currentFrequency s' = Band.currentFreq b'
    ∧ currentStep s' = Band.currentStep b'.

Definition in_range (b : Band.t) (f : Z) : Prop :=
  Band.minimumFreq b ≤ f ≤ Band.maximumFreq b.

(** Every persisted frequency, and the current one, lies in its band. *)
Definition all_in_range (s : State) : Prop :=
  ∀ i b, band_get (band s) i = Some b →
    in_range b (if i =? bandIdx s then currentFrequency s else Band.currentFreq b).

(** The current tuning is the persisted one. *)
Definition in_sync (s : State) : Prop :=
  ∃ b, band_get (band s) (bandIdx s) = Some b
    ∧ Band.currentFreq b = currentFrequency s ∧ Band.currentStep b = currentStep s.

(** On LW with step 100, three notches up answered with 400, 500 and 600,
    then band up and band down. *)
Definition out_of_band_run : list Step :=
  [Pass (press BNextBand); Pass (press BStep); Pass (press BStep); Pass (press BStep);
   Interrupt 16 16; Pass (turned 400); Interrupt 16 16; Pass (turned 500);
   Interrupt 16 16; Pass (turned 600); Pass (press BNextBand); Pass (press BPreviousBand)].

(** Band up three times, band down three times. *)
Definition up3_down3 : list Step :=
  replicate 3 (Pass (press BNextBand)) ++ replicate 3 (Pass (press BPreviousBand)).

(** *** The patch loader *)

(** The calls that tune in SSB or move the BFO. *)
Definition ssb_command (e : Event) : Prop :=
  match e with
  | Radio (si4735.setSSB _ _ _ _ _) | Radio (si4735.setSSBBfo _)
  | Radio (si4735.setSSBAutomaticVolumeControl _)
  | Radio (si4735.setSsbSoftMuteMaxAttenuation _)
  | Radio (si4735.setSSBAudioBandwidth _) | Radio (si4735.setSBBSidebandCutoffFilter _) => True
  | _ => False
  end.

(** The calls of the patch loader. *)
Definition patch_command (e : Event) : Prop :=
  match e with
  | Radio si4735.reset | Radio si4735.queryLibraryId | Radio si4735.patchPowerUp
  | Radio si4735.setI2CFastMode | Radio si4735.downloadPatch
  | Radio si4735.setI2CStandardMode | Radio (si4735.setSSBConfig _ _ _ _ _ _) => True
  | _ => False
  end.

(** *** The AGC ladder *)

(** The pair [(disableAgc, agcNdx)] the branch [agcIdx == k] assigns. *)
Definition agc_branch : list (Z * Z) :=
  [(0, 0); (1, 0); (1, 5); (1, 10); (1, 15); (1, 20); (1, 25); (1, 30); (1, 35); (1, 0)].

(** The three AGC globals. *)
Definition agc_view (s : State) : Z * Z * Z := (agcIdx s, disableAgc s, agcNdx s).

(** The AGC globals after one press of the AGC button. *)
Definition agc_pressed (s : State) : State :=
  match agc_branch !! Z.to_nat (agcIdx s) with
  | Some (d, n) => set_agcIdx ((agcIdx s + 1) mod 10) (set_agcNdx n (set_disableAgc d s))
  | None => s
  end.

(** The pair in force is the one at power-on or the one the branch before
    [agcIdx] assigned. *)
Definition agc_ok (s : State) : Prop :=
  0 ≤ agcIdx s ≤ 9
  ∧ (agc_view s = (0, 0, 0)
     ∨ agc_branch !! Z.to_nat ((agcIdx s + 9) mod 10) = Some (disableAgc s, agcNdx s)).

Definition keeps_agc : State → list Event → State → Prop :=
  λ s _ s', agc_ok s → agc_ok s'.

(** The ladder as the specification lists it: rung 0, then rungs 1 to 9. *)
Definition claimed_ladder : list (Z * Z) :=
  [(0, 0); (1, 0); (1, 0); (1, 5); (1, 10); (1, 15); (1, 20); (1, 25); (1, 30); (1, 35)].

Definition agc_presses (n : nat) : list Step := replicate n (Pass (press BAGC)).

(** *** RDS on the screen *)

(** The three RDS texts last written to the screen, as the three buffers
    remember them. *)
Record Shown : Type := mkShown {
  shownStation : string;
  shownMsg : string;
  shownTime : string
}.

Definition caches (s : State) : Shown :=
  {| shownStation := bufferStatioName s; shownMsg := bufferRdsMsg s;
     shownTime := bufferRdsTime s |}.

Definition nothing_shown : Shown := {| shownStation := ""; shownMsg := ""; shownTime := "" |}.

(** The three buffers followed along the log: the rectangle of the RDS
    block, the one at (54, 59), goes with the emptying of the three buffers;
    a [printText] at one of the three RDS positions replaces one of them, and
    is refused ([None]) when it rewrites the text the buffer holds.  Every
    other call leaves the buffers alone, the rectangles of [showStatus]
    among them, although the second one blanks the same part of the screen. *)
Definition replay (c : Shown) (e : Event) : option Shown :=
  match e with
  | Screen (tft.fillRect x y w h) =>
      if (x =? 54) && (y =? 59) && (w =? 250) && (h =? 36) then Some nothing_shown
      else Some c
  | Screen (tft.printText col line v) =>
      if (col =? 55) && (line =? 85) then
        if String.eqb (shownMsg c) v then None
        else Some {| shownStation := shownStation c; shownMsg := v; shownTime := shownTime c |}
      else if (col =? 55) && (line =? 60) then
        if String.eqb (shownStation c) v then None
        else Some {| shownStation := v; shownMsg := shownMsg c; shownTime := shownTime c |}
      else if (col =? 150) && (line =? 60) then
        if String.eqb (shownTime c) v then None
        else Some {| shownStation := shownStation c; shownMsg := shownMsg c; shownTime := v |}
      else Some c
  | _ => Some c
  end.

Fixpoint replay_all (c : Shown) (t : list Event) : option Shown :=
  match t with
  | [] => Some c
  | e :: t' => match replay c e with
               | Some c' => replay_all c' t'
               | None => None
               end
  end.

(** No text is rewritten over itself, and the buffers end as the screen. *)
Definition rds_disciplined : State → list Event → State → Prop :=
  λ s t s', replay_all (caches s) t = Some (caches s').

(** The texts the radio hands over fit the buffers of the sketch. *)
Definition fits (r : RdsReply) : Prop :=
  (∀ v, getRdsText2A r = Some v → (String.length v < 255)%nat)
  ∧ (∀ v, getRdsText0A r = Some v → (String.length v < 255)%nat)
  ∧ (∀ v, getRdsTime r = Some v → (String.length v < 32)%nat).

(** A pass in which the radio delivers a station name, a text and a time. *)
Definition rds_received : Input :=
  {| bNextBand := false; bPreviousBand := false; bVolumeUp := false; bVolumeDown := false;
     bSeekUp := false; bSeekDown := false; bStep := false; bAudioMute := false;
     bAM := false; bLSB := false; bUSB := false; bFM := false; bMW := false; bSW := false;
     bFilter := false; bAGC := false; pushButton := false; rssiElapsed := false;
     steppedFrequency := 0; seekUpProgress := []; seekUpFrequency := 0;
     seekDownProgress := []; seekDownFrequency := 0; currentRSSI := 0;
     rds := {| getRdsReceived := true; getRdsSync := true; getRdsSyncFound := true;
               getRdsText2A := Some "NOW PLAYING"; getRdsText0A := Some "RADIO 1";
               getRdsTime := Some "12:00" |} |}.

(** A pass in which seek-up is pressed and the radio reports 10400, then
    10450, and stops there. *)
Definition seek_up_pass : Input :=
  {| bNextBand := false; bPreviousBand := false; bVolumeUp := false; bVolumeDown := false;
     bSeekUp := true; bSeekDown := false; bStep := false; bAudioMute := false;
     bAM := false; bLSB := false; bUSB := false; bFM := false; bMW := false; bSW := false;
     bFilter := false; bAGC := false; pushButton := false; rssiElapsed := false;
     steppedFrequency := 0; seekUpProgress := [10400; 10450]; seekUpFrequency := 10450;
     seekDownProgress := []; seekDownFrequency := 0; currentRSSI := 0; rds := no_rds |}.

(** The rectangle that wipes the RDS area. *)
Definition rds_wipe : Event := Screen (tft.fillRect 54 59 250 36).

(** What the three show functions leave alone. *)
Definition rds_pointers (s : State) := (rdsMsg s, stationName s, rdsTime s).

(** The globals after the block [if (currentFrequency != previousFrequency)]
    when the three pointers are not null. *)
Definition cleared (s : State) : State :=
  set_previousFrequency (currentFrequency s)
    (set_bufferStatioName "" (set_bufferRdsMsg "" (set_rdsTime (Some "")
       (set_bufferRdsTime "" (set_rdsMsg (Some "") (set_stationName (Some "") s)))))).

(** ** Tactics *)

Create HintDb sketch_inv.

Ltac unfold_blocks :=
  unfold loop, on_rds, on_rssi, on_pushButton, on_bStep, on_bFilter, on_bAGC,
    agcLadder, on_bSSB, on_bSW, on_bMW, on_bFM, on_bAM, on_bAudioMute, on_seek, on_encoder,
    setup, bandDown, bandUp, useBand, saveBand, checkRDS, showRSSI, showStatus, showBFO,
    showFrequencySeek, showFrequency.

Ltac unfold_sketch :=
  unfold_blocks;
  unfold clearRDS, loadSSB, showRDSTime, showRDSStation, showRDSMsg, printText,
    truncate, deref, band_at.

Ltac unfold_monad :=
  unfold when, radio, screen, abort, emit, modify, gets, mbind, M_bind, mret, M_ret.

Ltac exec := unfold_sketch; unfold_monad; simpl.

Ltac inv_field :=
  simpl in *; try done; try lia; try congruence;
  try (split; intros; simpl in *; first [done | lia | congruence]);
  try (intros; simpl in *; first [done | lia | congruence]);
  try (destruct (currentMode _) eqn:?; simpl in *;
       first [done | lia | congruence | split; intros; first [done | lia | congruence]]).

(** ** More of the sketch: the tables of the status line, and further views *)

(** [const char *bandwidthSSB[]] and [const char *bandwidthAM[]], the texts
    [showStatus] prints for [bwIdxSSB] and [bwIdxAM]. *)
Definition bandwidthSSB : list string := ["1.2"; "2.2"; "3.0"; "4.0"; "0.5"; "1.0"].
Definition bandwidthAM : list string := ["6"; "4"; "3"; "2"; "1"; "1.8"; "2.5"].

(** [table[i]] for one of these arrays: a read outside the array is
    undefined. *)
Definition text_at (table : list string) (i : Z) : option string :=
  if i <? 0 then None else table !! Z.to_nat i.

(** The text [showStatus] formats with [sprintf(buffer, "BW:%s kHz", ...)]
    and copies to [char bufferBW[15]]: from [bandwidthSSB[bwIdxSSB]] in LSB
    and USB, from [bandwidthAM[bwIdxAM]] in AM; FM has no bandwidth line. *)
Definition bandwidthLine : M (option string) :=
  m ← gets currentMode;
  if is_ssb m then
    i ← gets bwIdxSSB;
    match text_at bandwidthSSB i with
    | Some bw =>
        let line := "BW:" +:+ bw +:+ " kHz" in
        if (String.length line <? 15)%nat then mret (Some line) else abort BufferOverflow
    | None => abort OutOfBounds
    end
  else if Mode_eqb m AM then
    i ← gets bwIdxAM;
    match text_at bandwidthAM i with
    | Some bw =>
        let line := "BW:" +:+ bw +:+ " kHz" in
        if (String.length line <? 15)%nat then mret (Some line) else abort BufferOverflow
    | None => abort OutOfBounds
    end
  else mret None.

(** The two bandwidth indexes. *)
Definition bw_view (s : State) : Z * Z := (bwIdxSSB s, bwIdxAM s).

Definition bw_ok (s : State) : Prop := 0 ≤ bwIdxSSB s ≤ 5 ∧ 0 ≤ bwIdxAM s ≤ 6.

(** [idx++; if (idx > top) idx = 0;] on a [uint8_t]. *)
Definition next_index (top idx : Z) : Z :=
  if uint8 (idx + 1) >? top then 0 else uint8 (idx + 1).

(** The globals after the filter button. *)
Definition filtered (s : State) : State :=
  if is_ssb (currentMode s) then set_bwIdxSSB (next_index 5 (bwIdxSSB s)) s
  else if Mode_eqb (currentMode s) AM then set_bwIdxAM (next_index 6 (bwIdxAM s)) s
  else s.

(** What the filter button sends before it redraws the status. *)
Definition filter_log (s : State) : list Event :=
  if is_ssb (currentMode s) then
    let bw := next_index 5 (bwIdxSSB s) in
    [Radio (si4735.setSSBAudioBandwidth bw);
     Radio (si4735.setSBBSidebandCutoffFilter
              (if (bw =? 0) || (bw =? 4) || (bw =? 5) then 0 else 1))]
  else if Mode_eqb (currentMode s) AM then
    [Radio (si4735.setBandwidth (next_index 6 (bwIdxAM s)) 1)]
  else [].

(** An invariant [J] kept together with [Inv]. *)
Definition keeps_with (J : State → Prop) : State → list Event → State → Prop :=
  λ s _ s', Inv s → J s → Inv s' ∧ J s'.

(** From LSB on a short-wave band, the filter button. *)
Definition filter_session : list Step := [Pass (press BSW); Pass (press BLSB)].

(** *** After [setup] *)

(** The entry [band[0]] at power-on. *)
Definition fm_entry : Band.t := Band.mk "FM  " FM_BAND_TYPE 8400 10800 10390 10.

(** The globals [setup] leaves when the radio answers [freq] to
    [getFrequency]. *)
Definition after_setup (freq : Z) : State :=
  set_currentFrequency (uint16 freq) (set_previousFrequency (uint16 freq)
    (tuned fm_entry power_on)).

(** What [setup] logs when a radio is found. *)
Definition setup_log : list Event :=
  [Radio (si4735.setAudioMuteMcuPin 24); Radio (si4735.getDeviceI2CAddress 22);
   Screen tft.showTemplate;
   Radio (si4735.setRefClock 32500); Radio (si4735.setRefClockPrescaler 400);
   Radio (si4735.setup 22 0);
   Radio (si4735.setTuneFrequencyAntennaCapacitor 0);
   Radio (si4735.setFM 8400 10800 10390 10);
   Radio (si4735.setFMDeEmphasis 1);
   Radio (si4735.setSeekFmLimits 8400 10800);
   Radio (si4735.setRdsConfig 1 2 2 2 2);
   Radio (si4735.setAutomaticGainControl 0 0);
   Radio si4735.getStatus; Radio si4735.getCurrentReceivedSignalQuality;
   Radio si4735.getFrequency; Screen tft.showFrequency;
   Screen (tft.fillRect 155 2 83 36); Screen (tft.fillRect 0 60 250 36);
   Radio si4735.getAutomaticGainControl; Screen tft.showStatus;
   Radio si4735.getFrequency; Radio (si4735.setVolume 45)].

(** *** The tuning step *)

(** The steps the step button goes through. *)
Definition step_values : list Z := [1; 5; 10; 100; 500].

(** A step that may belong to the band at index [i]: 500 is for the last
    entry only, and the FM entry keeps its 10. *)
Definition step_of (i st : Z) : Prop :=
  st ∈ step_values ∧ (st = 500 → i = lastBand) ∧ (i = 0 → st = 10).

Definition step_ok (s : State) : Prop :=
  step_of (bandIdx s) (currentStep s)
  ∧ ∀ i b, band_get (band s) i = Some b → step_of i (Band.currentStep b).

(** What the step invariant reads. *)
Definition step_view (s : State) := (band s, bandIdx s, currentStep s).

(** To the last entry of the band table, then the step button four times. *)
Definition all_hf_steps : list Step :=
  [Pass (press BPreviousBand); Pass (press BStep); Pass (press BStep); Pass (press BStep);
   Pass (press BStep)].

(** *** The encoder *)

(** The calls that move the tuning or the BFO by one notch. *)
Definition is_notch (e : Event) : bool :=
  match e with
  | Radio si4735.frequencyUp | Radio si4735.frequencyDown | Radio (si4735.setSSBBfo _) => true
  | _ => false
  end.

Definition notches (t : list Event) : nat := length (List.filter is_notch t).

(** With no movement pending, none is acted on and none is left pending. *)
Definition quiet : State → list Event → State → Prop :=
  λ s t s', encoderCount s = 0 → encoderCount s' = 0 ∧ notches t = 0%nat.

(** The globals after the encoder block with the BFO adjustment on. *)
Definition bfo_moved (s : State) : State :=
  set_encoderCount 0
    (set_currentBFO (if encoderCount s =? 1 then currentBFO s + currentBFOStep s
                     else currentBFO s - currentBFOStep s) s).

Definition bfo_step_ok (s : State) : Prop := currentBFOStep s = 10 ∨ currentBFOStep s = 25.

(** *** The patch as the log tells it *)

(** [ssb_command], decided. *)
Definition is_ssb_command (e : Event) : bool :=
  match e with
  | Radio (si4735.setSSB _ _ _ _ _) | Radio (si4735.setSSBBfo _)
  | Radio (si4735.setSSBAutomaticVolumeControl _)
  | Radio (si4735.setSsbSoftMuteMaxAttenuation _)
  | Radio (si4735.setSSBAudioBandwidth _) | Radio (si4735.setSBBSidebandCutoffFilter _) => true
  | _ => false
  end.

(** [e] is the call number [k] (from 0) of the patch loader. *)
Definition nth_loader_call (k : nat) (e : Event) : bool :=
  match k, e with
  | 0%nat, Radio si4735.reset | 1%nat, Radio si4735.queryLibraryId
  | 2%nat, Radio si4735.patchPowerUp | 3%nat, Radio si4735.setI2CFastMode
  | 4%nat, Radio si4735.downloadPatch | 5%nat, Radio si4735.setI2CStandardMode => true
  | 6%nat, Radio (si4735.setSSBConfig _ sbcutflt avc_divider avcen smutesel dsp_afcdis) =>
      (sbcutflt =? 1) && (avc_divider =? 0) && (avcen =? 0) && (smutesel =? 0)
      && (dsp_afcdis =? 1)
  | _, _ => false
  end.

(** The calls after which the radio runs without the patch, or loads it
    anew: a change to FM or AM, the power-up of [setup], and every call of
    the patch loader. *)
Definition drops_patch (e : Event) : bool :=
  match e with
  | Radio (si4735.setFM _ _ _ _) | Radio (si4735.setAM _ _ _ _) | Radio (si4735.setup _ _)
  | Radio si4735.reset | Radio si4735.queryLibraryId | Radio si4735.patchPowerUp
  | Radio si4735.setI2CFastMode | Radio si4735.downloadPatch
  | Radio si4735.setI2CStandardMode | Radio (si4735.setSSBConfig _ _ _ _ _ _) => true
  | _ => false
  end.

(** Reading a log with a counter: [k] of the seven calls of the patch
    loader have just been logged in a row, and at 7 the patch is in place
    until a call that drops it.  An SSB command is refused ([None]) unless
    the counter is at 7. *)
Definition patch_step (k : nat) (e : Event) : option nat :=
  if is_ssb_command e then (if (k =? 7)%nat then Some k else None)
  else Some (if nth_loader_call 0 e then 1%nat
             else if (k <? 7)%nat then (if nth_loader_call k e then S k else 0%nat)
             else if drops_patch e then 0%nat else k).

Fixpoint patch_replay (k : nat) (t : list Event) : option nat :=
  match t with
  | [] => Some k
  | e :: t' => match patch_step k e with
               | Some k' => patch_replay k' t'
               | None => None
               end
  end.

(** The log is accepted from every counter that agrees with [ssbLoaded],
    and ends on one that does. *)
Definition patched : State → list Event → State → Prop :=
  λ s t s', ∀ k, (ssbLoaded s = true → k = 7%nat) →
    ∃ k', patch_replay k t = Some k' ∧ (ssbLoaded s' = true → k' = 7%nat).

Definition safe_ssb : State → list Event → State → Prop :=
  λ s t s', Inv s → Inv s' ∧ patched s t s'.

(** [t] holds a complete run of the patch loader, and no call after it
    drops the patch. *)
Definition loaded_by (t : list Event) : Prop :=
  ∃ a bw b, t = a ++ patch_log bw ++ b ∧ Forall (λ e, drops_patch e = false) b.

(** What the counter says of the log read so far. *)
Definition stage_inv (k : nat) (t : list Event) : Prop :=
  (k ≤ 7)%nat
  ∧ ((k = 7)%nat → loaded_by t)
  ∧ ((0 < k < 7)%nat → ∃ a, t = a ++ take k (patch_log 0)).

(** *** What the radio was last told *)

(** The settings the sketch both keeps in a global and sends to the radio:
    mute, the AGC pair, stereo. *)
Record Told : Type := mkTold {
  told_mute : bool;
  told_agc : Z * Z;
  told_stereo : bool
}.

Definition settings (s : State) : Told :=
  {| told_mute := audioMute s; told_agc := (disableAgc s, agcNdx s);
     told_stereo := fmStereo s |}.

(** The settings as the radio has them after one more call. *)
Definition hear (v : Told) (e : Event) : Told :=
  match e with
  | Radio (si4735.setAudioMute m) =>
      {| told_mute := m; told_agc := told_agc v; told_stereo := told_stereo v |}
  | Radio (si4735.setAutomaticGainControl d n) =>
      {| told_mute := told_mute v; told_agc := (d, n); told_stereo := told_stereo v |}
  | Radio si4735.setFmStereoOn =>
      {| told_mute := told_mute v; told_agc := told_agc v; told_stereo := true |}
  | Radio si4735.setFmStereoOff =>
      {| told_mute := told_mute v; told_agc := told_agc v; told_stereo := false |}
  | _ => v
  end.

Definition told (v : Told) (t : list Event) : Told := foldl hear v t.

(** The calls logged take the settings the radio had to the ones the
    globals now hold. *)
Definition mirrored : State → list Event → State → Prop :=
  λ s t s', ∀ v, v = settings s → told v t = settings s'.

(** A call that changes none of these settings. *)
Definition silent (e : Event) : Prop := ∀ v, hear v e = v.

(** Mute, three presses of the AGC button, stereo off, then to LSB on a
    short-wave band. *)
Definition settings_session : list Step :=
  [Pass (press BAudioMute); Pass (press BAGC); Pass (press BAGC); Pass (press BAGC);
   Pass (press BStep); Pass (press BSW); Pass (press BLSB)].

(** *** Passes that come to their end *)




(** ** The drawing code

    [printText] and [showFrequencyValue] redraw a text in place: they walk
    the text now on the screen and the new one together and touch only the
    characters that differ.  Here they are functions from the two texts to
    the calls made on the display.  A C string is the [string] of its
    characters before the NUL; the column [c] is an [int] and is left
    unbounded, the properties below assume that the columns fit 16 bits. *)
Module gfx.
Inductive call : Set :=
| setCursor (x y : Z)
| setTextColor (c : Z)
| setTextSize (s : Z)
| print (ch : ascii)
| drawChar (x y : Z) (ch : ascii) (color bg size : Z).
End gfx.

(** [#define BLACK 0x0000] *)
Definition BLACK : Z := 0.

Module Draw.

(** The first loop of [printText], [while] both [*pOld] and [*pNew] are characters: the calls it
    makes, and where [c], [pOld] and [pNew] stand when it ends. *)
Fixpoint changed (c line color space : Z) (pOld pNew : string) :
    list gfx.call * (Z * string * string) :=
  match pOld, pNew with
  | String o pOld', String n pNew' =>
      let '(calls, rest) := changed (c + space) line color space pOld' pNew' in
      ((if Ascii.eqb o n then []
        else [gfx.setTextColor BLACK; gfx.setCursor c line; gfx.print o;
              gfx.setTextColor color; gfx.setCursor c line; gfx.print n]) ++ calls, rest)
  | _, _ => ([], (c, pOld, pNew))
  end.

(** The second loop, [while] there is a character at [pOld], and the column it ends on. *)
Fixpoint erased (c line space : Z) (pOld : string) : list gfx.call * Z :=
  match pOld with
  | String o pOld' =>
      let '(calls, c') := erased (c + space) line space pOld' in
      (gfx.setCursor c line :: gfx.print o :: calls, c')
  | EmptyString => ([], c)
  end.

(** The third loop, [while] there is a character at [pNew]. *)
Fixpoint printed (c line space : Z) (pNew : string) : list gfx.call :=
  match pNew with
  | String n pNew' => gfx.setCursor c line :: gfx.print n :: printed (c + space) line space pNew'
  | EmptyString => []
  end.

(** [void printText(int col, int line, int sizeText, char *oldValue,
    char *newValue, uint16_t color, uint8_t space)]: the calls, and the text
    its last statement [strcpy(oldValue, newValue)] leaves in [oldValue];
    [size] is the size of the array behind [oldValue], and the copy of a text
    that does not fit is undefined behaviour ([None]). *)
Definition printText (col line sizeText : Z) (oldValue newValue : string) (color space : Z)
    (size : nat) : option (list gfx.call * string) :=
  let '(calls1, (c1, pOld, pNew)) := changed col line color space oldValue newValue in
  let '(calls2, c2) := erased c1 line space pOld in
  if (String.length newValue <? size)%nat then
    Some ([gfx.setTextSize sizeText] ++ calls1
          ++ [gfx.setTextColor BLACK] ++ calls2
          ++ [gfx.setTextColor color] ++ printed c2 line space pNew,
          newValue)
  else None.

(** The three loops of [showFrequencyValue], which walk [oldValue] and
    [newValue] themselves and step the column by 25. *)
Fixpoint changed_digits (c line color : Z) (oldValue newValue : string) :
    list gfx.call * (Z * string * string) :=
  match oldValue, newValue with
  | String o oldValue', String n newValue' =>
      let '(calls, rest) := changed_digits (c + 25) line color oldValue' newValue' in
      ((if Ascii.eqb o n then []
        else [gfx.drawChar c line o BLACK BLACK 4; gfx.drawChar c line n color BLACK 4])
       ++ calls, rest)
  | _, _ => ([], (c, oldValue, newValue))
  end.

Fixpoint erased_digits (c line : Z) (oldValue : string) : list gfx.call * Z :=
  match oldValue with
  | String o oldValue' =>
      let '(calls, c') := erased_digits (c + 25) line oldValue' in
      (gfx.drawChar c line o BLACK BLACK 4 :: calls, c')
  | EmptyString => ([], c)
  end.

Fixpoint printed_digits (c line color : Z) (newValue : string) : list gfx.call :=
  match newValue with
  | String n newValue' =>
      gfx.drawChar c line n color BLACK 4 :: printed_digits (c + 25) line color newValue'
  | EmptyString => []
  end.

(** [void showFrequencyValue(int col, int line, char *oldValue,
    char *newValue, uint16_t color)] *)
Definition showFrequencyValue (col line : Z) (oldValue newValue : string) (color : Z) :
    list gfx.call :=
  let '(calls1, (c1, oldValue1, newValue1)) := changed_digits col line color oldValue newValue in
  let '(calls2, c2) := erased_digits c1 line oldValue1 in
  calls1 ++ calls2 ++ printed_digits c2 line color newValue1.

End Draw.

(** *** What reaches the glass *)

(** One character drawn: where, in which colour, and which.  The place is
    unknown ([None]) for a [print] that no [setCursor] precedes. *)
Record Stroke : Type := mkStroke {
  place : option (Z * Z);
  ink : Z;
  glyph : ascii
}.

(** The characters a list of calls draws, in order: [print] draws at the
    cursor in the text colour, as the last [setCursor] and [setTextColor]
    left them, and moves the cursor; [drawChar] carries its own place and
    colour. *)
Fixpoint strokes (colour : Z) (cursor : option (Z * Z)) (t : list gfx.call) : list Stroke :=
  match t with
  | [] => []
  | gfx.setCursor x y :: t' => strokes colour (Some (x, y)) t'
  | gfx.setTextColor c :: t' => strokes c cursor t'
  | gfx.setTextSize _ :: t' => strokes colour cursor t'
  | gfx.print ch :: t' => mkStroke cursor colour ch :: strokes colour None t'
  | gfx.drawChar x y ch color _ _ :: t' =>
      mkStroke (Some (x, y)) color ch :: strokes colour cursor t'
  end.

(** The characters of [new] in colour, one per column from [c] on. *)
Fixpoint written (c line color space : Z) (new : string) : list Stroke :=
  match new with
  | String n new' => mkStroke (Some (c, line)) color n :: written (c + space) line color space new'
  | EmptyString => []
  end.

(** What redrawing [old] as [new] from the column [c] should draw: where the
    two texts differ the old character in black and then the new one, the
    tail of the longer text in black (old) or in colour (new). *)
Fixpoint redrawn (c line color space : Z) (old new : string) : list Stroke :=
  match old with
  | String o old' =>
      match new with
      | String n new' =>
          (if Ascii.eqb o n then []
           else [mkStroke (Some (c, line)) BLACK o; mkStroke (Some (c, line)) color n])
          ++ redrawn (c + space) line color space old' new'
      | EmptyString =>
          mkStroke (Some (c, line)) BLACK o :: redrawn (c + space) line color space old' EmptyString
      end
  | EmptyString => written c line color space new
  end.

(** The stroke [st] belongs to the redrawing of [old] as [new]: it is at the
    column of some index [k], and is either the old character of that index
    in black, or the new one in colour, where the other text has another
    character or none at [k]. *)
Definition redraws (col line color space : Z) (old new : string) (st : Stroke) : Prop :=
  ∃ k ch,
    place st = Some (col + Z.of_nat k * space, line) ∧ glyph st = ch
    ∧ ((ink st = BLACK ∧ String.get k old = Some ch ∧ String.get k new ≠ Some ch)
       ∨ (ink st = color ∧ String.get k new = Some ch ∧ String.get k old ≠ Some ch)).

(** The columns of both texts fit the [int] of the board (16 bits). *)
Definition fits_int (col space : Z) (old new : string) : Prop :=
  -32768 ≤ col ∧ 0 ≤ space ≤ 255
  ∧ col + Z.of_nat (Nat.max (String.length old) (String.length new)) * space ≤ 32767.

(** * Properties *)

Arguments band_get : simpl never.

(** ** Running a computation one bind at a time *)

Lemma Mode_eqb_eq a b : Mode_eqb a b = true ↔ a = b.
Proof. destruct a, b; unfold Mode_eqb; simpl; split; congruence. Qed.

Lemma prepend_nil {A} (o : outcome A) : prepend [] o = o.
Proof. by destruct o. Qed.

Lemma prepend_prepend {A} t1 t2 (o : outcome A) :
  prepend t1 (prepend t2 o) = prepend (t1 ++ t2) o.
Proof. destruct o; simpl; [|done]. by rewrite app_assoc. Qed.

Lemma bind_Ok {A B} (m : M A) (f : A → M B) s a s1 t1 :
  m s = Ok a s1 t1 → (m ≫= f) s = prepend t1 (f a s1).
Proof. intros H. unfold mbind, M_bind. by rewrite H. Qed.


Lemma bind_inv {A B} (m : M A) (f : A → M B) s b s2 t :
  (m ≫= f) s = Ok b s2 t →
  ∃ a s1 t1 t2, m s = Ok a s1 t1 ∧ f a s1 = Ok b s2 t2 ∧ t = t1 ++ t2.
Proof.
  unfold mbind, M_bind. destruct (m s) as [a s1 t1|]; [|done].
  destruct (f a s1) as [b' s2' t2|] eqn:E; [|done].
  simpl. intros [= <- <- <-]. by exists a, s1, t1, t2.
Qed.

Lemma bind_gets {A B} (g : State → A) (f : A → M B) s : (gets g ≫= f) s = f (g s) s.
Proof. rewrite (bind_Ok _ _ _ _ _ _ eq_refl). apply prepend_nil. Qed.

Lemma bind_modify {B} (g : State → State) (f : unit → M B) s :
  (modify g ≫= f) s = f tt (g s).
Proof. rewrite (bind_Ok _ _ _ _ _ _ eq_refl). apply prepend_nil. Qed.

Lemma bind_emit {B} (e : Event) (f : unit → M B) s :
  (emit e ≫= f) s = prepend [e] (f tt s).
Proof. by rewrite (bind_Ok _ _ _ _ _ _ eq_refl). Qed.

Lemma bind_ret {A B} (a : A) (f : A → M B) s : (mret a ≫= f) s = f a s.
Proof. rewrite (bind_Ok _ _ _ _ _ _ eq_refl). apply prepend_nil. Qed.

Lemma bind_assoc {A B C} (m : M A) (f : A → M B) (g : B → M C) s :
  ((m ≫= f) ≫= g) s = (m ≫= λ a, f a ≫= g) s.
Proof.
  unfold mbind, M_bind. destruct (m s) as [a s1 t1|]; [|done].
  destruct (f a s1) as [b s2 t2|]; [|done]. simpl.
  destruct (g b s2) as [c s3 t3|]; [|done]. simpl.
  by rewrite app_assoc.
Qed.

Lemma bind_ext {A B} (m : M A) (f g : A → M B) s :
  (∀ a s1, f a s1 = g a s1) → (m ≫= f) s = (m ≫= g) s.
Proof. intros H. unfold mbind, M_bind. destruct (m s); [|done]. by rewrite H. Qed.

Ltac mstep :=
  first [ rewrite bind_gets | rewrite bind_modify | rewrite bind_ret
        | rewrite prepend_nil | rewrite prepend_prepend | rewrite bind_assoc ];
  cbv beta.

(** ** The band table *)

Lemma band_get_Some l i b :
  band_get l i = Some b ↔ 0 ≤ i ∧ l !! Z.to_nat i = Some b.
Proof.
  unfold band_get. destruct (Z.ltb_spec i 0); split.
  - done.
  - intros [? _]. exfalso. lia.
  - intros ?. split; [lia|done].
  - by intros [_ ?].
Qed.

Lemma band_init_type i b0 : band_get band_init i = Some b0 → Band.bandType b0 = type_at i.
Proof.
  rewrite band_get_Some. intros [Hi Hb].
  rewrite <- (Z2Nat.id i Hi). revert Hb. generalize (Z.to_nat i) as n. clear Hi. intros n.
  do 21 (destruct n as [|n]; [simpl; intros [= <-]; reflexivity|]).
  simpl. done.
Qed.

Lemma layout_length l : layout_ok l → Z.of_nat (length l) = lastBand + 1.
Proof.
  intros H. apply (f_equal length) in H. rewrite !length_fmap in H. rewrite H. reflexivity.
Qed.

Lemma layout_lookup l i b :
  layout_ok l → band_get l i = Some b →
  ∃ b0, band_get band_init i = Some b0 ∧ layout b = layout b0.
Proof.
  intros Hl Hb. apply band_get_Some in Hb as [Hi Hb].
  assert ((layout <$> band_init) !! Z.to_nat i = Some (layout b)) as Hb0.
  { rewrite <- Hl, list_lookup_fmap, Hb. done. }
  rewrite list_lookup_fmap in Hb0.
  destruct (band_init !! Z.to_nat i) as [b0|] eqn:E; [|done].
  exists b0. split; [by apply band_get_Some|]. simpl in Hb0. congruence.
Qed.

Lemma layout_get l i b :
  layout_ok l → band_get l i = Some b → 0 ≤ i ≤ lastBand ∧ Band.bandType b = type_at i.
Proof.
  intros Hl Hb. pose proof (layout_length _ Hl) as Hlen.
  destruct (layout_lookup _ _ _ Hl Hb) as (b0 & Hb0 & Hsame).
  apply band_get_Some in Hb as [Hi Hb].
  pose proof (lookup_lt_Some _ _ _ Hb) as Hlt.
  split; [lia|].
  injection Hsame as _ -> _ _. by apply band_init_type.
Qed.

Lemma layout_some l i : layout_ok l → 0 ≤ i ≤ lastBand → ∃ b, band_get l i = Some b.
Proof.
  intros Hl Hi. pose proof (layout_length _ Hl) as Hlen.
  destruct (lookup_lt_is_Some_2 l (Z.to_nat i)) as [b Hb]; [lia|].
  exists b. apply band_get_Some. split; [lia|done].
Qed.

Lemma layout_insert l i b b' :
  layout_ok l → band_get l i = Some b → layout b' = layout b →
  layout_ok (<[Z.to_nat i := b']> l).
Proof.
  intros Hl Hb Hs. apply band_get_Some in Hb as [Hi Hb].
  unfold layout_ok. rewrite list_fmap_insert, Hs, list_insert_id; [done|].
  by rewrite list_lookup_fmap, Hb.
Qed.

Lemma band_get_insert l i j b b' :
  band_get l i = Some b →
  band_get (<[Z.to_nat i := b']> l) j = if j =? i then Some b' else band_get l j.
Proof.
  intros Hb. apply band_get_Some in Hb as [Hi Hb].
  pose proof (lookup_lt_Some _ _ _ Hb) as Hlt.
  unfold band_get. destruct (Z.ltb_spec j 0).
  - destruct (Z.eqb_spec j i); [lia|done].
  - destruct (Z.eqb_spec j i) as [->|Hne].
    + by apply list_lookup_insert_eq.
    + apply list_lookup_insert_ne. lia.
Qed.

Lemma type_at_cases i :
  0 ≤ i →
  (i = 0 ∧ type_at i = FM_BAND_TYPE) ∨ (i = 1 ∧ type_at i = LW_BAND_TYPE) ∨
  (i = 2 ∧ type_at i = MW_BAND_TYPE) ∨ (3 ≤ i ∧ type_at i = SW_BAND_TYPE).
Proof.
  intros Hi. unfold type_at.
  destruct (Z.eqb_spec i 0); [by left|].
  destruct (Z.eqb_spec i 1); [right; by left|].
  destruct (Z.eqb_spec i 2); [right; right; by left|].
  right; right; right. split; [lia|done].
Qed.

(** ** Relations obeyed: the rules *)

Section Obeys.
Context (R : State → list Event → State → Prop) `{!Closed R}.

Lemma obeys_ret {A} (a : A) : obeys R (mret a).
Proof. intros s a' s' t [= <- <- <-]. apply closed_nil. Qed.

Lemma obeys_bind {A B} (m : M A) (f : A → M B) :
  obeys R m → (∀ a, obeys R (f a)) → obeys R (m ≫= f).
Proof.
  intros Hm Hf s b s' t Hrun.
  apply bind_inv in Hrun as (a & s1 & t1 & t2 & H1 & H2 & ->).
  eapply closed_app; [by eapply Hm|by eapply Hf].
Qed.

Lemma obeys_gets {A} (f : State → A) : obeys R (gets f).
Proof. intros s a' s' t [= <- <- <-]. apply closed_nil. Qed.

Lemma obeys_modify (f : State → State) : (∀ s, R s [] (f s)) → obeys R (modify f).
Proof. intros Hf s a' s' t [= <- <- <-]. apply Hf. Qed.

Lemma obeys_emit (e : Event) : (∀ s, R s [e] s) → obeys R (emit e).
Proof. intros He s a' s' t [= <- <- <-]. apply He. Qed.

Lemma obeys_abort {A} (f : fault) : obeys R (abort (A:=A) f).
Proof. by intros s a' s' t. Qed.

Lemma obeys_band_at (i : Z) : obeys R (band_at i).
Proof.
  intros s a' s' t. unfold band_at. destruct (band_get _ _); [|done].
  intros [= <- <- <-]. apply closed_nil.
Qed.

Lemma obeys_deref (p : option string) : obeys R (deref p).
Proof. destruct p; [apply obeys_ret|apply obeys_abort]. Qed.

Lemma obeys_truncate (p : option string) : obeys R (truncate p).
Proof. destruct p; [apply obeys_ret|apply obeys_abort]. Qed.

Lemma obeys_when (c : bool) (m : M unit) : obeys R m → obeys R (when c m).
Proof. destruct c; [done|]. intros _. apply obeys_ret. Qed.

Lemma obeys_each {A} (f : A → M unit) (l : list A) :
  (∀ a, obeys R (f a)) → obeys R (each f l).
Proof.
  intros Hf. induction l as [|a l IH]; simpl.
  - apply obeys_ret.
  - apply obeys_bind; [apply Hf|]. intros _. apply IH.
Qed.
End Obeys.

Lemma obeys_impl {A} (R R' : State → list Event → State → Prop) (m : M A) :
  (∀ s t s', R s t s' → R' s t s') → obeys R m → obeys R' m.
Proof. intros HR Hm s a s' t Hrun. apply HR. by eapply Hm. Qed.

#[global] Instance frames_closed {X} (π : State → X) (E : Event → Prop) : Closed (frames π E).
Proof.
  split.
  - intros s. by split.
  - intros s t1 s1 t2 s2 [H1 ?] [H2 ?]. split; [congruence|]. by apply Forall_app.
Qed.

#[global] Instance keeps_Inv_closed : Closed keeps_Inv.
Proof. split; unfold keeps_Inv; auto. Qed.

(** The rules, applied as far as they go; [leaf] closes what is left at a
    [modify], an [emit] or a function kept folded. *)
Ltac obeys_step leaf :=
  first
    [ simple apply obeys_ret; apply _
    | simple apply obeys_gets; apply _
    | simple apply obeys_abort
    | simple apply obeys_band_at; apply _
    | simple apply obeys_deref; apply _
    | simple apply obeys_truncate; apply _
    | simple apply obeys_bind; [apply _| |intros ?]
    | simple apply obeys_when; [apply _|]
    | simple apply obeys_each; [apply _|intros ?]
    | simple apply obeys_modify; intros ?; leaf
    | simple apply obeys_emit; intros ?; leaf
    | match goal with
      | |- obeys _ (if ?c then _ else _) => destruct c
      | |- obeys _ (match ?p with _ => _ end) => destruct p
      end
    | leaf ].

Ltac frames_leaf := split; [reflexivity | repeat constructor; done].

Ltac frames_auto :=
  unfold_blocks; unfold clearRDS, loadSSB, showRDSTime, showRDSStation, showRDSMsg, printText;
  unfold radio, screen; repeat obeys_step frames_leaf.

Lemma Inv_core s s' : core s' = core s → Inv s → Inv s'.
Proof.
  unfold core. intros [= Hl Hi Hsw Hm Hld Hbfo] [].
  split; unfold layout_ok; rewrite ?Hl, ?Hi, ?Hsw, ?Hm, ?Hld, ?Hbfo; done.
Qed.

Lemma frames_core_keeps_Inv {A} (m : M A) : obeys (frames core any_event) m → obeys keeps_Inv m.
Proof. apply obeys_impl. intros s t s' [Hc _] HI. by apply (Inv_core s). Qed.

(** ** What the functions of the sketch return *)

Lemma band_at_Ok s i b : band_get (band s) i = Some b → band_at i s = Ok b s [].
Proof. intros Hb. unfold band_at. by rewrite Hb. Qed.

Lemma saveBand_Ok s b :
  band_get (band s) (bandIdx s) = Some b → saveBand s = Ok tt (saved b s) [].
Proof. intros Hb. exec. by rewrite Hb. Qed.

Lemma showStatus_Ok s b :
  band_get (band s) (bandIdx s) = Some b → showStatus s = Ok tt s (showStatus_log s).
Proof. intros Hb. unfold showStatus_log. exec. rewrite Hb. by destruct (is_ssb _). Qed.

Lemma useBand_Ok s b :
  band_get (band s) (bandIdx s) = Some b → useBand s = Ok tt (tuned b s) (useBand_log b s).
Proof.
  intros Hb. unfold tuned, useBand_log, showStatus_log. exec. rewrite Hb.
  destruct (Band.bandType b =? _); simpl.
  - rewrite Hb. reflexivity.
  - destruct (_ || _); simpl; destruct (ssbLoaded s); simpl; rewrite Hb; simpl;
      try destruct (currentMode s); reflexivity.
Qed.

Lemma loadSSB_Ok s : loadSSB s = Ok tt (set_ssbLoaded true s) (patch_log (bwIdxSSB s)).
Proof. reflexivity. Qed.

Lemma saved_get s b j :
  band_get (band s) (bandIdx s) = Some b →
  band_get (band (saved b s)) j
  = if j =? bandIdx s then Some (persisted b s) else band_get (band s) j.
Proof. intros Hb. simpl. by apply (band_get_insert _ _ _ b). Qed.

Lemma saved_layout s b :
  layout_ok (band s) → band_get (band s) (bandIdx s) = Some b → layout_ok (band (saved b s)).
Proof. intros Hl Hb. simpl. by eapply layout_insert. Qed.

Lemma tuned_Inv s b :
  layout_ok (band s) → 0 ≤ bandIdx s ≤ lastBand → 3 ≤ lastSwBand s ≤ lastBand →
  (ssbLoaded s = true → is_ssb (currentMode s) = true) →
  band_get (band s) (bandIdx s) = Some b →
  Inv (tuned b s).
Proof.
  intros Hl Hi Hsw Hssb Hb.
  destruct (layout_get _ _ _ Hl Hb) as [_ Ht].
  unfold tuned. rewrite Ht.
  destruct (type_at_cases (bandIdx s)) as [[Hc ->]|[[Hc ->]|[[Hc ->]|[Hc ->]]]]; [lia|..];
    simpl.
  - split; inv_field.
  - destruct (ssbLoaded s) eqn:Hld; [specialize (Hssb eq_refl)|];
      split; inv_field.
  - destruct (ssbLoaded s) eqn:Hld; [specialize (Hssb eq_refl)|];
      split; inv_field.
  - destruct (ssbLoaded s) eqn:Hld; [specialize (Hssb eq_refl)|];
      split; inv_field.
Qed.

(** What a band change comes to: write back, move, load. *)
Lemma reselect_Ok (k : M unit) s b pre b' :
  band_get (band s) (bandIdx s) = Some b →
  (∀ f : unit → M unit, (k ≫= f) (saved b s) = f tt (pre (saved b s))) →
  band_get (band (pre (saved b s))) (bandIdx (pre (saved b s))) = Some b' →
  (saveBand;; k;; useBand) s
  = Ok tt (tuned b' (pre (saved b s))) (useBand_log b' (pre (saved b s))).
Proof.
  intros Hb Hk Hb'.
  rewrite (bind_Ok _ _ _ _ _ _ (saveBand_Ok _ _ Hb)), prepend_nil.
  rewrite Hk. by apply useBand_Ok.
Qed.

Lemma next_band_range i : 0 ≤ i ≤ lastBand → 0 ≤ next_band i ≤ lastBand.
Proof. unfold next_band. destruct (Z.ltb_spec i lastBand); unfold lastBand in *; simpl in *; lia. Qed.

Lemma previous_band_range i : 0 ≤ i ≤ lastBand → 0 ≤ previous_band i ≤ lastBand.
Proof.
  unfold previous_band. destruct (Z.gtb_spec i 0); unfold lastBand in *; simpl in *; lia.
Qed.

Lemma bandUp_eq s :
  bandUp s = (saveBand;; modify (λ s, set_bandIdx (next_band (bandIdx s)) s);; useBand) s.
Proof.
  unfold bandUp. apply bind_ext. intros [] s1. rewrite bind_gets, bind_modify.
  unfold next_band. destruct (_ <? _); by rewrite bind_modify.
Qed.

Lemma bandDown_eq s :
  bandDown s
  = (saveBand;; modify (λ s, set_bandIdx (previous_band (bandIdx s)) s);; useBand) s.
Proof.
  unfold bandDown. apply bind_ext. intros [] s1. rewrite bind_gets, bind_modify.
  unfold previous_band. destruct (_ >? _); by rewrite bind_modify.
Qed.

Lemma bandUp_Ok s b b' :
  band_get (band s) (bandIdx s) = Some b →
  band_get (band (saved b s)) (next_band (bandIdx s)) = Some b' →
  bandUp s = Ok tt (tuned b' (moved (next_band (bandIdx s)) b s))
                   (useBand_log b' (moved (next_band (bandIdx s)) b s)).
Proof.
  intros Hb Hb'. rewrite bandUp_eq.
  apply (reselect_Ok _ s b (λ s, set_bandIdx (next_band (bandIdx s)) s)); try done.
  intros f. by rewrite bind_modify.
Qed.

Lemma bandDown_Ok s b b' :
  band_get (band s) (bandIdx s) = Some b →
  band_get (band (saved b s)) (previous_band (bandIdx s)) = Some b' →
  bandDown s = Ok tt (tuned b' (moved (previous_band (bandIdx s)) b s))
                     (useBand_log b' (moved (previous_band (bandIdx s)) b s)).
Proof.
  intros Hb Hb'. rewrite bandDown_eq.
  apply (reselect_Ok _ s b (λ s, set_bandIdx (previous_band (bandIdx s)) s)); try done.
  intros f. by rewrite bind_modify.
Qed.

Lemma on_bMW_Ok s b b' :
  band_get (band s) (bandIdx s) = Some b →
  band_get (band (saved b s)) 2 = Some b' →
  on_bMW s = Ok tt (tuned b' (moved_AM 2 b s)) (useBand_log b' (moved_AM 2 b s)).
Proof.
  intros Hb Hb'. unfold on_bMW.
  rewrite (bind_Ok _ _ _ _ _ _ (saveBand_Ok _ _ Hb)). repeat mstep. by apply useBand_Ok.
Qed.

Lemma on_bSW_Ok s b b' :
  band_get (band s) (bandIdx s) = Some b →
  band_get (band (saved b s)) (lastSwBand s) = Some b' →
  on_bSW s = Ok tt (tuned b' (moved_AM (lastSwBand s) b s))
                   (useBand_log b' (moved_AM (lastSwBand s) b s)).
Proof.
  intros Hb Hb'. unfold on_bSW.
  rewrite (bind_Ok _ _ _ _ _ _ (saveBand_Ok _ _ Hb)). repeat mstep. by apply useBand_Ok.
Qed.

Lemma on_bFM_Ok s b b' :
  currentMode s ≠ FM →
  band_get (band s) (bandIdx s) = Some b →
  band_get (band (saved b s)) 0 = Some b' →
  on_bFM s = Ok tt (tuned b' (moved_FM b s)) (useBand_log b' (moved_FM b s)).
Proof.
  intros Hm Hb Hb'. unfold on_bFM. rewrite bind_gets.
  destruct (Mode_eqb (currentMode s) FM) eqn:E; [by apply Mode_eqb_eq in E|]. simpl.
  rewrite (bind_Ok _ _ _ _ _ _ (saveBand_Ok _ _ Hb)). repeat mstep. by apply useBand_Ok.
Qed.

Lemma guarded_noop (k : M unit) s :
  currentMode s = FM →
  (m ← gets currentMode; when (negb (Mode_eqb m FM)) k) s = Ok tt s [].
Proof. intros Hm. rewrite bind_gets, Hm. reflexivity. Qed.

Lemma on_bAM_Ok s b :
  currentMode s ≠ FM →
  band_get (band s) (bandIdx s) = Some b →
  let s1 := set_bfoOn false (set_ssbLoaded false (set_currentMode AM s)) in
  on_bAM s = Ok tt (tuned (persisted b s) (saved b s1)) (useBand_log (persisted b s) (saved b s1)).
Proof.
  intros Hm Hb s1. unfold on_bAM. rewrite bind_gets.
  destruct (Mode_eqb (currentMode s) FM) eqn:E; [by apply Mode_eqb_eq in E|]. simpl.
  repeat mstep.
  assert (band_get (band s1) (bandIdx s1) = Some b) as Hb1 by done.
  rewrite (bind_Ok _ _ _ _ _ _ (saveBand_Ok _ _ Hb1)). repeat mstep.
  apply useBand_Ok. rewrite saved_get; [|done]. simpl. by rewrite Z.eqb_refl.
Qed.

Lemma on_bSSB_Ok side s b :
  currentMode s ≠ FM →
  band_get (band s) (bandIdx s) = Some b →
  let s1 := set_currentMode side (set_ssbLoaded true s) in
  on_bSSB side s
  = Ok tt (tuned (persisted b s) (saved b s1))
      ((if ssbLoaded s then [] else patch_log (bwIdxSSB s))
       ++ useBand_log (persisted b s) (saved b s1)).
Proof.
  intros Hm Hb s1. unfold on_bSSB. rewrite bind_gets.
  destruct (Mode_eqb (currentMode s) FM) eqn:E; [by apply Mode_eqb_eq in E|]. simpl.
  rewrite bind_gets.
  assert (useBand (saved b s1)
          = Ok tt (tuned (persisted b s) (saved b s1)) (useBand_log (persisted b s) (saved b s1)))
    as Huse.
  { apply useBand_Ok. rewrite saved_get; [|done]. simpl. by rewrite Z.eqb_refl. }
  destruct (ssbLoaded s) eqn:Hld; simpl.
  - repeat mstep.
    assert (set_currentMode side s = s1) as ->.
    { unfold s1. destruct s; simpl in *. by rewrite Hld. }
    assert (band_get (band s1) (bandIdx s1) = Some b) as Hb1 by done.
    rewrite (bind_Ok _ _ _ _ _ _ (saveBand_Ok _ _ Hb1)). repeat mstep. done.
  - rewrite (bind_Ok _ _ _ _ _ _ (loadSSB_Ok s)). repeat mstep.
    assert (band_get (band s1) (bandIdx s1) = Some b) as Hb1 by done.
    rewrite (bind_Ok _ _ _ _ _ _ (saveBand_Ok _ _ Hb1)). repeat mstep.
    rewrite Huse. reflexivity.
Qed.

(** ** The invariant is kept *)

Lemma Inv_entry s : Inv s → ∃ b, band_get (band s) (bandIdx s) = Some b.
Proof. intros HI. apply layout_some; apply HI. Qed.

Lemma saved_entry s b i :
  Inv s → band_get (band s) (bandIdx s) = Some b → 0 ≤ i ≤ lastBand →
  ∃ b', band_get (band (saved b s)) i = Some b'.
Proof. intros HI Hb Hi. apply layout_some; [|done]. apply saved_layout; [apply HI|done]. Qed.

Lemma moved_Inv i b s b' :
  Inv s → band_get (band s) (bandIdx s) = Some b → 0 ≤ i ≤ lastBand →
  band_get (band (saved b s)) i = Some b' →
  Inv (tuned b' (moved i b s)).
Proof.
  intros HI Hb Hi Hb'. apply tuned_Inv; simpl; try done; try apply HI.
  - by apply (saved_layout s b); [apply HI|].
  - intros Hld. rewrite <- (inv_ssb _ HI). done.
Qed.

Lemma moved_AM_Inv i b s b' :
  Inv s → band_get (band s) (bandIdx s) = Some b → 0 ≤ i ≤ lastBand →
  band_get (band (saved b s)) i = Some b' →
  Inv (tuned b' (moved_AM i b s)).
Proof.
  intros HI Hb Hi Hb'. apply tuned_Inv; simpl; try done; try apply HI.
  by apply (saved_layout s b); [apply HI|].
Qed.

Lemma moved_FM_Inv b s b' :
  Inv s → band_get (band s) (bandIdx s) = Some b →
  band_get (band (saved b s)) 0 = Some b' →
  Inv (tuned b' (moved_FM b s)).
Proof.
  intros HI Hb Hb'. apply tuned_Inv; simpl; try done; try apply HI.
  by apply (saved_layout s b); [apply HI|].
Qed.

Lemma bandUp_Inv : obeys keeps_Inv bandUp.
Proof.
  intros s [] s' t Hrun HI.
  destruct (Inv_entry s HI) as [b Hb].
  pose proof (next_band_range _ (inv_bandIdx _ HI)) as Hn.
  destruct (saved_entry s b _ HI Hb Hn) as [b' Hb'].
  rewrite (bandUp_Ok s b b' Hb Hb') in Hrun. injection Hrun as <- _.
  by apply moved_Inv.
Qed.

Lemma bandDown_Inv : obeys keeps_Inv bandDown.
Proof.
  intros s [] s' t Hrun HI.
  destruct (Inv_entry s HI) as [b Hb].
  pose proof (previous_band_range _ (inv_bandIdx _ HI)) as Hn.
  destruct (saved_entry s b _ HI Hb Hn) as [b' Hb'].
  rewrite (bandDown_Ok s b b' Hb Hb') in Hrun. injection Hrun as <- _.
  by apply moved_Inv.
Qed.

Lemma lastBand_eq : lastBand = 20.
Proof. reflexivity. Qed.

Lemma on_bMW_Inv : obeys keeps_Inv on_bMW.
Proof.
  intros s [] s' t Hrun HI.
  destruct (Inv_entry s HI) as [b Hb].
  assert (0 ≤ 2 ≤ lastBand) as Hn by (rewrite lastBand_eq; lia).
  destruct (saved_entry s b _ HI Hb Hn) as [b' Hb'].
  rewrite (on_bMW_Ok s b b' Hb Hb') in Hrun. injection Hrun as <- _.
  by apply moved_AM_Inv.
Qed.

Lemma on_bSW_Inv : obeys keeps_Inv on_bSW.
Proof.
  intros s [] s' t Hrun HI.
  destruct (Inv_entry s HI) as [b Hb].
  assert (0 ≤ lastSwBand s ≤ lastBand) as Hn by (pose proof (inv_lastSw _ HI); lia).
  destruct (saved_entry s b _ HI Hb Hn) as [b' Hb'].
  rewrite (on_bSW_Ok s b b' Hb Hb') in Hrun. injection Hrun as <- _.
  by apply moved_AM_Inv.
Qed.

Lemma on_bFM_Inv : obeys keeps_Inv on_bFM.
Proof.
  intros s [] s' t Hrun HI.
  destruct (decide (currentMode s = FM)) as [Hm|Hm].
  { unfold on_bFM in Hrun. rewrite (guarded_noop _ _ Hm) in Hrun. by injection Hrun as <- _. }
  destruct (Inv_entry s HI) as [b Hb].
  assert (0 ≤ 0 ≤ lastBand) as Hn by (rewrite lastBand_eq; lia).
  destruct (saved_entry s b _ HI Hb Hn) as [b' Hb'].
  rewrite (on_bFM_Ok s b b' Hm Hb Hb') in Hrun. injection Hrun as <- _.
  by apply moved_FM_Inv.
Qed.

Lemma on_bAM_Inv : obeys keeps_Inv on_bAM.
Proof.
  intros s [] s' t Hrun HI.
  destruct (decide (currentMode s = FM)) as [Hm|Hm].
  { unfold on_bAM in Hrun. rewrite (guarded_noop _ _ Hm) in Hrun. by injection Hrun as <- _. }
  destruct (Inv_entry s HI) as [b Hb].
  rewrite (on_bAM_Ok s b Hm Hb) in Hrun. injection Hrun as <- _.
  apply tuned_Inv.
  - apply saved_layout; [apply HI|done].
  - apply HI.
  - apply HI.
  - done.
  - rewrite saved_get; [|done]. simpl. by rewrite Z.eqb_refl.
Qed.

Lemma on_bSSB_Inv side : is_ssb side = true → obeys keeps_Inv (on_bSSB side).
Proof.
  intros Hside s [] s' t Hrun HI.
  destruct (decide (currentMode s = FM)) as [Hm|Hm].
  { unfold on_bSSB in Hrun. rewrite (guarded_noop _ _ Hm) in Hrun. by injection Hrun as <- _. }
  destruct (Inv_entry s HI) as [b Hb].
  rewrite (on_bSSB_Ok side s b Hm Hb) in Hrun. injection Hrun as <- _.
  apply tuned_Inv.
  - apply saved_layout; [apply HI|done].
  - apply HI.
  - apply HI.
  - done.
  - rewrite saved_get; [|done]. simpl. by rewrite Z.eqb_refl.
Qed.

Lemma on_bStep_Ok s b :
  currentMode s ≠ FM → bfoOn s && is_ssb (currentMode s) = false →
  band_get (band s) (bandIdx s) = Some b →
  on_bStep s
  = Ok tt (stepped b s)
      ([Radio (si4735.setFrequencyStep (step_after s));
        Radio (si4735.setSeekAmSpacing (if step_after s >? 10 then 10 else step_after s))]
       ++ showStatus_log s).
Proof.
  intros Hm Hbfo Hb. unfold on_bStep. rewrite bind_gets.
  destruct (Mode_eqb (currentMode s) FM) eqn:E; [by apply Mode_eqb_eq in E|].
  rewrite bind_gets, Hbfo. rewrite !bind_gets.
  assert (∀ v (k : unit → M unit),
    (modify (set_currentStep v) ≫= k) s = k tt (set_currentStep v s)) as Hset.
  { intros. by rewrite bind_modify. }
  assert (((if currentStep s =? 1 then modify (set_currentStep 5)
            else if currentStep s =? 5 then modify (set_currentStep 10)
            else if currentStep s =? 10 then modify (set_currentStep 100)
            else if (currentStep s =? 100) && (bandIdx s =? lastBand)
                 then modify (set_currentStep 500)
            else modify (set_currentStep 1)) : M unit)
          = modify (set_currentStep (step_after s))) as ->.
  { unfold step_after. by repeat destruct (_ =? _). }
  rewrite Hset, bind_gets. unfold radio. rewrite bind_emit.
  assert (band_get (band (set_currentStep (step_after s) s)) (bandIdx s) = Some b) as Hb1 by done.
  rewrite (bind_Ok _ _ _ _ _ _ (band_at_Ok _ _ _ Hb1)), prepend_nil.
  rewrite bind_modify, bind_emit.
  erewrite showStatus_Ok.
  - reflexivity.
  - simpl. rewrite (band_get_insert _ _ _ b); [|done]. by rewrite Z.eqb_refl.
Qed.

Lemma stepped_Inv s b : Inv s → band_get (band s) (bandIdx s) = Some b → Inv (stepped b s).
Proof.
  intros HI Hb. pose proof (layout_insert _ _ b
    (Band.mk (Band.bandName b) (Band.bandType b) (Band.minimumFreq b) (Band.maximumFreq b)
             (Band.currentFreq b) (step_after s)) (inv_layout _ HI) Hb eq_refl) as Hl.
  destruct HI. by split.
Qed.

Lemma on_bStep_Inv : obeys keeps_Inv on_bStep.
Proof.
  intros s [] s' t Hrun HI.
  destruct (decide (currentMode s = FM)) as [Hm|Hm].
  { unfold on_bStep in Hrun. rewrite bind_gets, Hm in Hrun. simpl in Hrun.
    rewrite bind_modify, bind_gets in Hrun.
    destruct (fmStereo _); injection Hrun as <- _; by apply (Inv_core s). }
  destruct (bfoOn s && is_ssb (currentMode s)) eqn:Hbfo.
  { unfold on_bStep in Hrun. rewrite bind_gets in Hrun.
    destruct (Mode_eqb (currentMode s) FM) eqn:E; [by apply Mode_eqb_eq in E|].
    rewrite bind_gets, Hbfo, bind_modify in Hrun.
    injection Hrun as <- _; by apply (Inv_core s). }
  destruct (Inv_entry s HI) as [b Hb].
  rewrite (on_bStep_Ok s b Hm Hbfo Hb) in Hrun. injection Hrun as <- _.
  by apply stepped_Inv.
Qed.

Lemma on_pushButton_Inv : obeys keeps_Inv on_pushButton.
Proof.
  intros s [] s' t Hrun HI. unfold on_pushButton in Hrun. rewrite bind_gets in Hrun.
  destruct (is_ssb (currentMode s)) eqn:Hm; simpl in Hrun; [|by injection Hrun as <- _].
  rewrite bind_modify in Hrun. revert Hrun.
  assert (Inv (set_bfoOn (negb (bfoOn s)) s)) as HI' by (destruct HI; by split).
  generalize dependent (set_bfoOn (negb (bfoOn s)) s). intros s1 HI' Hrun.
  assert (obeys (frames core any_event)
            (on ← gets bfoOn; when on showBFO;; showStatus)) as Hfr by frames_auto.
  destruct (Hfr _ _ _ _ Hrun) as [Hc _]. by apply (Inv_core s1).
Qed.

Lemma on_encoder_core i : obeys (frames core any_event) (on_encoder i).
Proof. frames_auto. Qed.

Lemma on_seek_core up p f : obeys (frames core any_event) (on_seek up p f).
Proof. frames_auto. Qed.

Lemma on_bAudioMute_core : obeys (frames core any_event) on_bAudioMute.
Proof. frames_auto. Qed.

Lemma on_bAGC_core : obeys (frames core any_event) on_bAGC.
Proof. frames_auto. Qed.

Lemma on_bFilter_core : obeys (frames core any_event) on_bFilter.
Proof. frames_auto. Qed.

Lemma on_rssi_core i : obeys (frames core any_event) (on_rssi i).
Proof. frames_auto. Qed.

Lemma on_rds_core r : obeys (frames core any_event) (on_rds r).
Proof. frames_auto. Qed.

Lemma radio_core c : obeys (frames core any_event) (radio c).
Proof. frames_auto. Qed.

#[local] Hint Resolve bandUp_Inv bandDown_Inv on_bMW_Inv on_bSW_Inv on_bFM_Inv on_bAM_Inv
  on_bSSB_Inv on_bStep_Inv on_pushButton_Inv : sketch_inv.
#[local] Hint Resolve on_encoder_core on_seek_core on_bAudioMute_core on_bAGC_core
  on_bFilter_core on_rssi_core on_rds_core radio_core : sketch_inv.
#[local] Hint Resolve frames_core_keeps_Inv : sketch_inv.

Lemma loop_Inv i : obeys keeps_Inv (loop i).
Proof.
  unfold loop.
  repeat (simple apply obeys_bind; [apply _| |intros []]);
    try (simple apply obeys_when; [apply _|]); auto with sketch_inv.
Qed.

Lemma rotaryEncoder_Inv d status s : Inv s → Inv (rotaryEncoder d status s).
Proof.
  intros HI. unfold rotaryEncoder.
  destruct (_ =? _); [done|]. destruct (_ =? _); by apply (Inv_core s).
Qed.

Lemma step_Inv x : obeys keeps_Inv (step x).
Proof.
  destruct x; simpl; [apply loop_Inv|].
  intros s [] s' t [= <- _] HI. by apply rotaryEncoder_Inv.
Qed.

Lemma power_on_entry :
  band_get (band power_on) (bandIdx power_on)
  = Some (Band.mk "FM  " FM_BAND_TYPE 8400 10800 10390 10).
Proof. reflexivity. Qed.

Lemma setup_Inv addr freq s t : setup addr freq power_on = Ok tt s t → Inv s.
Proof.
  unfold setup, radio. rewrite !bind_emit.
  destruct (addr =? 0); [done|]. rewrite bind_ret. unfold screen. rewrite !bind_emit.
  rewrite (bind_Ok _ _ _ _ _ _ (useBand_Ok _ _ power_on_entry)).
  rewrite bind_emit, !bind_modify. simpl. intros [= <- _].
  split; simpl; try done; try (rewrite lastBand_eq; lia).
Qed.

Lemma history_Inv t s : history t s → Inv s.
Proof.
  induction 1 as [addr freq s t Hs|x s t s' t' _ IH Hx].
  - by eapply setup_Inv.
  - by eapply step_Inv.
Qed.

Lemma reachable_Inv s : reachable s → Inv s.
Proof. intros [t Ht]. by eapply history_Inv. Qed.

(** ** Reaching a state *)

Lemma history_play l : ∀ t0 s0 s t,
  history t0 s0 → play l s0 = Ok tt s t → history (t0 ++ t) s.
Proof.
  induction l as [|x l IH]; intros t0 s0 s t H0 Hrun.
  - injection Hrun as <- <-. by rewrite app_nil_r.
  - apply bind_inv in Hrun as ([] & s1 & t1 & t2 & H1 & H2 & ->).
    rewrite app_assoc. eapply IH; [|done]. by eapply history_step.
Qed.

Lemma reachable_play addr freq l s0 t0 s t :
  setup addr freq power_on = Ok tt s0 t0 → play l s0 = Ok tt s t → reachable s.
Proof.
  intros H0 Hrun. exists (t0 ++ t). eapply history_play; [|done]. by eapply history_setup.
Qed.

(** ** The patch loader and [ssbLoaded] *)

#[global] Instance loads_by_patch_closed : Closed loads_by_patch.
Proof.
  split; unfold loads_by_patch.
  - intros s ?. by left.
  - intros s t1 s1 t2 s2 H1 H2 Hld.
    destruct (H2 Hld) as [Hld1|(u1 & bw & u2 & ->)].
    + destruct (H1 Hld1) as [?|(u1 & bw & u2 & ->)]; [by left|].
      right. exists u1, bw, (u2 ++ t2). by rewrite <- !app_assoc.
    + right. exists (t1 ++ u1), bw, u2. by rewrite <- !app_assoc.
Qed.

Lemma loadSSB_loads : obeys loads_by_patch loadSSB.
Proof.
  intros s [] s' t. rewrite loadSSB_Ok. intros [= <- <-] _.
  right. exists [], (bwIdxSSB s), []. by rewrite app_nil_r.
Qed.

Ltac loads_leaf :=
  first [ simple apply loadSSB_loads
        | unfold loads_by_patch; simpl; intros; first [by left | done] ].

Lemma loop_loads i : obeys loads_by_patch (loop i).
Proof.
  unfold_blocks; unfold clearRDS, showRDSTime, showRDSStation, showRDSMsg, printText;
  unfold radio, screen. repeat obeys_step loads_leaf.
Qed.

(** ** A pass with one button *)

Lemma on_encoder_still i s : encoderCount s = 0 → on_encoder i s = Ok tt s [].
Proof. intros H. unfold on_encoder. rewrite bind_gets, H. reflexivity. Qed.

Lemma on_rds_off r s : currentMode s ≠ FM → on_rds r s = Ok tt s [].
Proof.
  intros H. unfold on_rds. rewrite bind_gets.
  destruct (Mode_eqb (currentMode s) FM) eqn:E; [by apply Mode_eqb_eq in E|]. reflexivity.
Qed.

Lemma loop_press b s :
  loop (press b) s = (on_encoder (press b);; handler (press b) b;; on_rds no_rds) s.
Proof.
  unfold loop. apply bind_ext. intros [] s1.
  destruct b; simpl; rewrite ?bind_ret; apply bind_ext; intros [] s2; by rewrite ?bind_ret.
Qed.

Lemma loop_press_Ok b s s' t :
  encoderCount s = 0 → handler (press b) b s = Ok tt s' t → currentMode s' ≠ FM →
  loop (press b) s = Ok tt s' t.
Proof.
  intros He Hh Hm. rewrite loop_press.
  rewrite (bind_Ok _ _ _ _ _ _ (on_encoder_still _ _ He)), prepend_nil.
  rewrite (bind_Ok _ _ _ _ _ _ Hh), (on_rds_off _ _ Hm). simpl. by rewrite app_nil_r.
Qed.

(** ** C5 *)

(** C5.  After every transition that sets the mode to FM or AM, [ssbLoaded]
    is false: in every state reached from power-on, mode FM or AM goes with
    [ssbLoaded = false].  [ssbLoaded] becomes true only as the last step of
    the patch loader: [loadSSB] logs its seven calls and then sets the flag,
    and a pass of [loop] or an interrupt that finds the flag false and leaves
    it true has logged a complete run of the loader. *)
Theorem ssbLoaded_only_by_patch_loader :
  (∀ s, reachable s → currentMode s = FM ∨ currentMode s = AM → ssbLoaded s = false)
  ∧ (∀ s, loadSSB s = Ok tt (set_ssbLoaded true s) (patch_log (bwIdxSSB s)))
  ∧ (∀ x s s' t, step x s = Ok tt s' t → ssbLoaded s = false → ssbLoaded s' = true →
       has_patch t).
Proof.
  split; [|split].
  - intros s Hr Hm. rewrite (inv_ssb _ (reachable_Inv _ Hr)). by destruct Hm as [-> | ->].
  - apply loadSSB_Ok.
  - intros x s s' t Hrun Hoff Hon. destruct x as [i|d status]; simpl in Hrun.
    + destruct (loop_loads i _ _ _ _ Hrun Hon) as [Hld|Hp]; [congruence|done].
    + injection Hrun as <- _. unfold rotaryEncoder in Hon.
      repeat destruct (_ =? _); simpl in Hon; congruence.
Qed.

Lemma ssbLoaded_only_by_patch_loader_witness :
  ∃ s0 s1 t, reachable s0 ∧ (currentMode s0 = FM ∨ currentMode s0 = AM) ∧ ssbLoaded s0 = false
    ∧ step (Pass (press BLSB)) s0 = Ok tt s1 t ∧ ssbLoaded s1 = true ∧ has_patch t.
Proof.
  destruct ssbLoaded_only_by_patch_loader as (H1 & H2 & H3).
  eexists _, _, _.
  assert (∀ s0 s1 t, reachable s0 → currentMode s0 = AM →
    step (Pass (press BLSB)) s0 = Ok tt s1 t → ssbLoaded s1 = true →
    reachable s0 ∧ (currentMode s0 = FM ∨ currentMode s0 = AM) ∧ ssbLoaded s0 = false
    ∧ step (Pass (press BLSB)) s0 = Ok tt s1 t ∧ ssbLoaded s1 = true ∧ has_patch t) as K.
  { intros s0 s1 t Hr Hm Hs Hl. pose proof (H1 s0 Hr (or_intror Hm)) as Hoff.
    repeat split; try done; [by right|]. by eapply H3. }
  apply K.
  - eapply (reachable_play 17 10390 [Pass (press BSW)]); vm_compute; reflexivity.
  - reflexivity.
  - vm_compute. reflexivity.
  - reflexivity.
Defined.

(** ** C8 *)

Lemma is_ssb_true m : is_ssb m = true ↔ m = LSB ∨ m = USB.
Proof. destruct m; simpl; split; intros H; try done; try (by left); try (by right); by destruct H. Qed.

Lemma on_pushButton_Ok s b :
  band_get (band s) (bandIdx s) = Some b →
  ∃ t, on_pushButton s
       = Ok tt (if is_ssb (currentMode s) then set_bfoOn (negb (bfoOn s)) s else s) t.
Proof.
  intros Hb. unfold on_pushButton. rewrite bind_gets.
  destruct (is_ssb (currentMode s)) eqn:Hm; simpl; [|by eexists].
  rewrite bind_modify, bind_gets. simpl.
  assert (band_get (band (set_bfoOn (negb (bfoOn s)) s)) (bandIdx (set_bfoOn (negb (bfoOn s)) s))
          = Some b) as Hb1 by done.
  destruct (negb (bfoOn s)); simpl.
  - unfold showBFO, screen. rewrite bind_emit, (showStatus_Ok _ _ Hb1). by eexists.
  - rewrite bind_ret, (showStatus_Ok _ _ Hb1). by eexists.
Qed.

(** C8.  In every state reached from power-on, [bfoOn] is true only in LSB
    or USB, so that whatever left the mode FM or AM also left [bfoOn] false;
    and the encoder push button, the one place that can set [bfoOn], toggles
    it in LSB and USB and changes nothing in FM and AM. *)
Theorem bfoOn_only_in_ssb s :
  reachable s →
  (bfoOn s = true → currentMode s = LSB ∨ currentMode s = USB)
  ∧ (currentMode s = FM ∨ currentMode s = AM → bfoOn s = false)
  ∧ ∃ s' t, on_pushButton s = Ok tt s' t
      ∧ (currentMode s = LSB ∨ currentMode s = USB →
           currentMode s' = currentMode s ∧ bfoOn s' = negb (bfoOn s))
      ∧ (currentMode s = FM ∨ currentMode s = AM → s' = s).
Proof.
  intros Hr. pose proof (reachable_Inv _ Hr) as HI.
  split; [|split].
  - intros Hon. apply is_ssb_true. by apply (inv_bfo _ HI).
  - intros Hm. destruct (bfoOn s) eqn:Hon; [|done].
    pose proof (inv_bfo _ HI Hon) as Hssb. by destruct Hm as [Hm|Hm]; rewrite Hm in Hssb.
  - destruct (Inv_entry _ HI) as [b Hb]. destruct (on_pushButton_Ok s b Hb) as [t Ht].
    eexists _, t. split; [exact Ht|]. split.
    + intros Hm. apply is_ssb_true in Hm. by rewrite Hm.
    + intros [Hm|Hm]; by rewrite Hm.
Qed.

Lemma bfoOn_only_in_ssb_witness :
  ∃ s, reachable s ∧ bfoOn s = true ∧ (currentMode s = LSB ∨ currentMode s = USB).
Proof.
  eexists. split; [|split].
  - eapply (reachable_play 17 10390 ssb_session); vm_compute; reflexivity.
  - reflexivity.
  - apply bfoOn_only_in_ssb; [|reflexivity].
    eapply (reachable_play 17 10390 ssb_session); vm_compute; reflexivity.
Defined.

(** ** C6 *)

Lemma elem_of_useBand_log_setSSB b s :
  Band.bandType b ≠ FM_BAND_TYPE → ssbLoaded s = true →
  Radio (si4735.setSSB (Band.minimumFreq b) (Band.maximumFreq b) (Band.currentFreq b)
           (Band.currentStep b) (mode_code (currentMode s))) ∈ useBand_log b s.
Proof.
  intros Ht Hld. unfold useBand_log. rewrite Hld.
  destruct (Z.eqb_spec (Band.bandType b) FM_BAND_TYPE); [done|].
  apply elem_of_app. left. apply elem_of_app. right. apply elem_of_app. left.
  apply list_elem_of_here.
Qed.

Lemma useBand_log_no_patch b s : Forall (λ e, ¬ patch_command e) (useBand_log b s).
Proof.
  unfold useBand_log, showStatus_log.
  repeat match goal with |- context [if ?c then _ else _] => destruct c end;
    simpl; repeat constructor; simpl; tauto.
Qed.

Lemma patch_log_no_ssb bw : Forall (λ e, ¬ ssb_command e) (patch_log bw).
Proof. unfold patch_log. repeat constructor; simpl; tauto. Qed.

(** C6.  In a state reached from power-on, outside FM and with [ssbLoaded]
    false, the LSB (or USB) button first runs the patch loader, whose calls
    are, in this order, reset, queryLibraryId, patchPowerUp, setI2CFastMode,
    downloadPatch, setI2CStandardMode and setSSBConfig, after which
    [ssbLoaded] is true while the mode is still AM; only then does the mode
    become LSB (or USB) and is the radio tuned in SSB.  No SSB or BFO call
    is among the calls of the loader, no call of the loader is repeated
    after them, and the pass of [loop] in which the button is pressed logs
    exactly these calls. *)
Theorem patch_loader_before_ssb side s :
  reachable s → side = LSB ∨ side = USB → currentMode s ≠ FM → ssbLoaded s = false →
  ∃ s1 s' rest b,
    loadSSB s = Ok tt s1 (patch_log (bwIdxSSB s))
    ∧ patch_log (bwIdxSSB s)
      = [Radio si4735.reset; Radio si4735.queryLibraryId; Radio si4735.patchPowerUp;
         Radio si4735.setI2CFastMode; Radio si4735.downloadPatch;
         Radio si4735.setI2CStandardMode; Radio (si4735.setSSBConfig (bwIdxSSB s) 1 0 0 0 1)]
    ∧ ssbLoaded s1 = true ∧ currentMode s1 = AM
    ∧ on_bSSB side s = Ok tt s' (patch_log (bwIdxSSB s) ++ rest)
    ∧ currentMode s' = side ∧ ssbLoaded s' = true
    ∧ Forall (λ e, ¬ ssb_command e) (patch_log (bwIdxSSB s))
    ∧ Forall (λ e, ¬ patch_command e) rest
    ∧ band_get (band s) (bandIdx s) = Some b
    ∧ Radio (si4735.setSSB (Band.minimumFreq b) (Band.maximumFreq b) (currentFrequency s)
               (currentStep s) (mode_code side)) ∈ rest
    ∧ (encoderCount s = 0 →
       loop (press (if decide (side = LSB) then BLSB else BUSB)) s
       = Ok tt s' (patch_log (bwIdxSSB s) ++ rest)).
Proof.
  intros Hr Hside Hm Hld. pose proof (reachable_Inv _ Hr) as HI.
  destruct (Inv_entry _ HI) as [b Hb].
  destruct (layout_get _ _ _ (inv_layout _ HI) Hb) as [Hi Ht].
  assert (bandIdx s ≠ 0) as Hnz by (intros H0; by apply Hm, (inv_fm _ HI)).
  assert (Band.bandType b ≠ FM_BAND_TYPE) as Hnfm.
  { rewrite Ht. destruct (type_at_cases (bandIdx s)) as [[? ?]|[[? ->]|[[? ->]|[? ->]]]];
      [lia|lia|done..]. }
  assert (currentMode s = AM) as Ham.
  { pose proof (inv_ssb _ HI) as Hs. rewrite Hld in Hs. by destruct (currentMode s). }
  pose proof (on_bSSB_Ok side s b Hm Hb) as Hrun. simpl in Hrun. rewrite Hld in Hrun.
  set (s1 := set_currentMode side (set_ssbLoaded true s)) in *.
  assert (currentMode (tuned (persisted b s) (saved b s1)) = side
          ∧ ssbLoaded (tuned (persisted b s) (saved b s1)) = true) as [Hmode Hloaded].
  { unfold tuned. simpl. destruct (Z.eqb_spec (Band.bandType b) FM_BAND_TYPE); [done|].
    by destruct (_ || _). }
  exists (set_ssbLoaded true s), (tuned (persisted b s) (saved b s1)),
    (useBand_log (persisted b s) (saved b s1)), b.
  repeat split; try done.
  - apply patch_log_no_ssb.
  - apply useBand_log_no_patch.
  - assert (mode_code side = mode_code (currentMode (saved b s1))) as -> by done.
    by apply (elem_of_useBand_log_setSSB (persisted b s) (saved b s1)).
  - intros He. apply loop_press_Ok; [done| |].
    + by destruct Hside as [-> | ->].
    + rewrite Hmode. by destruct Hside as [-> | ->].
Qed.

Lemma patch_loader_before_ssb_witness :
  ∃ s s' rest,
    reachable s ∧ currentMode s ≠ FM ∧ ssbLoaded s = false
    ∧ on_bSSB LSB s = Ok tt s' (patch_log (bwIdxSSB s) ++ rest) ∧ currentMode s' = LSB.
Proof.
  assert (∃ s, reachable s ∧ currentMode s ≠ FM ∧ ssbLoaded s = false) as (s & Hr & Hm & Hld).
  { eexists. split; [|split].
    - eapply (reachable_play 17 10390 [Pass (press BSW)]); vm_compute; reflexivity.
    - done.
    - reflexivity. }
  destruct (patch_loader_before_ssb LSB s Hr (or_introl eq_refl) Hm Hld)
    as (s1 & s' & rest & b & _ & _ & _ & _ & Hrun & Hmode & _).
  by exists s, s', rest.
Defined.

(** ** C7 *)

(** C7, as the code has it.  In a state reached from power-on, outside FM
    and outside BFO adjustment, the step button moves the step from 1 to 5,
    from 5 to 10, from 10 to 100, from 100 to 500 on the last entry of the
    band table (the all-HF band) and to 1 on any other, and from 500 to 1;
    it stores the new step in the active band and sets the seek spacing to
    the smaller of the new step and 10.  In FM the same button toggles
    stereo instead: the step and the band table stay as they are and the
    one call sent is [setFmStereoOn] or [setFmStereoOff], no seek spacing. *)
Theorem step_button_cycle s :
  reachable s →
  (currentMode s ≠ FM → bfoOn s = false →
   ∃ s' t b',
     on_bStep s = Ok tt s' t
     ∧ (currentStep s = 1 → currentStep s' = 5)
     ∧ (currentStep s = 5 → currentStep s' = 10)
     ∧ (currentStep s = 10 → currentStep s' = 100)
     ∧ (currentStep s = 100 → bandIdx s = lastBand → currentStep s' = 500)
     ∧ (currentStep s = 100 → bandIdx s ≠ lastBand → currentStep s' = 1)
     ∧ (currentStep s = 500 → currentStep s' = 1)
     ∧ Radio (si4735.setSeekAmSpacing (Z.min (currentStep s') 10)) ∈ t
     ∧ Radio (si4735.setFrequencyStep (currentStep s')) ∈ t
     ∧ bandIdx s' = bandIdx s
     ∧ band_get (band s') (bandIdx s') = Some b' ∧ Band.currentStep b' = currentStep s')
  ∧ (currentMode s = FM →
     ∃ s' t,
       on_bStep s = Ok tt s' t
       ∧ currentStep s' = currentStep s ∧ band s' = band s ∧ bandIdx s' = bandIdx s
       ∧ fmStereo s' = negb (fmStereo s)
       ∧ t = [Radio (if fmStereo s' then si4735.setFmStereoOn else si4735.setFmStereoOff)]
       ∧ ∀ spacing, Radio (si4735.setSeekAmSpacing spacing) ∉ t).
Proof.
  intros Hr. split.
  - intros Hm Hbfo. pose proof (reachable_Inv _ Hr) as HI.
    destruct (Inv_entry _ HI) as [b Hb].
    assert (bfoOn s && is_ssb (currentMode s) = false) as Hc by by rewrite Hbfo.
    eexists _, _, _. split; [by apply (on_bStep_Ok s b)|].
    simpl. unfold step_after.
    repeat split.
    + by intros ->.
    + by intros ->.
    + by intros ->.
    + intros -> ->. done.
    + intros -> Hn. simpl. by destruct (Z.eqb_spec (bandIdx s) lastBand).
    + by intros ->.
    + assert ((if step_after s >? 10 then 10 else step_after s) = Z.min (step_after s) 10)
        as Hmin by (destruct (Z.gtb_spec (step_after s) 10); lia).
      unfold step_after in Hmin. rewrite <- Hmin.
      apply list_elem_of_further, list_elem_of_here.
    + apply list_elem_of_here.
    + rewrite (band_get_insert _ _ _ b); [|done]. by rewrite Z.eqb_refl.
    + done.
  - intros Hm. unfold on_bStep. rewrite bind_gets, Hm. simpl.
    rewrite bind_modify, bind_gets. simpl.
    destruct (fmStereo s); simpl; eexists _, _; (split; [reflexivity|]);
      simpl; (do 5 (split; [done|])); intros spacing Hin;
      apply list_elem_of_singleton in Hin; discriminate.
Qed.

Lemma step_button_cycle_witness :
  ∃ s s' t, reachable s ∧ currentMode s ≠ FM ∧ bfoOn s = false ∧ currentStep s = 5
    ∧ on_bStep s = Ok tt s' t ∧ currentStep s' = 10.
Proof.
  assert (∃ s, reachable s ∧ currentMode s ≠ FM ∧ bfoOn s = false ∧ currentStep s = 5)
    as (s & Hr & Hm & Hb & Hs).
  { eexists. split; [|split; [|split]].
    - eapply (reachable_play 17 10390 [Pass (press BSW)]); vm_compute; reflexivity.
    - done.
    - reflexivity.
    - reflexivity. }
  destruct (proj1 (step_button_cycle s Hr) Hm Hb) as (s' & t & b' & Hrun & _ & H5 & _).
  exists s, s', t. repeat split; try done. by apply H5.
Defined.

(** C7 as stated fails in FM.  After [setup] the mode is FM, the BFO
    adjustment is off and the step is 10; the pass of [loop] in which the
    step button is pressed leaves the step at 10, not 100, turns stereo off
    and sends no seek spacing. *)
Lemma step_button_in_FM_counterexample :
  ∃ s0 t0 s' t,
    setup 17 10390 power_on = Ok tt s0 t0
    ∧ currentMode s0 = FM ∧ bfoOn s0 = false ∧ currentStep s0 = 10 ∧ fmStereo s0 = true
    ∧ loop (press BStep) s0 = Ok tt s' t
    ∧ currentStep s' = 10 ∧ fmStereo s' = false
    ∧ t = [Radio si4735.setFmStereoOff; Radio si4735.getRdsStatus]
    ∧ ∀ spacing, Radio (si4735.setSeekAmSpacing spacing) ∉ t.
Proof.
  eexists _, _, _, _. split; [vm_compute; reflexivity|].
  do 4 (split; [reflexivity|]). split; [vm_compute; reflexivity|].
  do 3 (split; [reflexivity|]). intros spacing.
  repeat (apply not_elem_of_cons; split; [discriminate|]). apply not_elem_of_nil.
Qed.


(** ** C1 *)

#[global] Instance keeps_agc_closed : Closed keeps_agc.
Proof. split; unfold keeps_agc; auto. Qed.

Lemma frames_agc_keeps {A} (m : M A) : obeys (frames agc_view any_event) m → obeys keeps_agc m.
Proof.
  apply obeys_impl. intros s t s' [[= Hi Hd Hn] _]. unfold keeps_agc, agc_ok, agc_view.
  by rewrite Hi, Hd, Hn.
Qed.

Lemma agcIdx_cases k : 0 ≤ k ≤ 9 →
  k = 0 ∨ k = 1 ∨ k = 2 ∨ k = 3 ∨ k = 4 ∨ k = 5 ∨ k = 6 ∨ k = 7 ∨ k = 8 ∨ k = 9.
Proof. lia. Qed.

Lemma on_bAGC_Ok s b :
  0 ≤ agcIdx s ≤ 9 → band_get (band s) (bandIdx s) = Some b →
  on_bAGC s
  = Ok tt (agc_pressed s)
      ([Radio (si4735.setAutomaticGainControl (disableAgc (agc_pressed s))
                 (agcNdx (agc_pressed s)))] ++ showStatus_log s).
Proof.
  intros Hk Hb. unfold on_bAGC, agcLadder, agc_pressed. rewrite bind_assoc, bind_gets.
  destruct (agcIdx_cases _ Hk) as [H|[H|[H|[H|[H|[H|[H|[H|[H|H]]]]]]]]]; rewrite H; simpl;
    repeat mstep; unfold radio; rewrite bind_emit;
    (erewrite showStatus_Ok; [reflexivity|exact Hb]).
Qed.

Lemma mod10_range x : 0 ≤ x mod 10 ≤ 9.
Proof. pose proof (Z.mod_pos_bound x 10). lia. Qed.

Lemma agc_pressed_idx s : 0 ≤ agcIdx s ≤ 9 → agcIdx (agc_pressed s) = (agcIdx s + 1) mod 10.
Proof.
  intros Hk. unfold agc_pressed.
  destruct (agcIdx_cases _ Hk) as [H|[H|[H|[H|[H|[H|[H|[H|[H|H]]]]]]]]]; by rewrite H.
Qed.

Lemma agc_pressed_pair s : 0 ≤ agcIdx s ≤ 9 →
  agc_branch !! Z.to_nat (agcIdx s) = Some (disableAgc (agc_pressed s), agcNdx (agc_pressed s)).
Proof.
  intros Hk. unfold agc_pressed.
  destruct (agcIdx_cases _ Hk) as [H|[H|[H|[H|[H|[H|[H|[H|[H|H]]]]]]]]]; by rewrite H.
Qed.

Lemma agc_pressed_core s : core (agc_pressed s) = core s.
Proof. unfold agc_pressed. destruct (_ !! _) as [[d n]|]; reflexivity. Qed.

Lemma agc_pressed_ok s : 0 ≤ agcIdx s ≤ 9 → agc_ok (agc_pressed s).
Proof.
  intros Hk. pose proof (agc_pressed_idx s Hk) as Hi. pose proof (agc_pressed_pair s Hk) as Hp.
  split; [rewrite Hi; apply mod10_range|]. right. rewrite Hi, <- Hp. f_equal. f_equal.
  destruct (agcIdx_cases _ Hk) as [H|[H|[H|[H|[H|[H|[H|[H|[H|H]]]]]]]]]; by rewrite H.
Qed.

Lemma on_bAGC_agc : obeys keeps_agc on_bAGC.
Proof.
  intros s [] s' t Hrun [Hk _]. unfold on_bAGC in Hrun.
  apply bind_inv in Hrun as ([] & s1 & t1 & t2 & H1 & H2 & ->).
  assert (s1 = agc_pressed s) as ->.
  { unfold agcLadder, agc_pressed in *. rewrite bind_gets in H1.
    destruct (agcIdx_cases _ Hk) as [H|[H|[H|[H|[H|[H|[H|[H|[H|H]]]]]]]]];
      rewrite H in *; simpl in H1; by injection H1 as <- _. }
  assert (obeys (frames agc_view any_event)
            (d ← gets disableAgc; n ← gets agcNdx;
             radio (si4735.setAutomaticGainControl d n);; showStatus)) as Hfr by frames_auto.
  destruct (Hfr _ _ _ _ H2) as [[= Hi Hd Hn] _].
  pose proof (agc_pressed_ok s Hk) as Hok. unfold agc_ok, agc_view in *.
  by rewrite Hi, Hd, Hn.
Qed.

Lemma loop_agc i : obeys keeps_agc (loop i).
Proof.
  unfold loop.
  repeat (simple apply obeys_bind; [apply _| |intros []]);
    try (simple apply obeys_when; [apply _|]);
    first [simple apply on_bAGC_agc | apply frames_agc_keeps; frames_auto].
Qed.

Lemma reachable_agc s : reachable s → agc_ok s.
Proof.
  intros [t Ht]. induction Ht as [addr freq s t Hs|x s t s' t' _ IH Hx].
  - assert (obeys (frames agc_view any_event) (setup addr freq)) as Hfr by frames_auto.
    destruct (Hfr _ _ _ _ Hs) as [[= Hi Hd Hn] _]. unfold agc_ok, agc_view.
    rewrite Hi, Hd, Hn. simpl. split; [lia|by left].
  - destruct x as [i|d status]; simpl in Hx.
    + by eapply loop_agc.
    + injection Hx as <- _. unfold rotaryEncoder. by repeat destruct (_ =? _).
Qed.

Lemma times_on_bAGC n : ∀ s,
  Inv s → 0 ≤ agcIdx s ≤ 9 →
  ∃ t, times n on_bAGC s = Ok tt (Nat.iter n agc_pressed s) t
       ∧ agcIdx (Nat.iter n agc_pressed s) = (agcIdx s + Z.of_nat n) mod 10
       ∧ ((0 < n)%nat →
          agc_branch !! Z.to_nat ((agcIdx s + Z.of_nat n + 9) mod 10)
          = Some (disableAgc (Nat.iter n agc_pressed s), agcNdx (Nat.iter n agc_pressed s))).
Proof.
  induction n as [|n IH]; intros s HI Hk.
  - exists []. split; [done|]. split; [|lia]. simpl. rewrite Z.add_0_r, Z.mod_small; lia.
  - destruct (Inv_entry _ HI) as [b Hb].
    assert (Inv (agc_pressed s)) as HI' by (apply (Inv_core s); [apply agc_pressed_core|done]).
    pose proof (agc_pressed_idx s Hk) as Hi.
    assert (0 ≤ agcIdx (agc_pressed s) ≤ 9) as Hk' by (rewrite Hi; apply mod10_range).
    destruct (IH _ HI' Hk') as (t & Hrun & Hidx & Hpair).
    eexists. unfold times in *. simpl replicate. simpl each.
    rewrite (bind_Ok _ _ _ _ _ _ (on_bAGC_Ok s b Hk Hb)), Hrun. simpl prepend.
    rewrite Nat.iter_succ_r. split; [reflexivity|]. split.
    + rewrite Hidx, Hi. rewrite Zplus_mod_idemp_l. f_equal. lia.
    + intros _. destruct n as [|n].
      * simpl. rewrite <- (agc_pressed_pair s Hk). f_equal. f_equal.
        replace (agcIdx s + Z.of_nat 1 + 9) with (agcIdx s + 1 * 10) by lia.
        rewrite Z_mod_plus_full. apply Z.mod_small. lia.
      * rewrite <- Hpair by lia. f_equal. f_equal. rewrite Hi.
        rewrite <- (Z.add_assoc ((agcIdx s + 1) mod 10)), Zplus_mod_idemp_l. f_equal. lia.
Qed.

Lemma agc_pair_10 s : agc_ok s → disableAgc s = 1 → agcNdx s = 10 → agcIdx s = 4.
Proof.
  intros [Hk [Hv|Hp]] Hd Hn.
  - unfold agc_view in Hv. congruence.
  - rewrite Hd, Hn in Hp.
    destruct (agcIdx_cases _ Hk) as [H|[H|[H|[H|[H|[H|[H|[H|[H|H]]]]]]]]];
      rewrite H in Hp; simpl in Hp; congruence.
Qed.

Lemma agc_idx_3 s : agc_ok s → agcIdx s = 3 → disableAgc s = 1 ∧ agcNdx s = 5.
Proof.
  intros [Hk [Hv|Hp]] Hi.
  - unfold agc_view in Hv. congruence.
  - rewrite Hi in Hp. simpl in Hp. by injection Hp as <- <-.
Qed.

(** C1, as the code has it.  In every state reached from power-on [agcIdx]
    is between 0 and 9 and names the branch the next press takes.  One press
    applies the pair of that branch, (enabled, 0) at 0 and (disabled) with
    attenuations 0, 5, 10, 15, 20, 25, 30, 35, 0 at 1 to 9, sends it to the
    radio and advances [agcIdx] by one modulo 10; so after [n] presses the
    pair in force is that of branch [agcIdx + n - 1] modulo 10.  From the
    state in which (disabled, 10) is in force, where [agcIdx] is 4, seven
    presses end with (enabled, 0) in force and [agcIdx] 1; from [agcIdx] 3,
    where (disabled, 5) is in force, seven presses bring [agcIdx] back to 0
    with attenuation 0. *)
Theorem agc_ladder s :
  reachable s →
  0 ≤ agcIdx s ≤ 9
  ∧ (∃ s' t, on_bAGC s = Ok tt s' t
       ∧ agcIdx s' = (agcIdx s + 1) mod 10
       ∧ agc_branch !! Z.to_nat (agcIdx s) = Some (disableAgc s', agcNdx s')
       ∧ Radio (si4735.setAutomaticGainControl (disableAgc s') (agcNdx s')) ∈ t)
  ∧ (∀ n, (0 < n)%nat →
       ∃ s' t, times n on_bAGC s = Ok tt s' t
         ∧ agcIdx s' = (agcIdx s + Z.of_nat n) mod 10
         ∧ agc_branch !! Z.to_nat ((agcIdx s + Z.of_nat n + 9) mod 10)
           = Some (disableAgc s', agcNdx s'))
  ∧ (disableAgc s = 1 → agcNdx s = 10 →
       agcIdx s = 4
       ∧ ∃ s' t, times 7 on_bAGC s = Ok tt s' t
           ∧ disableAgc s' = 0 ∧ agcNdx s' = 0 ∧ agcIdx s' = 1)
  ∧ (agcIdx s = 3 →
       disableAgc s = 1 ∧ agcNdx s = 5
       ∧ ∃ s' t, times 7 on_bAGC s = Ok tt s' t ∧ agcIdx s' = 0 ∧ agcNdx s' = 0).
Proof.
  intros Hr. pose proof (reachable_Inv _ Hr) as HI. pose proof (reachable_agc _ Hr) as Hok.
  destruct Hok as [Hk Hpair]. destruct (Inv_entry _ HI) as [b Hb].
  assert (∀ n, (0 < n)%nat →
       ∃ s' t, times n on_bAGC s = Ok tt s' t
         ∧ agcIdx s' = (agcIdx s + Z.of_nat n) mod 10
         ∧ agc_branch !! Z.to_nat ((agcIdx s + Z.of_nat n + 9) mod 10)
           = Some (disableAgc s', agcNdx s')) as Hn.
  { intros n Hpos. destruct (times_on_bAGC n s HI Hk) as (t & Hrun & Hi & Hp).
    eexists _, t. split; [exact Hrun|]. split; [exact Hi|]. by apply Hp. }
  split; [done|]. split; [|split; [done|split]].
  - eexists _, _. split; [by apply (on_bAGC_Ok s b)|].
    split; [by apply agc_pressed_idx|]. split; [by apply agc_pressed_pair|].
    apply list_elem_of_here.
  - intros Hd Hatt. pose proof (agc_pair_10 s (conj Hk Hpair) Hd Hatt) as H4.
    split; [done|]. destruct (Hn 7%nat ltac:(lia)) as (s' & t & Hrun & Hi & Hp).
    rewrite H4 in Hi, Hp. simpl in Hi, Hp. injection Hp as Hd' Hn'. by exists s', t.
  - intros H3. destruct (agc_idx_3 s (conj Hk Hpair) H3) as [Hd Hatt].
    split; [done|]. split; [done|].
    destruct (Hn 7%nat ltac:(lia)) as (s' & t & Hrun & Hi & Hp).
    rewrite H3 in Hi, Hp. simpl in Hi, Hp. injection Hp as _ Hn'. by exists s', t.
Qed.

Lemma agc_ladder_witness :
  ∃ s s' t, reachable s ∧ disableAgc s = 1 ∧ agcNdx s = 10 ∧ agcIdx s = 4
    ∧ times 7 on_bAGC s = Ok tt s' t ∧ disableAgc s' = 0 ∧ agcNdx s' = 0 ∧ agcIdx s' = 1.
Proof.
  assert (∃ s, reachable s ∧ disableAgc s = 1 ∧ agcNdx s = 10) as (s & Hr & Hd & Hn).
  { eexists. split; [|split].
    - eapply (reachable_play 17 10390 (agc_presses 4)); vm_compute; reflexivity.
    - reflexivity.
    - reflexivity. }
  destruct (agc_ladder s Hr) as (_ & _ & _ & H10 & _).
  destruct (H10 Hd Hn) as (H4 & s' & t & Hrun & ? & ? & ?).
  by exists s, s', t.
Defined.

(** C1 as stated fails.  Three presses after power-on reach [agcIdx] 3 with
    (disabled, 5) in force, not (disabled, 10); seven more bring [agcIdx]
    back to 0 with attenuation 0 but AGC disabled.  Four presses reach
    (disabled, 10), and seven more reach (enabled, 0) with [agcIdx] 1, not 0.
    And the pairs of the ten branches are not the ladder of the
    specification. *)
Lemma agc_seven_presses_counterexample :
  ∃ s3 t3 s10 t10 s4 t4 s11 t11,
    (setup 17 10390;; play (agc_presses 3)) power_on = Ok tt s3 t3
    ∧ agc_view s3 = (3, 1, 5)
    ∧ play (agc_presses 7) s3 = Ok tt s10 t10
    ∧ agc_view s10 = (0, 1, 0)
    ∧ (setup 17 10390;; play (agc_presses 4)) power_on = Ok tt s4 t4
    ∧ agc_view s4 = (4, 1, 10)
    ∧ play (agc_presses 7) s4 = Ok tt s11 t11
    ∧ agc_view s11 = (1, 0, 0)
    ∧ agc_branch ≠ claimed_ladder.
Proof.
  eexists _, _, _, _, _, _, _, _.
  split; [vm_compute; reflexivity|]. split; [reflexivity|].
  split; [vm_compute; reflexivity|]. split; [reflexivity|].
  split; [vm_compute; reflexivity|]. split; [reflexivity|].
  split; [vm_compute; reflexivity|]. split; [reflexivity|].
  discriminate.
Qed.

(** ** C2 *)

Lemma elem_of_useBand_log_setAM b s :
  Band.bandType b ≠ FM_BAND_TYPE → ssbLoaded s = false →
  Radio (si4735.setAM (Band.minimumFreq b) (Band.maximumFreq b) (Band.currentFreq b)
           (Band.currentStep b)) ∈ useBand_log b s.
Proof.
  intros Ht Hld. unfold useBand_log. rewrite Hld.
  destruct (Z.eqb_spec (Band.bandType b) FM_BAND_TYPE); [done|].
  apply elem_of_app. left. apply elem_of_app. right. apply elem_of_app. left.
  apply list_elem_of_here.
Qed.

Lemma moved_AM_tuned i b s b' :
  Band.bandType b' ≠ FM_BAND_TYPE →
  let s' := tuned b' (moved_AM i b s) in
  bandIdx s' = i ∧ currentMode s' = AM ∧ ssbLoaded s' = false ∧ bfoOn s' = false
  ∧ band s' = <[Z.to_nat (bandIdx s) := persisted b s]> (band s)
  ∧ currentFrequency s' = Band.currentFreq b' ∧ currentStep s' = Band.currentStep b'.
Proof.
  intros Ht. unfold tuned. simpl.
  destruct (Z.eqb_spec (Band.bandType b') FM_BAND_TYPE); [done|].
  by destruct (_ || _).
Qed.

(** C2, as the code has it.  In FM the AM, LSB, USB and FM buttons do
    nothing: each tests [currentMode != FM].  The MW and SW shortcuts carry
    no such test: pressed in FM they write the FM frequency and step back to
    [band[0]], select band 2 (MW) or band [lastSwBand] (SW), leave the mode
    AM with [ssbLoaded] and [bfoOn] false, load the tuning persisted for
    that band and program the radio for it through [useBand]. *)
Theorem shortcuts_in_FM s :
  reachable s → currentMode s = FM →
  on_bAM s = Ok tt s [] ∧ on_bSSB LSB s = Ok tt s [] ∧ on_bSSB USB s = Ok tt s []
  ∧ on_bFM s = Ok tt s []
  ∧ ∃ b0, band_get (band s) 0 = Some b0 ∧ bandIdx s = 0
    ∧ (∃ b' s' t, on_bMW s = Ok tt s' t
         ∧ bandIdx s' = 2 ∧ currentMode s' = AM ∧ ssbLoaded s' = false ∧ bfoOn s' = false
         ∧ band s' = <[0%nat := persisted b0 s]> (band s)
         ∧ band_get (band s') 2 = Some b'
         ∧ currentFrequency s' = Band.currentFreq b' ∧ currentStep s' = Band.currentStep b'
         ∧ Radio (si4735.setAM (Band.minimumFreq b') (Band.maximumFreq b')
                    (Band.currentFreq b') (Band.currentStep b')) ∈ t)
    ∧ (∃ b' s' t, on_bSW s = Ok tt s' t
         ∧ bandIdx s' = lastSwBand s ∧ currentMode s' = AM ∧ ssbLoaded s' = false
         ∧ bfoOn s' = false
         ∧ band s' = <[0%nat := persisted b0 s]> (band s)
         ∧ band_get (band s') (lastSwBand s) = Some b'
         ∧ currentFrequency s' = Band.currentFreq b' ∧ currentStep s' = Band.currentStep b'
         ∧ Radio (si4735.setAM (Band.minimumFreq b') (Band.maximumFreq b')
                    (Band.currentFreq b') (Band.currentStep b')) ∈ t).
Proof.
  intros Hr Hm. pose proof (reachable_Inv _ Hr) as HI.
  assert (bandIdx s = 0) as H0 by by apply (inv_fm _ HI).
  destruct (Inv_entry _ HI) as [b Hb].
  assert (∀ i, 3 ≤ i ≤ lastBand ∨ i = 2 →
    ∃ b', band_get (band (saved b s)) i = Some b' ∧ Band.bandType b' ≠ FM_BAND_TYPE) as Hentry.
  { intros i Hi. assert (0 ≤ i ≤ lastBand) as Hi' by (rewrite lastBand_eq in *; lia).
    destruct (saved_entry s b i HI Hb Hi') as [b' Hb']. exists b'. split; [done|].
    destruct (layout_get _ _ _ (saved_layout s b (inv_layout _ HI) Hb) Hb') as [_ ->].
    destruct (type_at_cases i) as [[? ?]|[[? ->]|[[? ->]|[? ->]]]]; try done; lia. }
  repeat split; try (by apply guarded_noop).
  exists b. rewrite <- H0 at 1. split; [done|]. split; [done|]. split.
  - destruct (Hentry 2) as (b' & Hb' & Ht); [by right|].
    exists b', (tuned b' (moved_AM 2 b s)), (useBand_log b' (moved_AM 2 b s)).
    split; [by apply on_bMW_Ok|].
    destruct (moved_AM_tuned 2 b s b' Ht) as (?&?&?&?&Hband&?&?).
    rewrite H0 in Hband. repeat split; try done.
    + by rewrite Hband, <- H0.
    + by apply elem_of_useBand_log_setAM.
  - destruct (Hentry (lastSwBand s)) as (b' & Hb' & Ht); [left; apply HI|].
    exists b', (tuned b' (moved_AM (lastSwBand s) b s)),
      (useBand_log b' (moved_AM (lastSwBand s) b s)).
    split; [by apply on_bSW_Ok|].
    destruct (moved_AM_tuned (lastSwBand s) b s b' Ht) as (?&?&?&?&Hband&?&?).
    rewrite H0 in Hband. repeat split; try done.
    + by rewrite Hband, <- H0.
    + by apply elem_of_useBand_log_setAM.
Qed.

Lemma shortcuts_in_FM_witness :
  ∃ s s' t, reachable s ∧ currentMode s = FM ∧ on_bAM s = Ok tt s []
    ∧ on_bMW s = Ok tt s' t ∧ bandIdx s' = 2 ∧ currentMode s' = AM.
Proof.
  assert (∃ s, reachable s ∧ currentMode s = FM) as (s & Hr & Hm).
  { eexists. split.
    - eapply (reachable_play 17 10390 []); vm_compute; reflexivity.
    - reflexivity. }
  destruct (shortcuts_in_FM s Hr Hm)
    as (Ham & _ & _ & _ & b0 & _ & _ & (b' & s' & t & Hrun & Hi & Hmode & _) & _).
  by exists s, s', t.
Defined.

(** C2 as stated fails: after [setup], in FM, the pass of [loop] in which
    the MW button is pressed leaves band 2 active in AM and has programmed
    the radio for it. *)
Lemma mw_shortcut_in_FM_counterexample :
  ∃ s0 t0 s' t,
    setup 17 10390 power_on = Ok tt s0 t0 ∧ currentMode s0 = FM ∧ bandIdx s0 = 0
    ∧ loop (press BMW) s0 = Ok tt s' t
    ∧ bandIdx s' = 2 ∧ currentMode s' = AM ∧ currentFrequency s' = 810
    ∧ Radio (si4735.setAM 520 1720 810 10) ∈ t.
Proof.
  eexists _, _, _, _.
  split; [vm_compute; reflexivity|]. split; [reflexivity|]. split; [reflexivity|].
  split; [vm_compute; reflexivity|]. split; [reflexivity|]. split; [reflexivity|].
  split; [reflexivity|].
  apply list_elem_of_further, list_elem_of_here.
Qed.

(** ** C10 *)

Lemma clearRDS_null s :
  stationName s = None ∨ rdsMsg s = None ∨ rdsTime s = None → clearRDS s = Fault NullPointer.
Proof.
  intros H. unfold clearRDS, screen. rewrite bind_emit, bind_gets.
  destruct (stationName s) eqn:E1; simpl; [|done].
  rewrite bind_ret, bind_modify, bind_gets. simpl.
  destruct (rdsMsg s) eqn:E2; simpl; [|done].
  rewrite bind_ret, !bind_modify, bind_gets. simpl.
  destruct (rdsTime s) eqn:E3; simpl; [|done].
  by destruct H as [?|[?|?]].
Qed.


(** C10: the code at the failing input.  After [setup] the three RDS
    pointers are still null; one notch of the encoder in FM, answered by the
    radio with a new frequency, makes the same pass of [loop] store a NUL
    through them. *)
Theorem rds_clear_through_null_pointer :
  ∃ s0 t0,
    setup 17 10390 power_on = Ok tt s0 t0
    ∧ rdsMsg s0 = None ∧ stationName s0 = None ∧ rdsTime s0 = None
    ∧ loop (turned 10400) (rotaryEncoder 16 16 s0) = Fault NullPointer.
Proof.
  eexists _, _. split; [vm_compute; reflexivity|].
  repeat split; vm_compute; reflexivity.
Qed.

(** ** Band selection: C3 and C4 *)

Lemma tuned_fields b s :
  band (tuned b s) = band s ∧ bandIdx (tuned b s) = bandIdx s
  ∧ currentFrequency (tuned b s) = Band.currentFreq b
  ∧ currentStep (tuned b s) = Band.currentStep b
  ∧ encoderCount (tuned b s) = encoderCount s.
Proof. unfold tuned. destruct (_ =? _); [done|]. destruct (_ || _); by destruct (ssbLoaded s). Qed.

Lemma tuned_reselected x b b' s :
  band_get (band s) (bandIdx s) = Some b →
  band x = band (saved b s) → band_get (band x) (bandIdx x) = Some b' →
  reselected s (tuned b' x).
Proof.
  intros Hb Hx Hb'. destruct (tuned_fields b' x) as (Hband & Hidx & Hf & Hs & _).
  exists b, b'. rewrite Hband, Hidx, Hx. by repeat split; try rewrite <- Hx.
Qed.

Lemma select_spec c s :
  Inv s →
  ∃ s' t, select c s = Ok tt s' t ∧ Inv s'
    ∧ ((c = ToFM ∧ currentMode s = FM ∧ s' = s)
       ∨ (reselected s s' ∧ bandIdx s' = target c s)).
Proof.
  intros HI. destruct (Inv_entry _ HI) as [b Hb].
  assert (∀ i, 0 ≤ i ≤ lastBand → ∃ b', band_get (band (saved b s)) i = Some b') as Hentry
    by (intros i Hi; by apply saved_entry).
  destruct c; simpl.
  - destruct (Hentry _ (next_band_range _ (inv_bandIdx _ HI))) as [b' Hb'].
    eexists _, _. split; [by apply (bandUp_Ok s b b')|].
    split; [by apply moved_Inv; [..|apply next_band_range, HI|]|]. right.
    split; [by apply (tuned_reselected _ b)|]. apply tuned_fields.
  - destruct (Hentry _ (previous_band_range _ (inv_bandIdx _ HI))) as [b' Hb'].
    eexists _, _. split; [by apply (bandDown_Ok s b b')|].
    split; [by apply moved_Inv; [..|apply previous_band_range, HI|]|]. right.
    split; [by apply (tuned_reselected _ b)|]. apply tuned_fields.
  - destruct (decide (currentMode s = FM)) as [Hm|Hm].
    { exists s, []. split; [by apply guarded_noop|]. split; [done|]. by left. }
    assert (0 ≤ 0 ≤ lastBand) as H0 by (rewrite lastBand_eq; lia).
    destruct (Hentry _ H0) as [b' Hb'].
    eexists _, _. split; [by apply (on_bFM_Ok s b b')|].
    split; [by apply moved_FM_Inv|]. right.
    split; [by apply (tuned_reselected _ b)|]. apply tuned_fields.
  - assert (0 ≤ 2 ≤ lastBand) as H2 by (rewrite lastBand_eq; lia).
    destruct (Hentry _ H2) as [b' Hb'].
    eexists _, _. split; [by apply (on_bMW_Ok s b b')|].
    split; [by apply moved_AM_Inv|]. right.
    split; [by apply (tuned_reselected _ b)|]. apply tuned_fields.
  - assert (0 ≤ lastSwBand s ≤ lastBand) as Hl by (pose proof (inv_lastSw _ HI); lia).
    destruct (Hentry _ Hl) as [b' Hb'].
    eexists _, _. split; [by apply (on_bSW_Ok s b b')|].
    split; [by apply moved_AM_Inv|]. right.
    split; [by apply (tuned_reselected _ b)|]. apply tuned_fields.
Qed.

Lemma reselected_tuning_table s s' : reselected s s' → tuning_table s' = tuning_table s.
Proof.
  intros (b & b' & Hb & Hband & Hb' & Hf & Hs). unfold tuning_table.
  rewrite Hf, Hs. rewrite list_insert_id.
  - by rewrite Hband, list_fmap_insert.
  - apply band_get_Some in Hb' as [_ Hb']. by rewrite list_lookup_fmap, Hb'.
Qed.

Lemma tuning_table_current s :
  Inv s → tuning_table s !! Z.to_nat (bandIdx s) = Some (currentFrequency s, currentStep s).
Proof.
  intros HI. unfold tuning_table. apply list_lookup_insert_eq. rewrite length_fmap.
  pose proof (layout_length _ (inv_layout _ HI)). pose proof (inv_bandIdx _ HI). lia.
Qed.

Lemma selects_spec cs : ∀ s,
  Inv s → ∃ s' t, each select cs s = Ok tt s' t ∧ Inv s' ∧ tuning_table s' = tuning_table s.
Proof.
  induction cs as [|c cs IH]; intros s HI.
  - by exists s, [].
  - destruct (select_spec c s HI) as (s1 & t1 & Hrun & HI1 & Hsel).
    destruct (IH s1 HI1) as (s' & t & Hrest & HI' & Htab).
    exists s', (t1 ++ t). simpl. rewrite (bind_Ok _ _ _ _ _ _ Hrun), Hrest.
    split; [done|]. split; [done|]. rewrite Htab.
    destruct Hsel as [(_ & _ & ->)|[Hsel _]]; [done|]. by apply reselected_tuning_table.
Qed.

Lemma all_in_range_table s :
  Inv s →
  all_in_range s ↔
  ∀ i b f st, band_get (band s) i = Some b → tuning_table s !! Z.to_nat i = Some (f, st) →
    in_range b f.
Proof.
  intros HI. pose proof (layout_length _ (inv_layout _ HI)) as Hlen.
  pose proof (inv_bandIdx _ HI) as Hidx.
  assert (∀ i b, band_get (band s) i = Some b →
    tuning_table s !! Z.to_nat i
    = Some (if i =? bandIdx s then currentFrequency s else Band.currentFreq b,
            if i =? bandIdx s then currentStep s else Band.currentStep b)) as Hlook.
  { intros i b Hb. apply band_get_Some in Hb as [Hi Hb]. unfold tuning_table.
    destruct (Z.eqb_spec i (bandIdx s)) as [->|Hne].
    - apply list_lookup_insert_eq. rewrite length_fmap. lia.
    - rewrite list_lookup_insert_ne by lia. by rewrite list_lookup_fmap, Hb. }
  split.
  - intros Hall i b f st Hb Ht. rewrite (Hlook i b Hb) in Ht. injection Ht as <- _.
    by apply Hall.
  - intros Hall i b Hb. eapply Hall; [done|]. by apply Hlook.
Qed.

Lemma reselected_in_range s s' :
  Inv s → Inv s' → reselected s s' → all_in_range s → all_in_range s'.
Proof.
  intros HI HI' Hsel Hall. pose proof (reselected_tuning_table _ _ Hsel) as Htab.
  apply (all_in_range_table s' HI'). intros i b1 f st Hb1 Ht. rewrite Htab in Ht.
  destruct Hsel as (b & b' & Hb & Hband & _).
  rewrite Hband, (band_get_insert _ _ _ b) in Hb1 by done.
  destruct (Z.eqb_spec i (bandIdx s)) as [->|Hne].
  - injection Hb1 as <-. by apply (proj1 (all_in_range_table s HI) Hall (bandIdx s) b f st).
  - by apply (proj1 (all_in_range_table s HI) Hall i b1 f st).
Qed.

(** C3, as the code has it.  A band selection (band up, band down, or a
    shortcut that is not the FM button pressed in FM) writes the current
    tuning back, moves to its target and loads, unchanged, the frequency
    persisted for the band it lands on: nothing is clamped.  So the loaded
    frequency lies between the limits of the new band exactly when the
    persisted one does; it does whenever every persisted frequency and the
    current one lay in their bands before, and that is then still so. *)
Theorem selection_loads_persisted c s :
  reachable s → ¬ (c = ToFM ∧ currentMode s = FM) →
  ∃ s' t b',
    select c s = Ok tt s' t
    ∧ bandIdx s' = target c s
    ∧ band_get (band s') (bandIdx s') = Some b'
    ∧ currentFrequency s' = Band.currentFreq b'
    ∧ (in_range b' (currentFrequency s') ↔ in_range b' (Band.currentFreq b'))
    ∧ (all_in_range s → all_in_range s' ∧ in_range b' (currentFrequency s')).
Proof.
  intros Hr Hnoop. pose proof (reachable_Inv _ Hr) as HI.
  destruct (select_spec c s HI) as (s' & t & Hrun & HI' & [(-> & Hm & _)|[Hsel Htarget]]).
  { exfalso. by apply Hnoop. }
  pose proof Hsel as (b & b' & Hb & Hband & Hb' & Hf & Hs).
  exists s', t, b'. do 4 (split; [done|]). split; [by rewrite Hf|].
  intros Hall. pose proof (reselected_in_range s s' HI HI' Hsel Hall) as Hall'.
  split; [done|]. specialize (Hall' _ _ Hb'). by rewrite Z.eqb_refl in Hall'.
Qed.

Lemma selection_loads_persisted_witness :
  ∃ s s' t b', reachable s ∧ all_in_range s
    ∧ select BandUp s = Ok tt s' t ∧ bandIdx s' = 1
    ∧ band_get (band s') (bandIdx s') = Some b'
    ∧ currentFrequency s' = Band.currentFreq b' ∧ in_range b' (currentFrequency s').
Proof.
  assert (∃ s, reachable s ∧ all_in_range s ∧ target BandUp s = 1) as (s & Hr & Hall & Ht).
  { eexists. split; [|split].
    - eapply (reachable_play 17 10390 []); vm_compute; reflexivity.
    - intros i b. unfold band_get. destruct (Z.ltb_spec i 0); [done|].
      rewrite <- (Z2Nat.id i) at 2 by done. generalize (Z.to_nat i) as n. intros n.
      do 21 (destruct n as [|n]; [intros [= <-]; vm_compute; split; discriminate|]).
      done.
    - reflexivity. }
  destruct (selection_loads_persisted BandUp s Hr) as (s' & t & b' & Hrun & Hi & Hb' & Hf & _ & Hin).
  { by intros [? _]. }
  exists s, s', t, b'. do 3 (split; [done|]). split; [congruence|].
  do 2 (split; [done|]). by apply Hin.
Defined.

(** C3 as stated fails.  On the LW band (100 to 510) with the step at 100,
    three notches of the encoder answered by the radio with 400, 500 and 600
    leave 600 as current frequency; band up writes 600 back to the LW entry
    and band down loads it again, unclamped, above the maximum 510. *)
Lemma selection_does_not_clamp_counterexample :
  ∃ s t b,
    (setup 17 10390;; play out_of_band_run) power_on = Ok tt s t
    ∧ bandIdx s = 1 ∧ band_get (band s) 1 = Some b
    ∧ Band.minimumFreq b = 100 ∧ Band.maximumFreq b = 510
    ∧ Band.currentFreq b = 600 ∧ currentFrequency s = 600
    ∧ ¬ in_range b (currentFrequency s).
Proof.
  eexists _, _, _. split; [vm_compute; reflexivity|].
  do 6 (split; [reflexivity|]). intros [_ H]. vm_compute in H. by apply H.
Qed.

Lemma persisted_in_sync b s :
  Band.currentFreq b = currentFrequency s → Band.currentStep b = currentStep s →
  persisted b s = b.
Proof. unfold persisted. intros <- <-. by destruct b. Qed.

Lemma saved_in_sync b s :
  band_get (band s) (bandIdx s) = Some b →
  Band.currentFreq b = currentFrequency s → Band.currentStep b = currentStep s →
  saved b s = s.
Proof.
  intros Hb Hf Hs. unfold saved. rewrite (persisted_in_sync b s Hf Hs).
  apply band_get_Some in Hb as [_ Hb]. rewrite (list_insert_id _ _ _ Hb). by destruct s.
Qed.

Lemma sw_type l i b :
  layout_ok l → band_get l i = Some b → 3 ≤ i → Band.bandType b = SW_BAND_TYPE.
Proof.
  intros Hl Hb Hi. destruct (layout_get _ _ _ Hl Hb) as [_ ->].
  destruct (type_at_cases i) as [[? ?]|[[? ?]|[[? ?]|[? ?]]]]; try done; lia.
Qed.

(** Landing on a short-wave band from a state that keeps the invariant and
    is in sync, and going back, restores every global. *)
Lemma tuned_back s i b b' :
  Inv s → 3 ≤ bandIdx s → 3 ≤ i ≤ lastBand →
  band_get (band s) (bandIdx s) = Some b →
  Band.currentFreq b = currentFrequency s → Band.currentStep b = currentStep s →
  band_get (band s) i = Some b' →
  tuned b (set_bandIdx (bandIdx s) (tuned b' (set_bandIdx i s))) = s.
Proof.
  intros HI H3 Hi Hb Hf Hs Hb'.
  pose proof (sw_type _ _ _ (inv_layout _ HI) Hb H3) as Ht.
  pose proof (sw_type _ _ _ (inv_layout _ HI) Hb' (proj1 Hi)) as Ht'.
  pose proof (inv_sw _ HI H3) as Hsw. pose proof (inv_ssb _ HI) as Hssb.
  pose proof (inv_bfo _ HI) as Hbfo. pose proof (inv_fm _ HI) as Hfm.
  unfold tuned. rewrite Ht, Ht'. simpl.
  destruct s as [bfo mute loaded stereo ai da an cbfo rs ec bd bi lsw cf pf cs cbs bws bwa
                 md rm sn rt bsn brm brt]; simpl in *. rewrite Hf, Hs, Hsw.
  destruct loaded; simpl; [done|].
  assert (md = AM) as ->.
  { destruct md; simpl in *; try done. pose proof (proj1 Hfm eq_refl). lia. }
  by destruct bfo; [specialize (Hbfo eq_refl)|].
Qed.

Lemma up_down s :
  Inv s → in_sync s → 3 ≤ bandIdx s < lastBand →
  ∃ s1 t1 t2,
    bandUp s = Ok tt s1 t1 ∧ bandDown s1 = Ok tt s t2
    ∧ Inv s1 ∧ in_sync s1 ∧ bandIdx s1 = bandIdx s + 1 ∧ encoderCount s1 = encoderCount s.
Proof.
  intros HI (b & Hb & Hf & Hs) Hi.
  assert (next_band (bandIdx s) = bandIdx s + 1) as Hn.
  { unfold next_band. destruct (Z.ltb_spec (bandIdx s) lastBand); [done|lia]. }
  pose proof (saved_in_sync b s Hb Hf Hs) as Hsaved.
  destruct (layout_some _ (bandIdx s + 1) (inv_layout _ HI)) as [b' Hb']; [lia|].
  assert (bandUp s = Ok tt (tuned b' (set_bandIdx (bandIdx s + 1) s))
                          (useBand_log b' (set_bandIdx (bandIdx s + 1) s))) as Hup.
  { rewrite (bandUp_Ok s b b'); [|done|by rewrite Hsaved, Hn].
    unfold moved. by rewrite Hsaved, Hn. }
  set (s1 := tuned b' (set_bandIdx (bandIdx s + 1) s)) in *.
  destruct (tuned_fields b' (set_bandIdx (bandIdx s + 1) s)) as (Hband & Hidx & Hf1 & Hs1 & He1).
  fold s1 in Hband, Hidx, Hf1, Hs1, He1.
  change (band s1 = band s) in Hband. change (bandIdx s1 = bandIdx s + 1) in Hidx.
  change (encoderCount s1 = encoderCount s) in He1.
  assert (band_get (band s1) (bandIdx s1) = Some b') as Hb1 by by rewrite Hband, Hidx.
  assert (Inv s1) as HI1.
  { pose proof (moved_Inv (bandIdx s + 1) b s b' HI Hb) as H. unfold moved in H.
    rewrite Hsaved in H. apply H; [lia|done]. }
  pose proof (saved_in_sync b' s1 Hb1 (eq_sym Hf1) (eq_sym Hs1)) as Hsaved1.
  assert (previous_band (bandIdx s1) = bandIdx s) as Hp.
  { unfold previous_band. destruct (Z.gtb_spec (bandIdx s1) 0); lia. }
  exists s1, (useBand_log b' (set_bandIdx (bandIdx s + 1) s)),
    (useBand_log b (moved (bandIdx s) b' s1)).
  split; [done|]. split.
  - rewrite (bandDown_Ok s1 b' b); [|done|by rewrite Hsaved1, Hp, Hband].
    rewrite Hp. f_equal. unfold moved. rewrite Hsaved1. unfold s1.
    apply tuned_back; try done; lia.
  - split; [done|]. split; [by exists b'|]. split; [done|]. done.
Qed.

Lemma pass_bandUp s s' t :
  encoderCount s = 0 → bandUp s = Ok tt s' t → bandIdx s' ≠ 0 → Inv s' →
  step (Pass (press BNextBand)) s = Ok tt s' t.
Proof.
  intros He Hrun Hi HI. apply loop_press_Ok; [done|done|]. intros Hm. by apply Hi, (inv_fm _ HI).
Qed.

Lemma pass_bandDown s s' t :
  encoderCount s = 0 → bandDown s = Ok tt s' t → bandIdx s' ≠ 0 → Inv s' →
  step (Pass (press BPreviousBand)) s = Ok tt s' t.
Proof.
  intros He Hrun Hi HI. apply loop_press_Ok; [done|done|]. intros Hm. by apply Hi, (inv_fm _ HI).
Qed.

(** C4.  A run of band selections that comes back to the band it started
    from finds there the frequency and the step it left with.  And from a
    state reached from power-on, on band 7 ("41m ", 6800 to 7800) at 7100
    with step 5 as persisted, three passes with band-up pressed and three
    with band-down pressed end in the very state they started from. *)
Theorem band_round_trip s :
  reachable s →
  (∀ cs, ∃ s' t, each select cs s = Ok tt s' t
     ∧ (bandIdx s' = bandIdx s →
        currentFrequency s' = currentFrequency s ∧ currentStep s' = currentStep s))
  ∧ (encoderCount s = 0 → bandIdx s = 7 → currentFrequency s = 7100 → currentStep s = 5 →
     band_get (band s) 7 = Some (Band.mk "41m " SW_BAND_TYPE 6800 7800 7100 5) →
     ∃ t, play up3_down3 s = Ok tt s t).
Proof.
  intros Hr. pose proof (reachable_Inv _ Hr) as HI. split.
  - intros cs. destruct (selects_spec cs s HI) as (s' & t & Hrun & HI' & Htab).
    exists s', t. split; [done|]. intros Hidx.
    pose proof (tuning_table_current s HI) as H1.
    pose proof (tuning_table_current s' HI') as H2.
    rewrite Htab, Hidx, H1 in H2. by injection H2 as -> ->.
  - intros He H7 Hf Hs Hb.
    assert (in_sync s) as Hsync by (eexists; rewrite H7; split; [exact Hb|by rewrite Hf, Hs]).
    destruct (up_down s HI Hsync) as (s1 & u1 & d1 & Hu1 & Hd1 & HI1 & Hsync1 & Hi1 & He1);
      [rewrite lastBand_eq; lia|].
    destruct (up_down s1 HI1 Hsync1) as (s2 & u2 & d2 & Hu2 & Hd2 & HI2 & Hsync2 & Hi2 & He2);
      [rewrite lastBand_eq; lia|].
    destruct (up_down s2 HI2 Hsync2) as (s3 & u3 & d3 & Hu3 & Hd3 & HI3 & Hsync3 & Hi3 & He3);
      [rewrite lastBand_eq; lia|].
    eexists. unfold up3_down3, play. simpl.
    rewrite (bind_Ok _ _ _ _ _ _ (pass_bandUp s s1 _ ltac:(lia) Hu1 ltac:(lia) HI1)).
    rewrite (bind_Ok _ _ _ _ _ _ (pass_bandUp s1 s2 _ ltac:(lia) Hu2 ltac:(lia) HI2)).
    rewrite (bind_Ok _ _ _ _ _ _ (pass_bandUp s2 s3 _ ltac:(lia) Hu3 ltac:(lia) HI3)).
    rewrite (bind_Ok _ _ _ _ _ _ (pass_bandDown s3 s2 _ ltac:(lia) Hd3 ltac:(lia) HI2)).
    rewrite (bind_Ok _ _ _ _ _ _ (pass_bandDown s2 s1 _ ltac:(lia) Hd2 ltac:(lia) HI1)).
    rewrite (bind_Ok _ _ _ _ _ _ (pass_bandDown s1 s _ ltac:(lia) Hd1 ltac:(lia) HI)).
    simpl. reflexivity.
Qed.

Lemma band_round_trip_witness :
  ∃ s t, reachable s ∧ encoderCount s = 0 ∧ bandIdx s = 7 ∧ currentFrequency s = 7100
    ∧ currentStep s = 5 ∧ play up3_down3 s = Ok tt s t.
Proof.
  assert (∃ s, reachable s ∧ encoderCount s = 0 ∧ bandIdx s = 7 ∧ currentFrequency s = 7100
    ∧ currentStep s = 5
    ∧ band_get (band s) 7 = Some (Band.mk "41m " SW_BAND_TYPE 6800 7800 7100 5))
    as (s & Hr & He & Hi & Hf & Hs & Hb).
  { eexists. split.
    - eapply (reachable_play 17 10390 [Pass (press BSW)]); vm_compute; reflexivity.
    - by repeat split. }
  destruct (band_round_trip s Hr) as [_ H]. destruct (H He Hi Hf Hs Hb) as [t Ht].
  by exists s, t.
Defined.


(** ** RDS on the screen: C9 *)

Lemma replay_all_app c t1 t2 :
  replay_all c (t1 ++ t2) = replay_all c t1 ≫= λ c', replay_all c' t2.
Proof.
  revert c. induction t1 as [|e t1 IH]; intros c; simpl; [done|].
  destruct (replay c e); simpl; [apply IH|done].
Qed.

#[global] Instance rds_disciplined_closed : Closed rds_disciplined.
Proof.
  split; unfold rds_disciplined.
  - done.
  - intros s t1 s1 t2 s2 H1 H2. by rewrite replay_all_app, H1.
Qed.

Lemma showRDSMsg_rds : obeys rds_disciplined showRDSMsg.
Proof.
  intros s [] s' t. unfold showRDSMsg, printText, screen. rewrite bind_gets.
  destruct (rdsMsg s) as [v|]; simpl; [|done]. rewrite bind_ret, bind_gets.
  destruct (String.eqb (bufferRdsMsg s) v) eqn:E; [by intros [= <- <-]|].
  rewrite bind_emit. destruct (_ <? _)%nat; [|done]. intros [= <- <-].
  unfold rds_disciplined. simpl. by rewrite E.
Qed.

Lemma showRDSStation_rds : obeys rds_disciplined showRDSStation.
Proof.
  intros s [] s' t. unfold showRDSStation, printText, screen. rewrite bind_gets.
  destruct (stationName s) as [v|]; simpl; [|done]. rewrite bind_ret, bind_gets.
  destruct (String.eqb (bufferStatioName s) v) eqn:E; [by intros [= <- <-]|].
  rewrite bind_emit. destruct (_ <? _)%nat; [|done]. intros [= <- <-].
  unfold rds_disciplined. simpl. by rewrite E.
Qed.

Lemma showRDSTime_rds : obeys rds_disciplined showRDSTime.
Proof.
  intros s [] s' t. unfold showRDSTime, printText, screen. rewrite bind_gets.
  destruct (rdsTime s) as [v|]; simpl; [|done]. rewrite bind_ret, bind_gets.
  destruct (String.eqb (bufferRdsTime s) v) eqn:E; [by intros [= <- <-]|].
  rewrite bind_emit. destruct (_ <? _)%nat; [|done]. intros [= <- <-].
  unfold rds_disciplined. simpl. by rewrite E.
Qed.

(** The globals after the rectangle and the chain of stores. *)
Lemma clearRDS_Ok s a b c :
  stationName s = Some a → rdsMsg s = Some b → rdsTime s = Some c →
  clearRDS s
  = Ok tt (set_bufferStatioName "" (set_bufferRdsMsg "" (set_rdsTime (Some "")
             (set_bufferRdsTime "" (set_rdsMsg (Some "") (set_stationName (Some "") s))))))
      [rds_wipe].
Proof.
  intros Ha Hb Hc. unfold clearRDS, screen. rewrite bind_emit, bind_gets, Ha.
  change (truncate (Some a)) with (mret (M:=M) (Some "")).
  rewrite bind_ret, bind_modify, bind_gets.
  change (rdsMsg (set_stationName (Some "") s)) with (rdsMsg s). rewrite Hb.
  change (truncate (Some b)) with (mret (M:=M) (Some "")).
  rewrite bind_ret, !bind_modify, bind_gets.
  change (rdsTime (set_bufferRdsTime "" (set_rdsMsg (Some "") (set_stationName (Some "") s))))
    with (rdsTime s). rewrite Hc.
  change (truncate (Some c)) with (mret (M:=M) (Some "")).
  by rewrite bind_ret, !bind_modify.
Qed.

Lemma clearRDS_rds : obeys rds_disciplined clearRDS.
Proof.
  intros s [] s' t Hrun.
  destruct (stationName s) as [a|] eqn:Ha;
    [|by rewrite clearRDS_null in Hrun; [|left]].
  destruct (rdsMsg s) as [b|] eqn:Hb;
    [|by rewrite clearRDS_null in Hrun; [|right; left]].
  destruct (rdsTime s) as [c|] eqn:Hc;
    [|by rewrite clearRDS_null in Hrun; [|right; right]].
  rewrite (clearRDS_Ok s a b c Ha Hb Hc) in Hrun. by injection Hrun as <- <-.
Qed.

Ltac rds_leaf :=
  first [ simple apply showRDSMsg_rds | simple apply showRDSStation_rds
        | simple apply showRDSTime_rds | simple apply clearRDS_rds
        | unfold rds_disciplined; simpl; reflexivity ].

Lemma loop_rds i : obeys rds_disciplined (loop i).
Proof. unfold_blocks; unfold loadSSB, radio, screen. repeat obeys_step rds_leaf. Qed.

Lemma setup_rds addr freq : obeys rds_disciplined (setup addr freq).
Proof. unfold_blocks; unfold radio, screen. repeat obeys_step rds_leaf. Qed.

Lemma history_rds t s : history t s → replay_all nothing_shown t = Some (caches s).
Proof.
  induction 1 as [addr freq s t Hs|x s t s' t' _ IH Hx].
  - by apply (setup_rds addr freq _ _ _ _ Hs).
  - rewrite replay_all_app, IH. simpl. destruct x as [i|d status]; simpl in Hx.
    + by apply (loop_rds i _ _ _ _ Hx).
    + injection Hx as <- <-. unfold rotaryEncoder. by repeat destruct (_ =? _).
Qed.

Lemma showRDSMsg_total s v :
  rdsMsg s = Some v → (String.length v < 255)%nat → ∃ s' t, showRDSMsg s = Ok tt s' t.
Proof.
  intros Hv Hlen. unfold showRDSMsg, printText, screen. rewrite bind_gets, Hv. simpl.
  rewrite bind_ret, bind_gets. destruct (String.eqb _ _); [by eexists _, _|].
  rewrite bind_emit. destruct (Nat.ltb_spec (String.length v) 255); [by eexists _, _|lia].
Qed.

Lemma showRDSStation_total s v :
  stationName s = Some v → (String.length v < 255)%nat →
  ∃ s' t, showRDSStation s = Ok tt s' t.
Proof.
  intros Hv Hlen. unfold showRDSStation, printText, screen. rewrite bind_gets, Hv. simpl.
  rewrite bind_ret, bind_gets. destruct (String.eqb _ _); [by eexists _, _|].
  rewrite bind_emit. destruct (Nat.ltb_spec (String.length v) 255); [by eexists _, _|lia].
Qed.

Lemma showRDSTime_total s v :
  rdsTime s = Some v → (String.length v < 32)%nat → ∃ s' t, showRDSTime s = Ok tt s' t.
Proof.
  intros Hv Hlen. unfold showRDSTime, printText, screen. rewrite bind_gets, Hv. simpl.
  rewrite bind_ret, bind_gets. destruct (String.eqb _ _); [by eexists _, _|].
  rewrite bind_emit. destruct (Nat.ltb_spec (String.length v) 32); [by eexists _, _|lia].
Qed.

Lemma showRDSMsg_pointers : obeys (frames rds_pointers any_event) showRDSMsg.
Proof. frames_auto. Qed.

Lemma showRDSStation_pointers : obeys (frames rds_pointers any_event) showRDSStation.
Proof. frames_auto. Qed.

Lemma checkRDS_total r s : fits r → ∃ s' t, checkRDS r s = Ok tt s' t.
Proof.
  intros (H2A & H0A & Htime). unfold checkRDS, radio. rewrite bind_emit.
  destruct (getRdsReceived r); simpl; [|by eexists _, _].
  destruct (getRdsSync r && getRdsSyncFound r); simpl; [|by eexists _, _].
  rewrite !bind_modify.
  set (s1 := set_rdsTime _ _).
  assert (rds_pointers s1 = (getRdsText2A r, getRdsText0A r, getRdsTime r)) as Hp by done.
  clearbody s1. injection Hp as Hp2A Hp0A Hptime.
  assert (∃ s2 t2, when (bool_decide (rdsMsg s1 ≠ None)) showRDSMsg s1 = Ok tt s2 t2
                   ∧ rds_pointers s2 = rds_pointers s1) as (s2 & t2 & Hrun2 & Hp2).
  { destruct (rdsMsg s1) as [v|] eqn:E.
    - rewrite bool_decide_true by done. simpl.
      destruct (showRDSMsg_total s1 v E) as (s2 & t2 & Hrun); [apply H2A; congruence|].
      exists s2, t2. split; [done|]. by apply (showRDSMsg_pointers _ _ _ _ Hrun).
    - rewrite bool_decide_false by (intros H; by apply H). by exists s1, []. }
  rewrite bind_gets, (bind_Ok _ _ _ _ _ _ Hrun2). cbv beta. injection Hp2 as _ Hs0A Hstime.
  assert (∃ s3 t3, when (bool_decide (stationName s2 ≠ None)) showRDSStation s2 = Ok tt s3 t3
                   ∧ rds_pointers s3 = rds_pointers s2) as (s3 & t3 & Hrun3 & Hp3).
  { destruct (stationName s2) as [v|] eqn:E.
    - rewrite bool_decide_true by done. simpl.
      destruct (showRDSStation_total s2 v E) as (s3 & t3 & Hrun); [apply H0A; congruence|].
      exists s3, t3. split; [done|]. by apply (showRDSStation_pointers _ _ _ _ Hrun).
    - rewrite bool_decide_false by (intros H; by apply H). by exists s2, []. }
  rewrite bind_gets, (bind_Ok _ _ _ _ _ _ Hrun3). cbv beta. injection Hp3 as _ _ Httime.
  rewrite bind_gets.
  destruct (rdsTime s3) as [v|] eqn:E.
  - rewrite bool_decide_true by done. simpl.
    destruct (showRDSTime_total s3 v E) as (s4 & t4 & Hrun); [apply Htime; congruence|].
    rewrite Hrun. by eexists _, _.
  - rewrite bool_decide_false by (intros H; by apply H). by eexists _, _.
Qed.

Lemma checkRDS_rds r : obeys rds_disciplined (checkRDS r).
Proof. unfold checkRDS, radio. repeat obeys_step rds_leaf. Qed.

Lemma on_rds_changed r s :
  currentMode s = FM → currentFrequency s ≠ previousFrequency s →
  rdsMsg s ≠ None → stationName s ≠ None → rdsTime s ≠ None →
  on_rds r s = prepend [rds_wipe] (checkRDS r (cleared s)).
Proof.
  intros Hm Hf Hmsg Hsta Htime.
  destruct (stationName s) as [a|] eqn:Ha; [|done].
  destruct (rdsMsg s) as [b|] eqn:Hb; [|done].
  destruct (rdsTime s) as [c|] eqn:Hc; [|done].
  unfold on_rds. rewrite bind_gets, Hm. simpl. rewrite !bind_gets.
  destruct (Z.eqb_spec (currentFrequency s) (previousFrequency s)); [done|]. simpl.
  rewrite !bind_assoc. rewrite (bind_Ok _ _ _ _ _ _ (clearRDS_Ok s a b c Ha Hb Hc)).
  cbv beta. set (s1 := set_bufferStatioName _ _).
  assert (showRDSMsg s1 = Ok tt s1 []) as Hmsg1 by reflexivity.
  assert (showRDSStation s1 = Ok tt s1 []) as Hsta1 by reflexivity.
  rewrite !bind_assoc, (bind_Ok _ _ _ _ _ _ Hmsg1). repeat mstep.
  rewrite (bind_Ok _ _ _ _ _ _ Hsta1). repeat mstep.
  assert (set_previousFrequency (currentFrequency s1) s1 = cleared s) as Hs1
    by (unfold cleared, s1; reflexivity).
  by rewrite Hs1.
Qed.

Lemma on_rds_clears r s :
  currentMode s = FM → currentFrequency s ≠ previousFrequency s →
  rdsMsg s ≠ None → stationName s ≠ None → rdsTime s ≠ None → fits r →
  ∃ s' t,
    on_rds r s = Ok tt s' (rds_wipe :: t)
    ∧ replay_all nothing_shown t = Some (caches s')
    ∧ previousFrequency s' = currentFrequency s ∧ currentFrequency s' = currentFrequency s.
Proof.
  intros Hm Hf Hmsg Hsta Htime Hfits. rewrite on_rds_changed by done.
  destruct (checkRDS_total r (cleared s) Hfits) as (s' & t & Hrun).
  exists s', t. rewrite Hrun. split; [done|].
  assert (obeys (frames (λ s, (currentFrequency s, previousFrequency s)) any_event)
            (checkRDS r)) as Hfr by frames_auto.
  destruct (Hfr _ _ _ _ Hrun) as [[= Hcf Hpf] _].
  split; [|by rewrite Hcf, Hpf].
  by apply (checkRDS_rds r _ _ _ _ Hrun).
Qed.

Lemma loop_turned f s : loop (turned f) s = (on_encoder (turned f);; on_rds no_rds) s.
Proof. unfold loop. apply bind_ext. intros [] s1. simpl. by rewrite ?bind_ret. Qed.

Lemma on_encoder_tunes i s :
  encoderCount s ≠ 0 → bfoOn s = false →
  on_encoder i s
  = Ok tt (set_encoderCount 0 (set_currentFrequency (uint16 (steppedFrequency i)) s))
      [Radio (if encoderCount s =? 1 then si4735.frequencyUp else si4735.frequencyDown);
       Radio si4735.getFrequency; Screen tft.showFrequency].
Proof.
  intros Hn Hbfo. unfold on_encoder. rewrite bind_gets.
  destruct (Z.eqb_spec (encoderCount s) 0); [done|]. cbv beta iota delta [when negb].
  rewrite ?bind_assoc, bind_gets, Hbfo. by destruct (encoderCount s =? 1).
Qed.

Lemma encoder_step_clears f s :
  reachable s → currentMode s = FM → encoderCount s ≠ 0 →
  currentFrequency s = previousFrequency s → uint16 f ≠ currentFrequency s →
  rdsMsg s ≠ None → stationName s ≠ None → rdsTime s ≠ None →
  ∃ s' t, loop (turned f) s = Ok tt s' t
    ∧ currentFrequency s' = uint16 f ∧ previousFrequency s' = uint16 f
    ∧ rds_wipe ∈ t ∧ caches s' = nothing_shown.
Proof.
  intros Hr Hm Hn Hsame Hf Hmsg Hsta Htime. pose proof (reachable_Inv _ Hr) as HI.
  assert (bfoOn s = false) as Hbfo.
  { destruct (bfoOn s) eqn:E; [|done]. pose proof (inv_bfo _ HI E) as H. by rewrite Hm in H. }
  rewrite loop_turned, (bind_Ok _ _ _ _ _ _ (on_encoder_tunes _ s Hn Hbfo)). cbv beta.
  set (s1 := set_encoderCount 0 _).
  rewrite (on_rds_changed no_rds s1); try done.
  - eexists _, _. split; [reflexivity|]. split; [done|]. split; [done|]. split; [|done].
    do 3 apply list_elem_of_further. apply list_elem_of_here.
  - simpl. congruence.
Qed.

Lemma each_showFrequencySeek progress : ∀ s,
  ∃ s1 t, each (λ f, showFrequencySeek (uint16 f)) progress s = Ok tt s1 t
    ∧ band s1 = band s ∧ bandIdx s1 = bandIdx s
    ∧ (∀ f, last progress = Some f → previousFrequency s1 = uint16 f).
Proof.
  induction progress as [|f0 progress IH]; intros s.
  - exists s, []. by repeat split.
  - set (s0 := set_previousFrequency (uint16 f0) (set_currentFrequency (uint16 f0) s)).
    assert (showFrequencySeek (uint16 f0) s = Ok tt s0 [Screen tft.showFrequency]) as H0
      by reflexivity.
    destruct (IH s0) as (s1 & t & Hrun & Hband & Hidx & Hlast).
    exists s1, ([Screen tft.showFrequency] ++ t). simpl each.
    rewrite (bind_Ok _ _ _ _ _ _ H0), Hrun. repeat split; try done.
    intros f Hf. destruct progress as [|f1 progress].
    + injection Hf as <-. by injection Hrun as <- _.
    + by apply Hlast.
Qed.

Lemma on_seek_rds up progress final :
  obeys (frames caches (λ e, e ≠ rds_wipe)) (on_seek up progress final).
Proof. frames_auto. Qed.

Lemma on_seek_keeps_previous up progress final f s :
  Inv s → last progress = Some f → uint16 f = uint16 final →
  ∃ s' t, on_seek up progress final s = Ok tt s' t
    ∧ currentFrequency s' = uint16 final ∧ previousFrequency s' = uint16 final
    ∧ caches s' = caches s ∧ rds_wipe ∉ t.
Proof.
  intros HI Hlast Heq. destruct (Inv_entry _ HI) as [b Hb].
  destruct (each_showFrequencySeek progress s) as (s1 & t1 & Hrun1 & Hband & Hidx & Hprev).
  assert (∃ s' t, on_seek up progress final s = Ok tt s' t
    ∧ currentFrequency s' = uint16 final ∧ previousFrequency s' = uint16 final)
    as (s' & t & Hrun & Hcf & Hpf).
  { unfold on_seek, radio. rewrite bind_emit, (bind_Ok _ _ _ _ _ _ Hrun1). cbv beta.
    rewrite bind_emit, bind_modify.
    erewrite showStatus_Ok; [|simpl; by rewrite Hband, Hidx].
    eexists _, _. split; [reflexivity|]. split; [done|]. simpl. rewrite <- Heq. by apply Hprev. }
  exists s', t. split; [done|]. split; [done|]. split; [done|].
  destruct (on_seek_rds up progress final _ _ _ _ Hrun) as [Hc Hall]. split; [done|].
  intros Hin. by apply (proj1 (Forall_forall _ _) Hall _ Hin).
Qed.

(** C9: the code at the failing input.  With a station name, a text and a
    time written at 103.9 MHz, the pass in which seek-up is pressed and the
    radio reports 10400, then 10450, ends at 104.5 MHz, still in FM, with the
    three buffers as they were and no wipe of the RDS area: the progress
    callback [showFrequencySeek] has stored each reported frequency in
    [previousFrequency] as well, so the last block of [loop] finds no change.
    From the same state, one notch of the encoder answered with the same
    10450 does what the claim says: the area is wiped and the three buffers
    are emptied. *)
Theorem seek_skips_rds_clear :
  ∃ s1 t1 s2 t2 s3 t3,
    (setup 17 10390;; play [Pass rds_received]) power_on = Ok tt s1 t1
    ∧ currentMode s1 = FM ∧ currentFrequency s1 = 10390
    ∧ caches s1 = {| shownStation := "RADIO 1"; shownMsg := "NOW PLAYING";
                     shownTime := "12:00" |}
    ∧ loop seek_up_pass s1 = Ok tt s2 t2
    ∧ currentMode s2 = FM ∧ currentFrequency s2 = 10450
    ∧ caches s2 = caches s1 ∧ (rds_wipe ∉ t2)
    ∧ loop (turned 10450) (rotaryEncoder 16 16 s1) = Ok tt s3 t3
    ∧ currentMode s3 = FM ∧ currentFrequency s3 = 10450
    ∧ caches s3 = nothing_shown ∧ rds_wipe ∈ t3.
Proof.
  eexists _, _, _, _, _, _. split; [vm_compute; reflexivity|].
  do 3 (split; [reflexivity|]). split; [vm_compute; reflexivity|].
  do 3 (split; [reflexivity|]).
  split.
  { repeat (apply not_elem_of_cons; split; [discriminate|]). apply not_elem_of_nil. }
  split; [vm_compute; reflexivity|].
  do 3 (split; [reflexivity|]).
  repeat first [apply list_elem_of_here | apply list_elem_of_further].
Qed.

(** ** Invariants kept beside [Inv] *)

#[global] Instance keeps_with_closed J : Closed (keeps_with J).
Proof.
  split; unfold keeps_with.
  - by intros s ? ?.
  - intros s t1 s1 t2 s2 H1 H2 HI HJ. destruct (H1 HI HJ) as [HI1 HJ1]. by apply H2.
Qed.

Lemma keeps_with_intro {A} J (m : M A) :
  obeys keeps_Inv m → obeys (λ s _ s', Inv s → J s → J s') m → obeys (keeps_with J) m.
Proof.
  intros HI HJ s a s' t Hrun Hs HJs. split; [by eapply HI|by eapply HJ].
Qed.

Lemma keeps_with_frames {A X} J (π : State → X) (m : M A) :
  (∀ s s', π s' = π s → J s → J s') →
  obeys keeps_Inv m → obeys (frames π any_event) m → obeys (keeps_with J) m.
Proof.
  intros Hπ HI Hfr. apply keeps_with_intro; [done|].
  intros s a s' t Hrun _ HJ. destruct (Hfr _ _ _ _ Hrun) as [Hv _]. by apply (Hπ s).
Qed.

(** A relation obeyed by every block of [loop] is obeyed by [loop]. *)
Lemma loop_blocks R `{!Closed R} i :
  obeys R (on_encoder i) → obeys R bandUp → obeys R bandDown →
  obeys R (radio si4735.volumeUp) → obeys R (radio si4735.volumeDown) →
  (∀ up p f, obeys R (on_seek up p f)) →
  obeys R on_bAudioMute → obeys R on_bAM → obeys R on_bFM → obeys R on_bMW →
  obeys R on_bSW → (∀ side, is_ssb side = true → obeys R (on_bSSB side)) →
  obeys R on_bAGC → obeys R on_bFilter → obeys R on_bStep → obeys R on_pushButton →
  obeys R (on_rssi i) → obeys R (on_rds (rds i)) →
  obeys R (loop i).
Proof.
  intros. unfold loop.
  repeat (simple apply obeys_bind; [apply _| |intros []]);
    try (simple apply obeys_when; [apply _|]); auto.
Qed.

Lemma setup_frames {X} (π : State → X) addr freq s t :
  obeys (frames π any_event) (setup addr freq) →
  setup addr freq power_on = Ok tt s t → π s = π power_on.
Proof. intros Hfr Hs. by destruct (Hfr _ _ _ _ Hs). Qed.

(** ** The bandwidth indexes and the filter button *)

Lemma next_index_range top idx : 0 ≤ top → 0 ≤ next_index top idx ≤ top.
Proof.
  intros Htop. unfold next_index, uint8.
  pose proof (Z.mod_pos_bound (idx + 1) 256 eq_refl).
  destruct (Z.gtb_spec ((idx + 1) mod 256) top); lia.
Qed.

Lemma next_index_mod top idx :
  0 ≤ idx ≤ top → top < 255 → next_index top idx = (idx + 1) mod (top + 1).
Proof.
  intros Hi Htop. unfold next_index, uint8. rewrite (Z.mod_small (idx + 1) 256) by lia.
  destruct (Z.gtb_spec (idx + 1) top).
  - assert (idx = top) as -> by lia. by rewrite Z_mod_same_full.
  - by rewrite Z.mod_small by lia.
Qed.

Lemma on_bFilter_Ok s b :
  band_get (band s) (bandIdx s) = Some b →
  on_bFilter s = Ok tt (filtered s) (filter_log s ++ showStatus_log s).
Proof.
  intros Hb. unfold filtered, filter_log, next_index, showStatus_log. exec.
  destruct (currentMode s) eqn:Hm; simpl;
    repeat first [rewrite Hb | rewrite Hm | progress simpl]; try reflexivity.
  all: destruct (uint8 _ >? _); simpl;
    repeat first [rewrite Hb | rewrite Hm | progress simpl]; try reflexivity.
  all: destruct ((_ =? 0) || _ || _); simpl;
    repeat first [rewrite Hb | rewrite Hm | progress simpl]; reflexivity.
Qed.

(** ** What [setup] leaves *)

Lemma setup_Ok addr freq :
  addr ≠ 0 → setup addr freq power_on = Ok tt (after_setup freq) setup_log.
Proof.
  intros Ha. unfold setup, radio. rewrite !bind_emit.
  destruct (Z.eqb_spec addr 0); [done|]. rewrite bind_ret. unfold screen. rewrite !bind_emit.
  rewrite (bind_Ok _ _ _ _ _ _ (useBand_Ok _ _ power_on_entry)).
  rewrite bind_emit, !bind_modify. reflexivity.
Qed.

Lemma setup_after addr freq s t :
  setup addr freq power_on = Ok tt s t → addr ≠ 0 ∧ s = after_setup freq ∧ t = setup_log.
Proof.
  intros Hs. destruct (Z.eq_dec addr 0) as [->|Ha].
  - unfold setup, radio in Hs. rewrite !bind_emit in Hs. done.
  - rewrite (setup_Ok _ _ Ha) in Hs. by injection Hs as <- <-.
Qed.

(** An invariant that holds after [setup] and is kept by the passes of
    [loop] and by the interrupt holds in every state reached. *)
Lemma reachable_keeps (J : State → Prop) :
  (∀ freq, J (after_setup freq)) →
  (∀ i, obeys (keeps_with J) (loop i)) →
  (∀ d st s, J s → J (rotaryEncoder d st s)) →
  ∀ s, reachable s → J s.
Proof.
  intros H0 Hloop Hirq s [t Ht].
  induction Ht as [addr freq s t Hs|x s t s' t' Ht IH Hx].
  - apply setup_after in Hs as (_ & -> & _). apply H0.
  - destruct x as [i|d status]; simpl in Hx.
    + eapply Hloop; [done|by eapply history_Inv|done].
    + injection Hx as <- _. by apply Hirq.
Qed.

Lemma history_run addr freq l s t :
  (setup addr freq;; play l) power_on = Ok tt s t → history t s.
Proof.
  intros Hrun. apply bind_inv in Hrun as ([] & s0 & t0 & t2 & H0 & H2 & ->).
  eapply history_play; [|exact H2]. by eapply history_setup.
Qed.

Ltac block_Inv :=
  lazymatch goal with
  | |- obeys keeps_Inv bandUp => exact bandUp_Inv
  | |- obeys keeps_Inv bandDown => exact bandDown_Inv
  | |- obeys keeps_Inv on_bAM => exact on_bAM_Inv
  | |- obeys keeps_Inv on_bFM => exact on_bFM_Inv
  | |- obeys keeps_Inv on_bMW => exact on_bMW_Inv
  | |- obeys keeps_Inv on_bSW => exact on_bSW_Inv
  | |- obeys keeps_Inv (on_bSSB _) => by apply on_bSSB_Inv
  | |- obeys keeps_Inv on_bStep => exact on_bStep_Inv
  | |- obeys keeps_Inv on_pushButton => exact on_pushButton_Inv
  | |- obeys keeps_Inv (on_encoder _) => exact (frames_core_keeps_Inv _ (on_encoder_core _))
  | |- obeys keeps_Inv (radio _) => exact (frames_core_keeps_Inv _ (radio_core _))
  | |- obeys keeps_Inv (on_seek _ _ _) => exact (frames_core_keeps_Inv _ (on_seek_core _ _ _))
  | |- obeys keeps_Inv on_bAudioMute => exact (frames_core_keeps_Inv _ on_bAudioMute_core)
  | |- obeys keeps_Inv on_bAGC => exact (frames_core_keeps_Inv _ on_bAGC_core)
  | |- obeys keeps_Inv on_bFilter => exact (frames_core_keeps_Inv _ on_bFilter_core)
  | |- obeys keeps_Inv (on_rssi _) => exact (frames_core_keeps_Inv _ (on_rssi_core _))
  | |- obeys keeps_Inv (on_rds _) => exact (frames_core_keeps_Inv _ (on_rds_core _))
  end.

(** ** The bandwidth indexes: always inside their tables *)

Lemma filtered_bw s : bw_ok s → bw_ok (filtered s).
Proof.
  intros [H1 H2]. unfold filtered, bw_ok.
  destruct (is_ssb _); simpl; [split; [by apply next_index_range|done]|].
  destruct (Mode_eqb _ _); simpl; [split; [done|by apply next_index_range]|done].
Qed.

Lemma on_bFilter_bw : obeys (keeps_with bw_ok) on_bFilter.
Proof.
  apply keeps_with_intro; [block_Inv|].
  intros s [] s' t Hrun HI Hbw. destruct (Inv_entry _ HI) as [b Hb].
  rewrite (on_bFilter_Ok _ _ Hb) in Hrun. injection Hrun as <- _. by apply filtered_bw.
Qed.

Lemma bw_ok_view s s' : bw_view s' = bw_view s → bw_ok s → bw_ok s'.
Proof. unfold bw_view, bw_ok. intros [= -> ->]. done. Qed.

Lemma loop_bw i : obeys (keeps_with bw_ok) (loop i).
Proof.
  apply loop_blocks; [apply _|..]; intros;
    first [ apply on_bFilter_bw
          | apply (keeps_with_frames _ bw_view); [apply bw_ok_view|block_Inv|frames_auto] ].
Qed.

Lemma reachable_bw s : reachable s → bw_ok s.
Proof.
  apply reachable_keeps.
  - intros freq. unfold bw_ok. simpl. lia.
  - apply loop_bw.
  - intros d st s' H. unfold rotaryEncoder. by repeat destruct (_ =? _).
Qed.

Lemma text_at_Some table i : 0 ≤ i < Z.of_nat (length table) → ∃ txt, text_at table i = Some txt.
Proof.
  intros Hi. unfold text_at. destruct (Z.ltb_spec i 0); [lia|].
  destruct (lookup_lt_is_Some_2 table (Z.to_nat i)) as [txt Htxt]; [lia|]. by exists txt.
Qed.

Lemma bandwidthLine_Ok s :
  bw_ok s → ∃ line, bandwidthLine s = Ok line s [] ∧ (line = None ↔ currentMode s = FM).
Proof.
  intros [[H1 H2] [H3 H4]]. unfold bandwidthLine. rewrite bind_gets.
  destruct (currentMode s) eqn:Hm; simpl.
  - by exists None.
  - rewrite bind_gets.
    assert (bwIdxSSB s = 0 ∨ bwIdxSSB s = 1 ∨ bwIdxSSB s = 2 ∨ bwIdxSSB s = 3
            ∨ bwIdxSSB s = 4 ∨ bwIdxSSB s = 5) as Hc by lia.
    destruct Hc as [H|[H|[H|[H|[H|H]]]]]; rewrite H; simpl; eexists; (split; [reflexivity|done]).
  - rewrite bind_gets.
    assert (bwIdxSSB s = 0 ∨ bwIdxSSB s = 1 ∨ bwIdxSSB s = 2 ∨ bwIdxSSB s = 3
            ∨ bwIdxSSB s = 4 ∨ bwIdxSSB s = 5) as Hc by lia.
    destruct Hc as [H|[H|[H|[H|[H|H]]]]]; rewrite H; simpl; eexists; (split; [reflexivity|done]).
  - rewrite bind_gets.
    assert (bwIdxAM s = 0 ∨ bwIdxAM s = 1 ∨ bwIdxAM s = 2 ∨ bwIdxAM s = 3
            ∨ bwIdxAM s = 4 ∨ bwIdxAM s = 5 ∨ bwIdxAM s = 6) as Hc by lia.
    destruct Hc as [H|[H|[H|[H|[H|[H|H]]]]]]; rewrite H; simpl; eexists;
      (split; [reflexivity|done]).
Qed.

(** X1.  In every state reached from power-on the reads of the sketch's
    tables are inside the tables: the band table keeps its 21 entries with
    their names, types and limits, [bandIdx] points at one of them,
    [lastSwBand] at a short-wave one, [bwIdxSSB] and [bwIdxAM] inside
    [bandwidthSSB] and [bandwidthAM]; the bandwidth line of [showStatus] is
    formatted without reading outside a table and fits [bufferBW], and there
    is one exactly outside FM. *)
Theorem table_reads_in_bounds s :
  reachable s →
  length (band s) = 21%nat
  ∧ layout <$> band s = layout <$> band_init
  ∧ (∃ b, band_get (band s) (bandIdx s) = Some b)
  ∧ (∃ b, band_get (band s) (lastSwBand s) = Some b ∧ Band.bandType b = SW_BAND_TYPE)
  ∧ (∃ bw, text_at bandwidthSSB (bwIdxSSB s) = Some bw)
  ∧ (∃ bw, text_at bandwidthAM (bwIdxAM s) = Some bw)
  ∧ ∃ line, bandwidthLine s = Ok line s [] ∧ (line = None ↔ currentMode s = FM).
Proof.
  intros Hr. pose proof (reachable_Inv _ Hr) as HI. pose proof (reachable_bw _ Hr) as Hbw.
  destruct HI as [Hl Hi Hsw Hfm Hssb Hbfo Hsw'].
  split. { pose proof (layout_length _ Hl) as H. rewrite lastBand_eq in H. lia. }
  split; [done|]. split; [by apply layout_some|].
  split.
  { destruct (layout_some _ (lastSwBand s) Hl) as [b Hb]; [lia|].
    exists b. split; [done|]. apply (sw_type _ _ _ Hl Hb). lia. }
  destruct Hbw as [H1 H2].
  split; [apply text_at_Some; simpl; lia|]. split; [apply text_at_Some; simpl; lia|].
  by apply bandwidthLine_Ok.
Qed.

Lemma table_reads_in_bounds_witness :
  ∃ s line, reachable s ∧ currentMode s = LSB
    ∧ bandwidthLine s = Ok line s [] ∧ line ≠ None.
Proof.
  assert (∃ s, reachable s ∧ currentMode s = LSB) as (s & Hr & Hm).
  { eexists. split.
    - eapply (reachable_play 17 10390 filter_session); vm_compute; reflexivity.
    - reflexivity. }
  destruct (table_reads_in_bounds s Hr) as (_ & _ & _ & _ & _ & _ & line & Hline & Hnone).
  exists s, line. split; [done|]. split; [done|]. split; [done|].
  intros H. apply Hnone in H. congruence.
Defined.

(** ** The filter button *)

Lemma filtered_core s : core (filtered s) = core s.
Proof. unfold filtered. destruct (is_ssb _); [done|]. by destruct (Mode_eqb _ _). Qed.

Lemma filtered_entry s : band (filtered s) = band s ∧ bandIdx (filtered s) = bandIdx s
  ∧ currentMode (filtered s) = currentMode s.
Proof. unfold filtered. destruct (is_ssb _); [done|]. by destruct (Mode_eqb _ _). Qed.

Lemma times_on_bFilter n : ∀ s,
  Inv s → ∃ t, times n on_bFilter s = Ok tt (Nat.iter n filtered s) t.
Proof.
  induction n as [|n IH]; intros s HI.
  - by exists [].
  - destruct (Inv_entry _ HI) as [b Hb].
    assert (Inv (filtered s)) as HI' by (apply (Inv_core s); [apply filtered_core|done]).
    destruct (IH _ HI') as (t & Hrun).
    eexists. unfold times in *. simpl replicate. simpl each.
    rewrite (bind_Ok _ _ _ _ _ _ (on_bFilter_Ok s b Hb)), Hrun. simpl prepend.
    by rewrite Nat.iter_succ_r.
Qed.

Lemma iter_filtered_ssb n : ∀ s,
  is_ssb (currentMode s) = true → 0 ≤ bwIdxSSB s ≤ 5 →
  bwIdxSSB (Nat.iter n filtered s) = (bwIdxSSB s + Z.of_nat n) mod 6
  ∧ bwIdxAM (Nat.iter n filtered s) = bwIdxAM s.
Proof.
  induction n as [|n IH]; intros s Hm Hk.
  - simpl. rewrite Z.add_0_r, Z.mod_small by lia. done.
  - rewrite Nat.iter_succ_r.
    assert (filtered s = set_bwIdxSSB (next_index 5 (bwIdxSSB s)) s) as Hf
      by (unfold filtered; by rewrite Hm).
    pose proof (next_index_range 5 (bwIdxSSB s)) as Hr.
    destruct (IH (filtered s)) as [H1 H2].
    { by rewrite (proj2 (proj2 (filtered_entry s))). }
    { rewrite Hf. simpl. lia. }
    rewrite H1, H2, Hf. simpl. rewrite (next_index_mod 5) by lia. split; [|done].
    change (5 + 1) with 6. rewrite Zplus_mod_idemp_l. f_equal. lia.
Qed.

Lemma iter_filtered_am n : ∀ s,
  currentMode s = AM → 0 ≤ bwIdxAM s ≤ 6 →
  bwIdxAM (Nat.iter n filtered s) = (bwIdxAM s + Z.of_nat n) mod 7
  ∧ bwIdxSSB (Nat.iter n filtered s) = bwIdxSSB s.
Proof.
  induction n as [|n IH]; intros s Hm Hk.
  - simpl. rewrite Z.add_0_r, Z.mod_small by lia. done.
  - rewrite Nat.iter_succ_r.
    assert (filtered s = set_bwIdxAM (next_index 6 (bwIdxAM s)) s) as Hf
      by (unfold filtered; by rewrite Hm).
    pose proof (next_index_range 6 (bwIdxAM s)) as Hr.
    destruct (IH (filtered s)) as [H1 H2].
    { by rewrite (proj2 (proj2 (filtered_entry s))). }
    { rewrite Hf. simpl. lia. }
    rewrite H1, H2, Hf. simpl. rewrite (next_index_mod 6) by lia. split; [|done].
    change (6 + 1) with 7. rewrite Zplus_mod_idemp_l. f_equal. lia.
Qed.

Lemma iter_filtered_fm n : ∀ s, currentMode s = FM → Nat.iter n filtered s = s.
Proof.
  induction n as [|n IH]; intros s Hm; [done|].
  rewrite Nat.iter_succ_r.
  assert (filtered s = s) as -> by (unfold filtered; by rewrite Hm). by apply IH.
Qed.

(** X2.  The filter button steps the bandwidth index of the current mode
    and no other: in LSB and USB [bwIdxSSB] goes round 0..5, the radio is
    sent the new index and the sideband cutoff filter 0 for the indexes 0, 4
    and 5 and 1 otherwise; in AM [bwIdxAM] goes round 0..6 and is sent with
    [setBandwidth]; in FM nothing changes and nothing is sent but the status
    queries.  So [n] presses add [n] modulo 6 (or 7): six presses in LSB or
    USB, seven in AM, come back to the bandwidth they started from. *)
Theorem filter_button_cycle s :
  reachable s →
  (∃ s' t, on_bFilter s = Ok tt s' t
     ∧ core s' = core s
     ∧ (currentMode s = LSB ∨ currentMode s = USB →
          bwIdxSSB s' = (bwIdxSSB s + 1) mod 6 ∧ bwIdxAM s' = bwIdxAM s
          ∧ t = [Radio (si4735.setSSBAudioBandwidth (bwIdxSSB s'));
                 Radio (si4735.setSBBSidebandCutoffFilter
                          (if bool_decide (bwIdxSSB s' ∈ [0; 4; 5]) then 0 else 1))]
                ++ showStatus_log s)
     ∧ (currentMode s = AM →
          bwIdxAM s' = (bwIdxAM s + 1) mod 7 ∧ bwIdxSSB s' = bwIdxSSB s
          ∧ t = [Radio (si4735.setBandwidth (bwIdxAM s') 1)] ++ showStatus_log s)
     ∧ (currentMode s = FM → s' = s ∧ t = showStatus_log s))
  ∧ (∀ n, ∃ s' t, times n on_bFilter s = Ok tt s' t
       ∧ (currentMode s = LSB ∨ currentMode s = USB →
            bwIdxSSB s' = (bwIdxSSB s + Z.of_nat n) mod 6 ∧ bwIdxAM s' = bwIdxAM s)
       ∧ (currentMode s = AM →
            bwIdxAM s' = (bwIdxAM s + Z.of_nat n) mod 7 ∧ bwIdxSSB s' = bwIdxSSB s)
       ∧ (currentMode s = FM → s' = s)).
Proof.
  intros Hr. pose proof (reachable_Inv _ Hr) as HI. destruct (reachable_bw _ Hr) as [H1 H2].
  destruct (Inv_entry _ HI) as [b Hb]. split.
  - eexists _, _. split; [apply (on_bFilter_Ok _ _ Hb)|].
    split; [apply filtered_core|]. split; [|split].
    + intros Hm. apply is_ssb_true in Hm. unfold filtered, filter_log. rewrite Hm. simpl.
      rewrite (next_index_mod 5) by lia. change (5 + 1) with 6.
      split; [done|]. split; [done|]. do 3 f_equal.
      pose proof (Z.mod_pos_bound (bwIdxSSB s + 1) 6 eq_refl) as Hbound.
      assert ((bwIdxSSB s + 1) mod 6 = 0 ∨ (bwIdxSSB s + 1) mod 6 = 1
              ∨ (bwIdxSSB s + 1) mod 6 = 2 ∨ (bwIdxSSB s + 1) mod 6 = 3
              ∨ (bwIdxSSB s + 1) mod 6 = 4 ∨ (bwIdxSSB s + 1) mod 6 = 5) as Hc by lia.
      destruct Hc as [H|[H|[H|[H|[H|H]]]]]; by rewrite H.
    + intros Hm. unfold filtered, filter_log. rewrite Hm. simpl.
      rewrite (next_index_mod 6) by lia. done.
    + intros Hm. unfold filtered, filter_log. rewrite Hm. done.
  - intros n. destruct (times_on_bFilter n s HI) as [t Ht].
    eexists _, _. split; [exact Ht|]. split; [|split].
    + intros Hm. apply is_ssb_true in Hm. by apply iter_filtered_ssb.
    + intros Hm. by apply iter_filtered_am.
    + intros Hm. by apply iter_filtered_fm.
Qed.

Lemma filter_button_cycle_witness :
  ∃ s s' t, reachable s ∧ currentMode s = LSB ∧ bwIdxSSB s = 2
    ∧ times 6 on_bFilter s = Ok tt s' t ∧ bwIdxSSB s' = 2.
Proof.
  assert (∃ s, reachable s ∧ currentMode s = LSB ∧ bwIdxSSB s = 2) as (s & Hr & Hm & Hbw).
  { eexists. split.
    - eapply (reachable_play 17 10390 filter_session); vm_compute; reflexivity.
    - by split. }
  destruct (filter_button_cycle s Hr) as [_ Hn].
  destruct (Hn 6%nat) as (s' & t & Hrun & Hssb & _).
  exists s, s', t. split; [done|]. split; [done|]. split; [done|]. split; [done|].
  destruct Hssb as [-> _]; [by left|]. by rewrite Hbw.
Defined.

(** ** The tuning step stays on its list *)

Ltac in_list := repeat first [apply list_elem_of_here | apply list_elem_of_further].

Lemma band_init_step i b : band_get band_init i = Some b → step_of i (Band.currentStep b).
Proof.
  rewrite band_get_Some. intros [Hi Hb].
  rewrite <- (Z2Nat.id i Hi). revert Hb. generalize (Z.to_nat i) as n. clear Hi. intros n.
  unfold step_of, step_values.
  do 21 (destruct n as [|n];
         [simpl; intros [= <-]; simpl; split; [in_list|split; [done|lia]]|]).
  simpl. done.
Qed.

Lemma step_ok_after_setup freq : step_ok (after_setup freq).
Proof.
  split; [|apply band_init_step]. simpl. unfold step_of, step_values.
  split; [in_list|]. split; [done|done].
Qed.

Lemma reselected_step s s' : Inv s → Inv s' → reselected s s' → step_ok s → step_ok s'.
Proof.
  intros HI HI' (b & b' & Hb & Hband & Hb' & Hf & Hst) [Hcur Htab].
  assert (∀ i x, band_get (band s') i = Some x → step_of i (Band.currentStep x)) as Htab'.
  { intros i x. rewrite Hband, (band_get_insert _ _ _ b) by done.
    destruct (Z.eqb_spec i (bandIdx s)) as [->|Hne]; [|apply Htab].
    by intros [= <-]. }
  split; [|done]. rewrite Hst. by apply Htab'.
Qed.

Lemma reselecting_step (m : M unit) :
  obeys keeps_Inv m →
  (∀ s s' t, Inv s → m s = Ok tt s' t → s' = s ∨ reselected s s') →
  obeys (keeps_with step_ok) m.
Proof.
  intros Hinv Hm. apply keeps_with_intro; [done|].
  intros s [] s' t Hrun HI Hstep.
  destruct (Hm _ _ _ HI Hrun) as [->|Hre]; [done|].
  apply (reselected_step s); [done| |done|done]. by eapply Hinv.
Qed.

Lemma select_reselects c s s' t :
  Inv s → select c s = Ok tt s' t → s' = s ∨ reselected s s'.
Proof.
  intros HI Hrun. destruct (select_spec c s HI) as (s1 & t1 & Hrun1 & _ & Hcase).
  rewrite Hrun1 in Hrun. injection Hrun as <- _.
  destruct Hcase as [(_ & _ & ->)|[Hre _]]; [by left|by right].
Qed.

Lemma on_bAM_reselects s s' t : Inv s → on_bAM s = Ok tt s' t → s' = s ∨ reselected s s'.
Proof.
  intros HI Hrun. destruct (decide (currentMode s = FM)) as [Hm|Hm].
  - unfold on_bAM in Hrun. rewrite (guarded_noop _ _ Hm) in Hrun. injection Hrun as <- _.
    by left.
  - destruct (Inv_entry _ HI) as [b Hb]. rewrite (on_bAM_Ok _ _ Hm Hb) in Hrun.
    injection Hrun as <- _. right. apply (tuned_reselected _ b); [done|done|].
    simpl. rewrite (band_get_insert _ _ _ b) by done. by rewrite Z.eqb_refl.
Qed.

Lemma on_bSSB_reselects side s s' t :
  Inv s → on_bSSB side s = Ok tt s' t → s' = s ∨ reselected s s'.
Proof.
  intros HI Hrun. destruct (decide (currentMode s = FM)) as [Hm|Hm].
  - unfold on_bSSB in Hrun. rewrite (guarded_noop _ _ Hm) in Hrun. injection Hrun as <- _.
    by left.
  - destruct (Inv_entry _ HI) as [b Hb]. rewrite (on_bSSB_Ok _ _ _ Hm Hb) in Hrun.
    injection Hrun as <- _. right. apply (tuned_reselected _ b); [done|done|].
    simpl. rewrite (band_get_insert _ _ _ b) by done. by rewrite Z.eqb_refl.
Qed.

Lemma step_after_of s : bandIdx s ≠ 0 → step_of (bandIdx s) (step_after s).
Proof.
  intros Hi. unfold step_of, step_after, step_values.
  destruct (currentStep s =? 1); [split; [in_list|split; [done|lia]]|].
  destruct (currentStep s =? 5); [split; [in_list|split; [done|lia]]|].
  destruct (currentStep s =? 10); [split; [in_list|split; [done|lia]]|].
  destruct (currentStep s =? 100); simpl.
  - destruct (Z.eqb_spec (bandIdx s) lastBand); (split; [in_list|split; [done|lia]]).
  - split; [in_list|split; [done|lia]].
Qed.

Lemma stepped_step s b :
  bandIdx s ≠ 0 → band_get (band s) (bandIdx s) = Some b → step_ok s → step_ok (stepped b s).
Proof.
  intros Hi Hb [Hcur Htab]. pose proof (step_after_of s Hi) as Hnew.
  split; [done|]. intros i x. simpl. rewrite (band_get_insert _ _ _ b) by done.
  destruct (Z.eqb_spec i (bandIdx s)) as [->|Hne]; [|apply Htab]. by intros [= <-].
Qed.

Lemma on_bStep_step : obeys (keeps_with step_ok) on_bStep.
Proof.
  apply keeps_with_intro; [block_Inv|].
  intros s [] s' t Hrun HI Hst.
  destruct (decide (currentMode s = FM)) as [Hm|Hm].
  { unfold on_bStep in Hrun. rewrite bind_gets, Hm in Hrun. simpl in Hrun.
    rewrite bind_modify, bind_gets in Hrun.
    destruct (fmStereo _); by injection Hrun as <- _. }
  destruct (bfoOn s && is_ssb (currentMode s)) eqn:Hbfo.
  { unfold on_bStep in Hrun. rewrite bind_gets in Hrun.
    destruct (Mode_eqb (currentMode s) FM) eqn:E; [by apply Mode_eqb_eq in E|].
    rewrite bind_gets, Hbfo, bind_modify in Hrun.
    by injection Hrun as <- _. }
  destruct (Inv_entry s HI) as [b Hb].
  rewrite (on_bStep_Ok s b Hm Hbfo Hb) in Hrun. injection Hrun as <- _.
  apply stepped_step; [|done|done]. intros H0. by apply (inv_fm _ HI) in H0.
Qed.

Lemma step_ok_view s s' : step_view s' = step_view s → step_ok s → step_ok s'.
Proof. unfold step_view, step_ok. intros [= -> -> ->]. done. Qed.

Lemma loop_step i : obeys (keeps_with step_ok) (loop i).
Proof.
  apply loop_blocks; [apply _|..]; intros;
    first [ apply on_bStep_step
          | apply reselecting_step; [block_Inv|];
            first [ apply (select_reselects BandUp) | apply (select_reselects BandDown)
                  | apply (select_reselects ToFM) | apply (select_reselects ToMW)
                  | apply (select_reselects ToSW) | apply on_bAM_reselects
                  | apply on_bSSB_reselects ]
          | apply (keeps_with_frames _ step_view); [apply step_ok_view|block_Inv|frames_auto] ].
Qed.

Lemma reachable_step s : reachable s → step_ok s.
Proof.
  apply reachable_keeps.
  - apply step_ok_after_setup.
  - apply loop_step.
  - intros d st s' H. unfold rotaryEncoder. by repeat destruct (_ =? _).
Qed.

(** X3.  In every state reached from power-on the tuning step is one of 1,
    5, 10, 100 and 500, and so is the step persisted for every band; 500
    occurs on the last entry of the band table only (current or
    persisted), and the FM entry keeps its step of 10, since in FM the step
    button toggles stereo instead. *)
Theorem step_stays_listed s :
  reachable s →
  currentStep s ∈ [1; 5; 10; 100; 500]
  ∧ (currentStep s = 500 → bandIdx s = lastBand)
  ∧ (currentMode s = FM → currentStep s = 10)
  ∧ (∀ i b, band_get (band s) i = Some b →
       Band.currentStep b ∈ [1; 5; 10; 100; 500]
       ∧ (Band.currentStep b = 500 → i = lastBand)
       ∧ (i = 0 → Band.currentStep b = 10)).
Proof.
  intros Hr. destruct (reachable_step _ Hr) as [(H1 & H2 & H3) Htab].
  split; [done|]. split; [done|]. split; [|done].
  intros Hm. apply H3. by apply (inv_fm _ (reachable_Inv _ Hr)).
Qed.

Lemma step_stays_listed_witness :
  ∃ s, reachable s ∧ currentStep s = 500 ∧ bandIdx s = lastBand.
Proof.
  assert (∃ s, reachable s ∧ currentStep s = 500) as (s & Hr & Hst).
  { eexists. split.
    - eapply (reachable_play 17 10390 all_hf_steps); vm_compute; reflexivity.
    - reflexivity. }
  exists s. split; [done|]. split; [done|].
  by apply (proj1 (proj2 (step_stays_listed s Hr))).
Defined.

(** ** The encoder: one notch for each pass *)

Ltac run :=
  repeat (first [ rewrite bind_assoc | rewrite bind_gets | rewrite bind_modify
                | rewrite bind_ret | rewrite bind_emit | rewrite prepend_nil
                | rewrite prepend_prepend ]; cbv beta).

Lemma notches_app t1 t2 : notches (t1 ++ t2) = (notches t1 + notches t2)%nat.
Proof. unfold notches. by rewrite List.filter_app, length_app. Qed.

#[global] Instance quiet_closed : Closed quiet.
Proof.
  split; unfold quiet.
  - by intros s ?.
  - intros s t1 s1 t2 s2 H1 H2 H0. destruct (H1 H0) as [H01 Hn1].
    destruct (H2 H01) as [H02 Hn2]. split; [done|]. rewrite notches_app. lia.
Qed.




Lemma on_encoder_bfo i s :
  encoderCount s ≠ 0 → bfoOn s = true →
  on_encoder i s
  = Ok tt (bfo_moved s) [Radio (si4735.setSSBBfo (currentBFO (bfo_moved s))); Screen tft.showBFO].
Proof.
  intros Hn Hbfo. unfold on_encoder. rewrite bind_gets.
  destruct (Z.eqb_spec (encoderCount s) 0); [done|]. cbv beta iota delta [when negb].
  rewrite ?bind_assoc, bind_gets, Hbfo.
  unfold radio, showBFO, screen. run. reflexivity.
Qed.







(** ** The BFO adjustment *)

Lemma on_bStep_bfo s :
  bfoOn s = true → is_ssb (currentMode s) = true →
  on_bStep s
  = Ok tt (set_currentBFOStep (if currentBFOStep s =? 25 then 10 else 25) s)
      [Screen tft.showBFO].
Proof.
  intros Hbfo Hm. unfold on_bStep. rewrite bind_gets.
  destruct (Mode_eqb (currentMode s) FM) eqn:E.
  { apply Mode_eqb_eq in E. by rewrite E in Hm. }
  rewrite bind_gets, Hbfo, Hm. simpl. unfold showBFO, screen. run. reflexivity.
Qed.

Lemma on_bStep_bfo_step : obeys (keeps_with bfo_step_ok) on_bStep.
Proof.
  apply keeps_with_intro; [block_Inv|].
  intros s [] s' t Hrun HI Hst.
  destruct (decide (currentMode s = FM)) as [Hm|Hm].
  { unfold on_bStep in Hrun. rewrite bind_gets, Hm in Hrun. simpl in Hrun.
    rewrite bind_modify, bind_gets in Hrun.
    destruct (fmStereo _); by injection Hrun as <- _. }
  destruct (bfoOn s && is_ssb (currentMode s)) eqn:Hbfo.
  { apply andb_true_iff in Hbfo as [Hon Hssb].
    rewrite (on_bStep_bfo _ Hon Hssb) in Hrun. injection Hrun as <- _.
    unfold bfo_step_ok. simpl. destruct (_ =? 25); [by left|by right]. }
  destruct (Inv_entry s HI) as [b Hb].
  rewrite (on_bStep_Ok s b Hm Hbfo Hb) in Hrun. by injection Hrun as <- _.
Qed.

Lemma loop_bfo_step i : obeys (keeps_with bfo_step_ok) (loop i).
Proof.
  apply loop_blocks; [apply _|..]; intros;
    first [ apply on_bStep_bfo_step
          | apply (keeps_with_frames _ currentBFOStep);
            [unfold bfo_step_ok; by intros ?? ->|block_Inv|frames_auto] ].
Qed.

Lemma reachable_bfo_step s : reachable s → bfo_step_ok s.
Proof.
  apply reachable_keeps.
  - intros freq. by right.
  - apply loop_bfo_step.
  - intros d st s' H. unfold rotaryEncoder. by repeat destruct (_ =? _).
Qed.

(** X5.  The BFO step is always 10 or 25.  While the BFO adjustment is on
    (which is in LSB or USB only), a notch of the encoder moves [currentBFO]
    by the BFO step, up for 1 and down for -1 (as long as the result fits
    the 16 bits an [int] has on the smaller board), sends the new offset
    with [setSSBBfo] and redraws the BFO line: the frequency, the band table
    and the tuning step are not touched; and the step button swaps the BFO
    step between 25 and 10 and leaves the tuning step alone. *)
Theorem bfo_adjustment :
  (∀ s, reachable s → currentBFOStep s = 10 ∨ currentBFOStep s = 25)
  ∧ (∀ i s, reachable s → bfoOn s = true → encoderCount s ≠ 0 →
       -32768 ≤ currentBFO s - currentBFOStep s → currentBFO s + currentBFOStep s ≤ 32767 →
       ∃ s', on_encoder i s
             = Ok tt s' [Radio (si4735.setSSBBfo (currentBFO s')); Screen tft.showBFO]
         ∧ currentBFO s'
           = currentBFO s + (if encoderCount s =? 1 then 1 else -1) * currentBFOStep s
         ∧ currentFrequency s' = currentFrequency s ∧ step_view s' = step_view s
         ∧ core s' = core s ∧ currentBFOStep s' = currentBFOStep s)
  ∧ (∀ s, reachable s → bfoOn s = true →
       ∃ s', on_bStep s = Ok tt s' [Screen tft.showBFO]
         ∧ currentBFOStep s' = 35 - currentBFOStep s
         ∧ currentBFO s' = currentBFO s ∧ currentFrequency s' = currentFrequency s
         ∧ step_view s' = step_view s ∧ core s' = core s).
Proof.
  split; [apply reachable_bfo_step|]. split.
  - intros i s Hr Hbfo Hn _ _. eexists. split; [by apply on_encoder_bfo|].
    split; [|done]. unfold bfo_moved. simpl. destruct (_ =? 1); lia.
  - intros s Hr Hbfo. pose proof (reachable_Inv _ Hr) as HI.
    eexists. split; [apply (on_bStep_bfo _ Hbfo); by apply (inv_bfo _ HI)|].
    split; [|done]. simpl.
    destruct (reachable_bfo_step _ Hr) as [H|H]; by rewrite H.
Qed.

Lemma bfo_adjustment_witness :
  ∃ s s1 s2, reachable s ∧ bfoOn s = true ∧ encoderCount s = 1
    ∧ currentBFO s = 0 ∧ currentBFOStep s = 25
    ∧ on_encoder (turned 0) s
      = Ok tt s1 [Radio (si4735.setSSBBfo (currentBFO s1)); Screen tft.showBFO]
    ∧ currentBFO s1 = 25
    ∧ on_bStep s = Ok tt s2 [Screen tft.showBFO] ∧ currentBFOStep s2 = 10.
Proof.
  destruct bfo_adjustment as (_ & Hnotch & Hstep).
  assert (∃ s, reachable s ∧ bfoOn s = true ∧ encoderCount s = 1
    ∧ currentBFO s = 0 ∧ currentBFOStep s = 25) as (s & Hr & Hbfo & Hn & Hb & Hst).
  { eexists. split.
    - eapply (reachable_play 17 10390 (ssb_session ++ [Interrupt 16 16]));
        vm_compute; reflexivity.
    - by repeat split. }
  destruct (Hnotch (turned 0) s Hr Hbfo) as (s1 & Hrun1 & Hnew1 & _);
    [by rewrite Hn|rewrite Hb, Hst; lia|rewrite Hb, Hst; lia|].
  destruct (Hstep s Hr Hbfo) as (s2 & Hrun2 & Hnew2 & _).
  exists s, s1, s2. do 5 (split; [done|]). split; [done|].
  split; [by rewrite Hnew1, Hn, Hb, Hst|]. split; [done|]. by rewrite Hnew2, Hst.
Defined.

(** ** SSB commands and the patch *)

Lemma patch_replay_app k t1 t2 :
  patch_replay k (t1 ++ t2) = patch_replay k t1 ≫= λ k', patch_replay k' t2.
Proof.
  revert k. induction t1 as [|e t1 IH]; intros k; simpl; [done|].
  destruct (patch_step k e); simpl; [apply IH|done].
Qed.

#[global] Instance patched_closed : Closed patched.
Proof.
  split; unfold patched.
  - intros s k Hk. by exists k.
  - intros s t1 s1 t2 s2 H1 H2 k Hk. destruct (H1 k Hk) as (k1 & Hr1 & Hk1).
    destruct (H2 k1 Hk1) as (k2 & Hr2 & Hk2). exists k2.
    rewrite patch_replay_app, Hr1. done.
Qed.

#[global] Instance safe_ssb_closed : Closed safe_ssb.
Proof.
  split; unfold safe_ssb.
  - intros s HI. split; [done|]. apply closed_nil.
  - intros s t1 s1 t2 s2 H1 H2 HI. destruct (H1 HI) as [HI1 Hp1].
    destruct (H2 HI1) as [HI2 Hp2]. split; [done|]. by eapply closed_app.
Qed.

Lemma safe_ssb_intro {A} (m : M A) :
  obeys keeps_Inv m → obeys patched m → obeys safe_ssb m.
Proof. intros HI Hp s a s' t Hrun Hs. split; [by eapply HI|by eapply Hp]. Qed.

Lemma loadSSB_patched : obeys patched loadSSB.
Proof.
  intros s [] s' t. rewrite loadSSB_Ok. intros [= <- <-] k _. by exists 7%nat.
Qed.

Lemma patch_replay_accepts t : ∀ k,
  Forall (λ e, is_ssb_command e = false) t → ∃ k', patch_replay k t = Some k'.
Proof.
  induction t as [|e t IH]; intros k Hall; [by exists k|].
  apply Forall_cons in Hall as [He Hall]. simpl. unfold patch_step. rewrite He. by apply IH.
Qed.

Lemma patch_replay_keeps t :
  Forall (λ e, drops_patch e = false) t → patch_replay 7 t = Some 7%nat.
Proof.
  induction 1 as [|e t He _ IH]; [done|]. by destruct e as [[]|].
Qed.

Ltac all_events :=
  simpl;
  repeat lazymatch goal with
         | |- Forall _ [] => constructor
         | |- Forall _ (_ :: _) => constructor; [reflexivity|]
         | |- Forall _ (_ ++ _) => apply Forall_app; split
         end.

Lemma showStatus_log_plain s : Forall (λ e, is_ssb_command e = false) (showStatus_log s).
Proof. unfold showStatus_log. destruct (is_ssb _); all_events. Qed.

Lemma showStatus_log_keeps s : Forall (λ e, drops_patch e = false) (showStatus_log s).
Proof. unfold showStatus_log. destruct (is_ssb _); all_events. Qed.

Lemma tuned_ssbLoaded b s :
  ssbLoaded (tuned b s) = if Band.bandType b =? FM_BAND_TYPE then false else ssbLoaded s.
Proof.
  unfold tuned. destruct (_ =? _); [done|].
  destruct (_ || _); simpl; destruct (ssbLoaded s) eqn:E; simpl; by rewrite ?E.
Qed.

Lemma useBand_log_plain b s :
  (Band.bandType b =? FM_BAND_TYPE) || negb (ssbLoaded s) = true →
  Forall (λ e, is_ssb_command e = false) (useBand_log b s).
Proof.
  intros H. unfold useBand_log.
  apply Forall_app. split; [|apply Forall_app; split; [all_events|apply showStatus_log_plain]].
  destruct (Band.bandType b =? FM_BAND_TYPE); [all_events|].
  destruct (ssbLoaded s); [done|]. destruct (_ || _); all_events.
Qed.

Lemma useBand_log_keeps b s :
  (Band.bandType b =? FM_BAND_TYPE) = false → ssbLoaded s = true →
  Forall (λ e, drops_patch e = false) (useBand_log b s).
Proof.
  intros Hfm Hld. unfold useBand_log. rewrite Hfm, Hld.
  apply Forall_app. split; [|apply Forall_app; split; [all_events|apply showStatus_log_keeps]].
  destruct (_ || _); all_events.
Qed.

Lemma useBand_patched : obeys patched useBand.
Proof.
  intros s [] s' t Hrun.
  destruct (band_get (band s) (bandIdx s)) as [b|] eqn:Hb.
  2: { unfold useBand, band_at in Hrun. rewrite bind_gets in Hrun.
       unfold mbind, M_bind in Hrun. by rewrite Hb in Hrun. }
  rewrite (useBand_Ok _ _ Hb) in Hrun. injection Hrun as <- <-.
  intros k Hk. rewrite tuned_ssbLoaded.
  destruct (Band.bandType b =? FM_BAND_TYPE) eqn:Hfm.
  { destruct (patch_replay_accepts (useBand_log b s) k) as [k' Hk'].
    - apply useBand_log_plain. by rewrite Hfm.
    - by exists k'. }
  destruct (ssbLoaded s) eqn:Hld.
  - rewrite (Hk eq_refl). exists 7%nat. split; [|done].
    by apply patch_replay_keeps, useBand_log_keeps.
  - destruct (patch_replay_accepts (useBand_log b s) k) as [k' Hk'].
    + apply useBand_log_plain. by rewrite Hfm, Hld.
    + by exists k'.
Qed.

Ltac patched_leaf :=
  first [ simple apply useBand_patched | simple apply loadSSB_patched
        | let k := fresh "k" in let Hk := fresh "Hk" in
          unfold patched; simpl; intros k Hk;
          match goal with
          | |- context [ssbLoaded ?s = true → _] =>
              destruct (ssbLoaded s) eqn:?;
              [ rewrite (Hk eq_refl); eexists; split; [reflexivity|done]
              | eexists; split; [reflexivity|done] ]
          | _ => eexists; split; [reflexivity|done]
          end ].

Ltac patched_auto :=
  unfold loop, on_rds, on_rssi, on_pushButton, on_bStep, on_bAGC, agcLadder, on_bSSB,
    on_bSW, on_bMW, on_bFM, on_bAM, on_bAudioMute, on_seek, bandDown, bandUp, saveBand,
    checkRDS, showRSSI, showStatus, showBFO, showFrequencySeek, showFrequency,
    clearRDS, showRDSTime, showRDSStation, showRDSMsg, printText;
  unfold radio, screen; repeat obeys_step patched_leaf.

Lemma filter_log_plain s :
  ssbLoaded s = false → Inv s → Forall (λ e, is_ssb_command e = false) (filter_log s).
Proof.
  intros Hld HI. unfold filter_log. rewrite <- (inv_ssb _ HI), Hld.
  destruct (Mode_eqb _ _); all_events.
Qed.

Lemma filter_log_keeps s : Forall (λ e, drops_patch e = false) (filter_log s).
Proof.
  unfold filter_log. destruct (is_ssb _); [|destruct (Mode_eqb _ _)]; all_events.
Qed.

Lemma filtered_ssbLoaded s : ssbLoaded (filtered s) = ssbLoaded s.
Proof. unfold filtered. destruct (is_ssb _); [done|]. by destruct (Mode_eqb _ _). Qed.

Lemma on_bFilter_safe : obeys safe_ssb on_bFilter.
Proof.
  intros s [] s' t Hrun HI.
  split; [by apply (frames_core_keeps_Inv _ on_bFilter_core _ _ _ _ Hrun)|].
  destruct (Inv_entry _ HI) as [b Hb]. rewrite (on_bFilter_Ok _ _ Hb) in Hrun.
  injection Hrun as <- <-. intros k Hk. rewrite filtered_ssbLoaded.
  destruct (ssbLoaded s) eqn:Hld.
  - rewrite (Hk eq_refl). exists 7%nat. split; [|done]. apply patch_replay_keeps.
    apply Forall_app. split; [apply filter_log_keeps|apply showStatus_log_keeps].
  - destruct (patch_replay_accepts (filter_log s ++ showStatus_log s) k) as [k' Hk'].
    + apply Forall_app. split; [by apply filter_log_plain|apply showStatus_log_plain].
    + by exists k'.
Qed.

Lemma on_encoder_safe i : obeys safe_ssb (on_encoder i).
Proof.
  intros s [] s' t Hrun HI.
  split; [by apply (frames_core_keeps_Inv _ (on_encoder_core i) _ _ _ _ Hrun)|].
  intros k Hk. destruct (Z.eq_dec (encoderCount s) 0) as [H0|Hn].
  { rewrite (on_encoder_still _ _ H0) in Hrun. injection Hrun as <- <-. by exists k. }
  destruct (bfoOn s) eqn:Hbfo.
  - rewrite (on_encoder_bfo _ _ Hn Hbfo) in Hrun. injection Hrun as <- <-.
    assert (ssbLoaded s = true) as Hld.
    { rewrite (inv_ssb _ HI). by apply (inv_bfo _ HI). }
    rewrite (Hk Hld). eexists. split; [reflexivity|done].
  - rewrite (on_encoder_tunes _ _ Hn Hbfo) in Hrun. injection Hrun as <- <-.
    simpl. destruct (ssbLoaded s) eqn:Hld.
    + rewrite (Hk eq_refl). destruct (_ =? 1); (eexists; split; [reflexivity|done]).
    + destruct (_ =? 1); (eexists; split; [reflexivity|done]).
Qed.

Lemma loop_safe_ssb i : obeys safe_ssb (loop i).
Proof.
  apply loop_blocks; [apply _|..]; intros;
    first [ apply on_bFilter_safe | apply on_encoder_safe
          | apply safe_ssb_intro; [block_Inv|patched_auto] ].
Qed.

Lemma history_patched t s :
  history t s → ∃ k, patch_replay 0 t = Some k ∧ (ssbLoaded s = true → k = 7%nat).
Proof.
  induction 1 as [addr freq s t Hs|x s t s' t' Ht (k & Hk & Hld) Hx].
  - apply setup_after in Hs as (_ & -> & ->). exists 0%nat. by split.
  - rewrite patch_replay_app, Hk. simpl.
    destruct x as [i|d status]; simpl in Hx.
    + destruct (loop_safe_ssb i _ _ _ _ Hx (history_Inv _ _ Ht)) as [_ Hp]. by apply Hp.
    + injection Hx as <- <-. exists k. split; [done|].
      unfold rotaryEncoder. by repeat destruct (_ =? _).
Qed.

Lemma nth_loader_call_spec k e :
  nth_loader_call k e = true → (k < 7)%nat ∧ ∃ bw, patch_log bw !! k = Some e.
Proof.
  intros H. do 6 (destruct k as [|k]; [split; [lia|]; destruct e as [[]|]; try done;
                                       by exists 0|]).
  destruct k as [|k]; [|by destruct k].
  split; [lia|]. destruct e as [[]|]; try done. simpl in H.
  repeat (apply andb_true_iff in H as [H ?]).
  apply Z.eqb_eq in H. repeat match goal with H : (_ =? _) = true |- _ => apply Z.eqb_eq in H end.
  subst. by eexists.
Qed.

Lemma take_patch_log k bw : (k < 7)%nat → take k (patch_log bw) = take k (patch_log 0).
Proof. intros H. do 7 (destruct k as [|k]; [done|]). lia. Qed.

Lemma is_ssb_command_keeps e : is_ssb_command e = true → drops_patch e = false.
Proof. by destruct e as [[]|]. Qed.

Lemma is_ssb_command_iff e : is_ssb_command e = true ↔ ssb_command e.
Proof. by destruct e as [[]|]. Qed.

Lemma loaded_by_snoc t e : loaded_by t → drops_patch e = false → loaded_by (t ++ [e]).
Proof.
  intros (a & bw & b & -> & Hb) He. exists a, bw, (b ++ [e]).
  split; [by rewrite <- !app_assoc|]. apply Forall_app. split; [done|]. by constructor.
Qed.

Lemma patch_replay_stage t : ∀ k, patch_replay 0 t = Some k → stage_inv k t.
Proof.
  induction t as [|e t IH] using rev_ind; intros k.
  - intros [= <-]. split; [lia|]. split; intros; exfalso; lia.
  - rewrite patch_replay_app. destruct (patch_replay 0 t) as [k1|] eqn:E1; [|done].
    simpl. destruct (patch_step k1 e) as [k2|] eqn:E2; [|done]. intros [= <-].
    destruct (IH k1 eq_refl) as (Hle & H7 & Hmid). unfold patch_step in E2.
    destruct (is_ssb_command e) eqn:Hssb.
    { destruct (Nat.eqb_spec k1 7) as [->|]; [|done]. injection E2 as <-.
      split; [lia|]. split; [|intros; exfalso; lia]. intros _.
      apply loaded_by_snoc; [by apply H7|by apply is_ssb_command_keeps]. }
    destruct (nth_loader_call 0 e) eqn:H0.
    { injection E2 as <-.
      apply nth_loader_call_spec in H0 as [_ [bw Hbw]]. injection Hbw as <-.
      split; [lia|]. split; [intros; exfalso; lia|]. intros _. by exists t. }
    destruct (Nat.ltb_spec k1 7) as [Hlt|Hge].
    + destruct (nth_loader_call k1 e) eqn:Hk1; injection E2 as <-;
        [|split; [lia|split; intros; exfalso; lia]].
      assert (0 < k1)%nat as Hpos by (destruct k1; [congruence|lia]).
      apply nth_loader_call_spec in Hk1 as [_ [bw Hbw]].
      destruct (Hmid (conj Hpos Hlt)) as [a ->].
      assert ((a ++ take k1 (patch_log 0)) ++ [e] = a ++ take (S k1) (patch_log bw)) as Heq.
      { rewrite (take_S_r _ _ _ Hbw), (take_patch_log k1 bw Hlt). by rewrite <- app_assoc. }
      split; [lia|]. split.
      * intros [= ->]. exists a, bw, []. split; [|done]. rewrite Heq, app_nil_r. done.
      * intros [_ Hlt']. exists a. by rewrite Heq, (take_patch_log _ bw Hlt').
    + assert (k1 = 7)%nat as -> by lia.
      destruct (drops_patch e) eqn:Hd; injection E2 as <-;
        [split; [lia|split; intros; exfalso; lia]|].
      split; [lia|]. split; [|intros; exfalso; lia]. intros _.
      apply loaded_by_snoc; [by apply H7|done].
Qed.

(** X6.  No SSB command reaches a radio that is not running the patch.  In
    the log of any run from power-on, every call that tunes in SSB, moves
    the BFO or sets an SSB filter ([setSSB], [setSSBBfo],
    [setSSBAutomaticVolumeControl], [setSsbSoftMuteMaxAttenuation],
    [setSSBAudioBandwidth], [setSBBSidebandCutoffFilter]) comes after a
    complete run of the patch loader, its seven calls in a row, with no
    [setFM], no [setAM] and no call of the loader between that run and the
    command. *)
Theorem ssb_commands_follow_patch t s :
  history t s →
  ∀ t1 e t2, t = t1 ++ e :: t2 → ssb_command e →
    ∃ a bw b, t1 = a ++ patch_log bw ++ b ∧ Forall (λ e', drops_patch e' = false) b.
Proof.
  intros Ht t1 e t2 -> He. destruct (history_patched _ _ Ht) as (k & Hk & _).
  rewrite patch_replay_app in Hk.
  destruct (patch_replay 0 t1) as [k1|] eqn:E1; [|done]. simpl in Hk.
  apply is_ssb_command_iff in He. unfold patch_step in Hk. rewrite He in Hk.
  destruct (Nat.eqb_spec k1 7) as [->|]; [|done].
  by apply (patch_replay_stage _ _ E1).
Qed.

Lemma ssb_commands_follow_patch_witness :
  ∃ t s t1 t2 a bw b, history t s
    ∧ t = t1 ++ Radio (si4735.setSSBBfo 25) :: t2
    ∧ t1 = a ++ patch_log bw ++ b ∧ Forall (λ e', drops_patch e' = false) b.
Proof.
  assert (∃ t s, history t s ∧ Radio (si4735.setSSBBfo 25) ∈ t) as (t & s & Ht & Hin).
  { eexists _, _. split.
    - apply (history_run 17 10390 (ssb_session ++ [Interrupt 16 16; Pass (turned 0)])).
      vm_compute. reflexivity.
    - repeat first [apply list_elem_of_here | apply list_elem_of_further]. }
  destruct (list_elem_of_split _ _ Hin) as (t1 & t2 & Heq).
  destruct (ssb_commands_follow_patch t s Ht t1 _ t2 Heq I) as (a & bw & b & H1 & H2).
  by exists t, s, t1, t2, a, bw, b.
Defined.

(** ** The radio was last told what the globals hold *)

#[global] Instance mirrored_closed : Closed mirrored.
Proof.
  split; unfold mirrored, told.
  - by intros s v ->.
  - intros s t1 s1 t2 s2 H1 H2 v Hv. rewrite foldl_app. apply H2. by apply H1.
Qed.

Lemma told_silent v t : Forall silent t → told v t = v.
Proof.
  unfold told. induction 1 as [|e t He _ IH]; [done|]. simpl. by rewrite He.
Qed.

Lemma frames_mirrored {A} (m : M A) : obeys (frames settings silent) m → obeys mirrored m.
Proof.
  apply obeys_impl. intros s t s' [Hv Hall] v ->. by rewrite told_silent.
Qed.

Lemma useBand_mirrored : obeys mirrored useBand.
Proof.
  intros s [] s' t Hrun.
  destruct (band_get (band s) (bandIdx s)) as [b|] eqn:Hb.
  2: { unfold useBand, band_at in Hrun. rewrite bind_gets in Hrun.
       unfold mbind, M_bind in Hrun. by rewrite Hb in Hrun. }
  rewrite (useBand_Ok _ _ Hb) in Hrun. injection Hrun as <- <-.
  intros v ->. unfold useBand_log, tuned, showStatus_log, told, settings.
  destruct (Band.bandType b =? FM_BAND_TYPE); simpl; [done|].
  destruct (_ || _); simpl; destruct (ssbLoaded s); simpl; try destruct (is_ssb _); done.
Qed.

Ltac mirrored_leaf :=
  first [ simple apply useBand_mirrored
        | unfold mirrored, told; simpl; intros ? ->; reflexivity ].

Ltac mirrored_auto :=
  unfold loop, on_rds, on_rssi, on_pushButton, on_bFilter, on_bSSB,
    on_bSW, on_bMW, on_bFM, on_bAM, on_seek, bandDown, bandUp, saveBand, loadSSB,
    checkRDS, showRSSI, showStatus, showBFO, showFrequencySeek, showFrequency,
    clearRDS, showRDSTime, showRDSStation, showRDSMsg, printText;
  unfold radio, screen; repeat obeys_step mirrored_leaf.

Lemma showStatus_silent : obeys (frames settings silent) showStatus.
Proof. frames_auto. Qed.

Lemma on_bAudioMute_mirrored : obeys mirrored on_bAudioMute.
Proof.
  intros s [] s' t. unfold on_bAudioMute, radio. run. intros [= <- <-] v ->. reflexivity.
Qed.

Lemma on_bAGC_mirrored : obeys mirrored on_bAGC.
Proof.
  intros s [] s' t Hrun. unfold on_bAGC in Hrun.
  apply bind_inv in Hrun as ([] & s1 & t1 & t2 & H1 & H2 & ->).
  assert (obeys (frames (λ s, (audioMute s, fmStereo s)) (λ _, False)) agcLadder)
    as Hfr by frames_auto.
  destruct (Hfr _ _ _ _ H1) as [[= Hm Hst] Hno].
  assert (t1 = []) as -> by (by destruct Hno).
  rewrite !bind_gets in H2. unfold radio in H2. rewrite bind_emit in H2.
  destruct (showStatus s1) as [[] s2 t3|] eqn:Hs; [|done]. injection H2 as <- <-.
  destruct (showStatus_silent _ _ _ _ Hs) as [Hv Hall].
  intros v ->. simpl. unfold told in *. simpl. rewrite (told_silent _ _ Hall), Hv.
  unfold settings. by rewrite Hm, Hst.
Qed.

Lemma on_encoder_mirrored i : obeys mirrored (on_encoder i).
Proof.
  intros s [] s' t Hrun v ->. destruct (Z.eq_dec (encoderCount s) 0) as [H0|Hn].
  { rewrite (on_encoder_still _ _ H0) in Hrun. by injection Hrun as <- <-. }
  destruct (bfoOn s) eqn:Hbfo.
  - rewrite (on_encoder_bfo _ _ Hn Hbfo) in Hrun. by injection Hrun as <- <-.
  - rewrite (on_encoder_tunes _ _ Hn Hbfo) in Hrun. injection Hrun as <- <-.
    by destruct (_ =? 1).
Qed.

Lemma on_bStep_mirrored : obeys mirrored on_bStep.
Proof.
  intros s [] s' t Hrun v ->. revert Hrun.
  destruct (decide (currentMode s = FM)) as [Hm|Hm].
  { unfold on_bStep. rewrite bind_gets, Hm. simpl.
    rewrite bind_modify, bind_gets. simpl.
    destruct (fmStereo s); simpl; by intros [= <- <-]. }
  destruct (bfoOn s && is_ssb (currentMode s)) eqn:Hbfo.
  { apply andb_true_iff in Hbfo as [Hon Hssb].
    rewrite (on_bStep_bfo _ Hon Hssb). by intros [= <- <-]. }
  destruct (band_get (band s) (bandIdx s)) as [b|] eqn:Hb.
  - rewrite (on_bStep_Ok s b Hm Hbfo Hb). intros [= <- <-].
    unfold showStatus_log. simpl. by destruct (is_ssb _).
  - unfold on_bStep. rewrite bind_gets.
    destruct (Mode_eqb (currentMode s) FM) eqn:E; [by apply Mode_eqb_eq in E|].
    rewrite bind_gets, Hbfo. rewrite !bind_gets.
    intros Hrun. exfalso. revert Hrun.
    repeat (destruct (_ =? _); simpl);
      rewrite bind_modify, bind_gets; unfold radio; rewrite bind_emit;
      unfold band_at, mbind, M_bind; simpl; by rewrite Hb.
Qed.

Lemma loop_mirrored i : obeys mirrored (loop i).
Proof.
  apply loop_blocks; [apply _|..]; intros;
    first [ apply on_bAudioMute_mirrored | apply on_bAGC_mirrored | apply on_encoder_mirrored
          | apply on_bStep_mirrored | mirrored_auto ].
Qed.

(** X7.  The radio was last told what the globals hold.  Reading the log of
    any run from power-on, the last [setAudioMute] carries [audioMute], the
    last [setAutomaticGainControl] the pair [(disableAgc, agcNdx)], and the
    last of [setFmStereoOn] and [setFmStereoOff] agrees with [fmStereo]; a
    setting never sent still has the value it had at power-on. *)
Theorem radio_told_the_globals t s : history t s → told (settings power_on) t = settings s.
Proof.
  induction 1 as [addr freq s t Hs|x s t s' t' Ht IH Hx].
  - apply setup_after in Hs as (_ & -> & ->). reflexivity.
  - unfold told in *. rewrite foldl_app, IH.
    destruct x as [i|d status]; simpl in Hx.
    + by apply (loop_mirrored i _ _ _ _ Hx).
    + injection Hx as <- <-. unfold rotaryEncoder. by repeat destruct (_ =? _).
Qed.

Lemma radio_told_the_globals_witness :
  ∃ t s, history t s
    ∧ settings s = {| told_mute := true; told_agc := (1, 5); told_stereo := false |}
    ∧ told (settings power_on) t = settings s.
Proof.
  assert (∃ t s, history t s
    ∧ settings s = {| told_mute := true; told_agc := (1, 5); told_stereo := false |})
    as (t & s & Ht & Hs).
  { eexists _, _. split.
    - apply (history_run 17 10390 settings_session). vm_compute. reflexivity.
    - reflexivity. }
  exists t, s. split; [done|]. split; [done|]. by apply radio_told_the_globals.
Defined.

(** ** Where a pass can stop *)





























(** ** [setup] and the RDS buffers *)



(** X10.  The RDS texts are written on change only.  Following the three
    buffers along the log of any run from power-on, every [printText] at one
    of the three RDS positions writes a text that differs from the one its
    buffer held, and the buffers end as the last texts written, or empty
    after the rectangle of the RDS block.  When the last block of a pass
    finds the mode FM and [currentFrequency] different from
    [previousFrequency], with the three RDS pointers not null and texts that
    fit, it draws that rectangle and empties the three buffers before
    anything else is written in the pass, and takes [previousFrequency] to
    [currentFrequency]; this is what the pass after a notch of the encoder
    answered with a new frequency does. *)
Theorem rds_written_on_change :
  (∀ t s, history t s → replay_all nothing_shown t = Some (caches s))
  ∧ (∀ r s, currentMode s = FM → currentFrequency s ≠ previousFrequency s →
       rdsMsg s ≠ None → stationName s ≠ None → rdsTime s ≠ None → fits r →
       ∃ s' t, on_rds r s = Ok tt s' (rds_wipe :: t)
         ∧ replay_all nothing_shown t = Some (caches s')
         ∧ previousFrequency s' = currentFrequency s
         ∧ currentFrequency s' = currentFrequency s)
  ∧ (∀ f s, reachable s → currentMode s = FM → encoderCount s ≠ 0 →
       currentFrequency s = previousFrequency s → uint16 f ≠ currentFrequency s →
       rdsMsg s ≠ None → stationName s ≠ None → rdsTime s ≠ None →
       ∃ s' t, loop (turned f) s = Ok tt s' t
         ∧ currentFrequency s' = uint16 f ∧ previousFrequency s' = uint16 f
         ∧ rds_wipe ∈ t ∧ caches s' = nothing_shown).
Proof.
  split; [apply history_rds|]. split; [apply on_rds_clears|]. apply encoder_step_clears.
Qed.

Lemma rds_written_on_change_witness :
  ∃ s s' t,
    reachable s ∧ currentMode s = FM ∧ caches s ≠ nothing_shown
    ∧ on_rds no_rds (set_currentFrequency 10400 s) = Ok tt s' (rds_wipe :: t)
    ∧ replay_all nothing_shown t = Some (caches s').
Proof.
  destruct rds_written_on_change as (_ & Hclear & _).
  assert (∃ s, reachable s ∧ currentMode s = FM ∧ caches s ≠ nothing_shown
    ∧ currentFrequency (set_currentFrequency 10400 s) ≠ previousFrequency s
    ∧ rdsMsg s ≠ None ∧ stationName s ≠ None ∧ rdsTime s ≠ None)
    as (s & Hr & Hm & Hc & Hf & H1 & H2 & H3).
  { eexists. split.
    - eapply (reachable_play 17 10390 [Pass rds_received]); vm_compute; reflexivity.
    - by repeat split. }
  destruct (Hclear no_rds (set_currentFrequency 10400 s) Hm Hf H1 H2 H3)
    as (s' & t & Hrun & Hreplay & _).
  { by repeat split. }
  by exists s, s', t.
Defined.

(** ** The drawing code *)

Lemma strokes_app colour cursor t1 t2 :
  ∃ colour' cursor',
    strokes colour cursor (t1 ++ t2) = strokes colour cursor t1 ++ strokes colour' cursor' t2.
Proof.
  revert colour cursor. induction t1 as [|e t1 IH]; intros colour cursor; simpl.
  - by exists colour, cursor.
  - destruct e; simpl; try done.
    + destruct (IH colour None) as (c' & u' & ->). by exists c', u'.
    + destruct (IH colour cursor) as (c' & u' & ->). by exists c', u'.
Qed.

Lemma redrawn_nil_r c line color space old st :
  st ∈ redrawn c line color space old EmptyString ↔ redraws c line color space old EmptyString st.
Proof.
  revert c. induction old as [|o old IH]; intros c; simpl.
  - split; [by intros ?%elem_of_nil|].
    intros (k & ch & _ & _ & [(_ & H & _)|(_ & H & _)]); by destruct k.
  - rewrite elem_of_cons, IH. split.
    + intros [->|(k & ch & Hp & Hg & H)].
      * exists 0%nat, o. simpl. repeat split; [f_equal; f_equal; lia|]. left. by destruct old.
      * exists (S k), ch. split; [rewrite Hp; f_equal; f_equal; lia|]. split; [done|].
        destruct H as [H|H]; [left|right]; simpl; exact H.
    + intros (k & ch & Hp & Hg & H). destruct k as [|k].
      * left. destruct H as [(Hi & [= <-] & _)|(_ & [=] & _)].
        destruct st as [p i g]; simpl in *. subst. f_equal. f_equal. f_equal. lia.
      * right. exists k, ch. split; [rewrite Hp; f_equal; f_equal; lia|]. split; [done|].
        destruct H as [H|H]; [left|right]; simpl in H; exact H.
Qed.

Lemma written_spec c line color space new st :
  st ∈ written c line color space new ↔
  ∃ k ch, st = mkStroke (Some (c + Z.of_nat k * space, line)) color ch
          ∧ String.get k new = Some ch.
Proof.
  revert c. induction new as [|n new IH]; intros c; simpl.
  - split; [by intros ?%elem_of_nil|]. intros (k & ch & _ & H). by destruct k.
  - rewrite elem_of_cons, IH. split.
    + intros [->|(k & ch & -> & H)].
      * exists 0%nat, n. split; [|done]. do 3 f_equal. lia.
      * exists (S k), ch. split; [|done]. do 3 f_equal. lia.
    + intros (k & ch & -> & H). destruct k as [|k]; simpl in H.
      * left. injection H as <-. do 3 f_equal. lia.
      * right. exists k, ch. split; [|done]. do 3 f_equal. lia.
Qed.

Lemma redraws_shift c line color space o n old new st :
  redraws (c + space) line color space old new st →
  redraws c line color space (String o old) (String n new) st.
Proof.
  intros (k & ch & Hp & Hg & H). exists (S k), ch.
  split; [rewrite Hp; do 2 f_equal; lia|]. split; [done|]. exact H.
Qed.

Lemma redraws_unshift c line color space o n old new st k ch :
  place st = Some (c + Z.of_nat (S k) * space, line) → glyph st = ch →
  (ink st = BLACK ∧ String.get (S k) (String o old) = Some ch
     ∧ String.get (S k) (String n new) ≠ Some ch)
  ∨ (ink st = color ∧ String.get (S k) (String n new) = Some ch
     ∧ String.get (S k) (String o old) ≠ Some ch) →
  redraws (c + space) line color space old new st.
Proof.
  intros Hp Hg H. exists k, ch.
  split; [rewrite Hp; do 2 f_equal; lia|]. split; [done|]. exact H.
Qed.

Lemma redrawn_spec c line color space old new st :
  st ∈ redrawn c line color space old new ↔ redraws c line color space old new st.
Proof.
  revert c new. induction old as [|o old IH]; intros c new.
  - simpl. rewrite written_spec. split.
    + intros (k & ch & -> & H). exists k, ch. simpl. repeat split. right.
      repeat split; [done|]. by destruct k.
    + intros (k & ch & Hp & Hg & [(_ & H & _)|(Hi & H & _)]); [by destruct k|].
      exists k, ch. split; [|done]. destruct st; simpl in *. by subst.
  - destruct new as [|n new]; [apply redrawn_nil_r|].
    simpl. rewrite elem_of_app, IH. split.
    + intros [H|H]; [|by apply redraws_shift].
      destruct (Ascii.eqb_spec o n) as [->|Hne]; [by apply elem_of_nil in H|].
      apply elem_of_cons in H as [->|H].
      { exists 0%nat, o. simpl. split; [do 2 f_equal; lia|]. split; [done|].
        left. repeat split. congruence. }
      apply list_elem_of_singleton in H as ->.
      exists 0%nat, n. simpl. split; [do 2 f_equal; lia|]. split; [done|].
      right. repeat split. congruence.
    + intros (k & ch & Hp & Hg & H). destruct k as [|k].
      * left. simpl in H. destruct (Ascii.eqb_spec o n) as [->|Hne].
        { destruct H as [(_ & H1 & H2)|(_ & H1 & H2)]; congruence. }
        destruct st as [p i g]; simpl in *. subst.
        replace (c + Z.of_nat 0 * space) with c by lia.
        destruct H as [(-> & [= <-] & _)|(-> & [= <-] & _)].
        -- apply list_elem_of_here.
        -- apply list_elem_of_further, list_elem_of_here.
      * right. by eapply redraws_unshift.
Qed.

Lemma strokes_printed line color space pNew c cursor :
  strokes color cursor (Draw.printed c line space pNew) = written c line color space pNew.
Proof.
  revert c cursor. induction pNew as [|n pNew IH]; intros c cursor; simpl; [done|].
  by rewrite IH.
Qed.

Lemma strokes_erased line color space pOld c cursor rest :
  (∀ colour cursor, strokes colour cursor rest = []) →
  strokes BLACK cursor ((Draw.erased c line space pOld).1 ++ rest)
  = redrawn c line color space pOld EmptyString.
Proof.
  intros Hrest. revert c cursor. induction pOld as [|o pOld IH]; intros c cursor; simpl.
  - apply Hrest.
  - specialize (IH (c + space) None).
    destruct (Draw.erased (c + space) line space pOld) as [calls c']. simpl in *.
    by rewrite IH.
Qed.

Lemma erased_nil c line space : Draw.erased c line space EmptyString = ([], c).
Proof. done. Qed.

Lemma strokes_changed line color space pOld pNew c colour cursor rest :
  let '(calls1, (c1, pOld1, pNew1)) := Draw.changed c line color space pOld pNew in
  (∀ colour cursor, strokes colour cursor rest = redrawn c1 line color space pOld1 pNew1) →
  strokes colour cursor (calls1 ++ rest) = redrawn c line color space pOld pNew.
Proof.
  revert pNew c colour cursor. induction pOld as [|o pOld IH]; intros pNew c colour cursor.
  - simpl. destruct pNew; simpl; intros H; apply H.
  - destruct pNew as [|n pNew]; [simpl; intros H; apply H|].
    simpl. pose proof (IH pNew (c + space)) as IH'.
    destruct (Draw.changed (c + space) line color space pOld pNew) as [calls [[c1 pOld1] pNew1]].
    intros Hrest. destruct (Ascii.eqb o n); simpl.
    + by apply IH'.
    + do 2 f_equal. by apply IH'.
Qed.

Lemma changed_ends line color space pOld pNew c :
  let '(_, (_, pOld1, pNew1)) := Draw.changed c line color space pOld pNew in
  pOld1 = EmptyString ∨ pNew1 = EmptyString.
Proof.
  revert pNew c. induction pOld as [|o pOld IH]; intros pNew c; [by left|].
  destruct pNew as [|n pNew]; [by right|]. simpl.
  specialize (IH pNew (c + space)).
  by destruct (Draw.changed (c + space) line color space pOld pNew) as [calls [[c1 pOld1] pNew1]].
Qed.

Lemma printText_strokes col line sizeText old new color space size calls kept colour cursor :
  Draw.printText col line sizeText old new color space size = Some (calls, kept) →
  strokes colour cursor calls = redrawn col line color space old new ∧ kept = new.
Proof.
  unfold Draw.printText.
  pose proof (strokes_changed line color space old new col colour cursor) as Hc.
  pose proof (changed_ends line color space old new col) as He.
  destruct (Draw.changed col line color space old new) as [calls1 [[c1 pOld1] pNew1]].
  destruct (Draw.erased c1 line space pOld1) as [calls2 c2] eqn:E2.
  destruct (String.length new <? size)%nat; [|done]. intros [= <- <-]. split; [|done].
  simpl. apply Hc. intros colour' cursor'. simpl. destruct He as [-> | ->].
  - rewrite erased_nil in E2. injection E2 as <- <-. simpl. apply strokes_printed.
  - pose proof (strokes_erased line color space pOld1 c1 cursor' [gfx.setTextColor color]) as H.
    rewrite E2 in H. simpl in H. by rewrite <- H.
Qed.

Lemma redrawn_same c line color space txt : redrawn c line color space txt txt = [].
Proof.
  revert c. induction txt as [|a txt IH]; intros c; simpl; [done|].
  by rewrite Ascii.eqb_refl, IH.
Qed.

Lemma printText_Some col line sizeText old new color space size :
  (String.length new < size)%nat →
  ∃ calls, Draw.printText col line sizeText old new color space size = Some (calls, new).
Proof.
  intros Hfit. unfold Draw.printText.
  destruct (Draw.changed col line color space old new) as [calls1 [[c1 pOld1] pNew1]].
  destruct (Draw.erased c1 line space pOld1) as [calls2 c2].
  apply Nat.ltb_lt in Hfit. rewrite Hfit. by eexists.
Qed.

(** X11: [printText] touches the characters that change and no other.  When
    the new text fits the array behind [oldValue] and the columns fit the
    [int], the call returns with the new text stored, and a character is
    drawn exactly if it is, at the column [col + k * space] of some index
    [k], the old character of that index in black or the new one in colour,
    the other text having another character or none there.  Redrawing a text
    as itself draws nothing. *)
Theorem printText_draws_the_difference col line sizeText old new color space size colour cursor :
  (String.length new < size)%nat →
  fits_int col space old new →
  ∃ calls,
    Draw.printText col line sizeText old new color space size = Some (calls, new)
    ∧ (∀ st, st ∈ strokes colour cursor calls ↔ redraws col line color space old new st)
    ∧ (old = new → strokes colour cursor calls = []).
Proof.
  intros Hfit _. destruct (printText_Some col line sizeText old new color space size Hfit)
    as [calls Hc].
  exists calls. split; [done|].
  destruct (printText_strokes _ _ _ _ _ _ _ _ _ _ colour cursor Hc) as [-> _]. split.
  - intros st. apply redrawn_spec.
  - intros ->. apply redrawn_same.
Qed.

Lemma printText_draws_the_difference_witness :
  ∃ calls,
    Draw.printText 55 60 1 "RADIO 1" "RADIO 24" 2016 6 255 = Some (calls, "RADIO 24")
    ∧ (∀ st, st ∈ strokes 0 None calls ↔ redraws 55 60 2016 6 "RADIO 1" "RADIO 24" st)
    ∧ ("RADIO 1" = "RADIO 24" → strokes 0 None calls = []).
Proof.
  apply (printText_draws_the_difference 55 60 1 "RADIO 1" "RADIO 24" 2016 6 255 0 None).
  - simpl. lia.
  - unfold fits_int. simpl. lia.
Defined.

Lemma strokes_printed_digits line color newValue c colour cursor :
  strokes colour cursor (Draw.printed_digits c line color newValue)
  = written c line color 25 newValue.
Proof.
  revert c. induction newValue as [|n newValue IH]; intros c; simpl; [done|]. by rewrite IH.
Qed.

Lemma strokes_erased_digits line color oldValue c colour cursor :
  strokes colour cursor (Draw.erased_digits c line oldValue).1
  = redrawn c line color 25 oldValue EmptyString.
Proof.
  revert c. induction oldValue as [|o oldValue IH]; intros c; simpl; [done|].
  specialize (IH (c + 25)).
  destruct (Draw.erased_digits (c + 25) line oldValue) as [calls c']. simpl in *.
  by rewrite IH.
Qed.

Lemma strokes_changed_digits line color oldValue newValue c colour cursor rest :
  let '(calls1, (c1, oldValue1, newValue1)) :=
    Draw.changed_digits c line color oldValue newValue in
  strokes colour cursor rest = redrawn c1 line color 25 oldValue1 newValue1 →
  strokes colour cursor (calls1 ++ rest) = redrawn c line color 25 oldValue newValue.
Proof.
  revert newValue c. induction oldValue as [|o oldValue IH]; intros newValue c.
  - simpl. destruct newValue; simpl; by intros ->.
  - destruct newValue as [|n newValue]; [simpl; by intros ->|].
    simpl. pose proof (IH newValue (c + 25)) as IH'.
    destruct (Draw.changed_digits (c + 25) line color oldValue newValue)
      as [calls [[c1 oldValue1] newValue1]].
    intros Hrest. destruct (Ascii.eqb o n); simpl.
    + by apply IH'.
    + do 2 f_equal. by apply IH'.
Qed.

Lemma changed_digits_ends line color oldValue newValue c :
  let '(_, (_, oldValue1, newValue1)) := Draw.changed_digits c line color oldValue newValue in
  oldValue1 = EmptyString ∨ newValue1 = EmptyString.
Proof.
  revert newValue c. induction oldValue as [|o oldValue IH]; intros newValue c; [by left|].
  destruct newValue as [|n newValue]; [by right|]. simpl.
  specialize (IH newValue (c + 25)).
  by destruct (Draw.changed_digits (c + 25) line color oldValue newValue)
    as [calls [[c1 oldValue1] newValue1]].
Qed.

Lemma showFrequencyValue_strokes col line old new color colour cursor :
  strokes colour cursor (Draw.showFrequencyValue col line old new color)
  = redrawn col line color 25 old new.
Proof.
  unfold Draw.showFrequencyValue.
  pose proof (strokes_changed_digits line color old new col colour cursor) as Hc.
  pose proof (changed_digits_ends line color old new col) as He.
  destruct (Draw.changed_digits col line color old new) as [calls1 [[c1 old1] new1]].
  pose proof (strokes_erased_digits line color old1 c1 colour cursor) as H2.
  destruct (Draw.erased_digits c1 line old1) as [calls2 c2] eqn:E2.
  apply Hc. destruct He as [-> | ->].
  - injection E2 as <- <-. simpl. apply strokes_printed_digits.
  - simpl in *. by rewrite app_nil_r.
Qed.

(** Every call is a [drawChar] on a black background at size 4. *)
Lemma showFrequencyValue_calls col line old new color :
  Forall (λ e, ∃ x y ch c, e = gfx.drawChar x y ch c BLACK 4)
         (Draw.showFrequencyValue col line old new color).
Proof.
  unfold Draw.showFrequencyValue.
  assert (Hp : ∀ new c, Forall (λ e, ∃ x y ch c, e = gfx.drawChar x y ch c BLACK 4)
                               (Draw.printed_digits c line color new)).
  { induction new0 as [|n new0 IH]; intros c; simpl; constructor; [by eexists _, _, _, _|done]. }
  assert (He : ∀ old c, Forall (λ e, ∃ x y ch c, e = gfx.drawChar x y ch c BLACK 4)
                               (Draw.erased_digits c line old).1).
  { induction old0 as [|o old0 IH]; intros c; simpl; [constructor|].
    specialize (IH (c + 25)). destruct (Draw.erased_digits (c + 25) line old0). simpl in *.
    constructor; [by eexists _, _, _, _|done]. }
  assert (Hc : ∀ old new c, Forall (λ e, ∃ x y ch c, e = gfx.drawChar x y ch c BLACK 4)
                               (Draw.changed_digits c line color old new).1).
  { induction old0 as [|o old0 IH]; intros new0 c; simpl; [constructor|].
    destruct new0 as [|n new0]; [constructor|].
    specialize (IH new0 (c + 25)).
    destruct (Draw.changed_digits (c + 25) line color old0 new0) as [calls r]. simpl in *.
    destruct (Ascii.eqb o n); simpl; [done|].
    constructor; [by eexists _, _, _, _|]. constructor; [by eexists _, _, _, _|done]. }
  specialize (Hc old new col).
  destruct (Draw.changed_digits col line color old new) as [calls1 [[c1 old1] new1]].
  specialize (He old1 c1). destruct (Draw.erased_digits c1 line old1) as [calls2 c2].
  simpl in *. apply Forall_app. split; [done|]. apply Forall_app. split; [done|]. apply Hp.
Qed.

Lemma strokes_drawChar_nil colour cursor calls :
  Forall (λ e, ∃ x y ch c, e = gfx.drawChar x y ch c BLACK 4) calls →
  strokes colour cursor calls = [] → calls = [].
Proof. intros H. destruct H as [|e calls (x & y & ch & c & ->) _]; [done|]. by simpl. Qed.

(** X12: [showFrequencyValue] redraws the frequency digit by digit.  Where
    the columns fit the [int], a character is drawn exactly if it is, at the
    column [col + 25 * k] of some index [k], the old character of that index
    in black or the new one in colour, the other text having another
    character or none there; every call is a [drawChar] of size 4 on black;
    and a frequency text that has not changed makes no call at all. *)
Theorem showFrequencyValue_draws_the_difference col line old new color colour cursor :
  fits_int col 25 old new →
  (∀ st, st ∈ strokes colour cursor (Draw.showFrequencyValue col line old new color)
         ↔ redraws col line color 25 old new st)
  ∧ Forall (λ e, ∃ x y ch c, e = gfx.drawChar x y ch c BLACK 4)
           (Draw.showFrequencyValue col line old new color)
  ∧ (old = new → Draw.showFrequencyValue col line old new color = []).
Proof.
  intros _. split; [|split].
  - intros st. rewrite showFrequencyValue_strokes. apply redrawn_spec.
  - apply showFrequencyValue_calls.
  - intros ->. apply (strokes_drawChar_nil colour cursor).
    + apply showFrequencyValue_calls.
    + rewrite showFrequencyValue_strokes. apply redrawn_same.
Qed.

Lemma showFrequencyValue_draws_the_difference_witness :
  (∀ st, st ∈ strokes 0 None (Draw.showFrequencyValue 10 10 "103.9" "104.5" 65504)
         ↔ redraws 10 10 65504 25 "103.9" "104.5" st)
  ∧ Forall (λ e, ∃ x y ch c, e = gfx.drawChar x y ch c BLACK 4)
           (Draw.showFrequencyValue 10 10 "103.9" "104.5" 65504)
  ∧ ("103.9" = "104.5" → Draw.showFrequencyValue 10 10 "103.9" "104.5" 65504 = []).
Proof.
  apply (showFrequencyValue_draws_the_difference 10 10 "103.9" "104.5" 65504 0 None).
  unfold fits_int. simpl. lia.
Defined.
